(** * sqlglot.parser: a shallow embedding of the recursive-descent SQL parser

    The development follows [src/sqlglot/parser.py].  Every method of the
    Python class [Parser] is a definition of the same name.  The token list
    of the current chunk ([self._tokens]) is assigned once per chunk by
    [parse] and only read by the productions, so it is passed as an
    environment; the cursor ([self._index]) is the threaded state.  Python
    exceptions are the [Raise] outcome.

    The recursion of the productions is not structural.  A production takes
    [self], the record of the bound methods it may call, and [parser_at]
    ties the knot by call depth: a method of the parser at depth [S n] runs
    its production over the parser at depth [n], and at depth [0] a method
    answers [OutOfFuel].  The loops take the depth as their bound.  Answers
    do not change with more depth ([parse_stable]) and a depth linear in the
    number of tokens suffices ([parse_answers]).

    Token texts are strings of bytes, and [upper] is [str.upper] on ASCII
    text: what is stated of the registry lookup is stated of ASCII names.
    The recursion limit of the interpreter is not modelled: the call depth is
    a parameter, running out of it is [OutOfFuel] and not an exception, and
    what is stated of a nesting is stated at a depth that allows it.  The node
    constructors of [sqlglot.expressions] are taken as plain record
    builders. *)

From Stdlib Require Import ZArith Lia Ascii String.
From stdpp Require Import gmap strings list.

Set Warnings "-register-all".

(** ** Tokens *)

(** The members of [TokenType] the parser and the binary node classes name. *)
Inductive TokenType :=
| BOOLEAN | TINYINT | SMALLINT | INT | BIGINT | FLOAT | DOUBLE | DECIMAL
| CHAR | VARCHAR | TEXT | BINARY | JSON
| VAR | IDENTIFIER | STAR | SEMICOLON | WITH | ALIAS | SELECT | FROM
| LEFT | RIGHT | FULL | INNER | OUTER | CROSS | JOIN | ON
| L_PAREN | R_PAREN | L_BRACKET | R_BRACKET | DOT | COMMA
| WHERE | GROUP | BY | HAVING | ORDER | DESC | UNION | ALL
| IN | BETWEEN | AND | OR | NOT | IS | NULL
| EQ | NEQ | GT | GTE | LT | LTE | DASH | PLUS | SLASH
| CAST | CASE | COUNT | WHEN | THEN | ELSE | END | DISTINCT
| STRING | NUMBER | OVER | PARTITION.

Definition TokenType_code (t : TokenType) : positive :=
  match t with
  | BOOLEAN => 1 | TINYINT => 2 | SMALLINT => 3 | INT => 4 | BIGINT => 5
  | FLOAT => 6 | DOUBLE => 7 | DECIMAL => 8 | CHAR => 9 | VARCHAR => 10
  | TEXT => 11 | BINARY => 12 | JSON => 13 | VAR => 14 | IDENTIFIER => 15
  | STAR => 16 | SEMICOLON => 17 | WITH => 18 | ALIAS => 19 | SELECT => 20
  | FROM => 21 | LEFT => 22 | RIGHT => 23 | FULL => 24 | INNER => 25
  | OUTER => 26 | CROSS => 27 | JOIN => 28 | ON => 29 | L_PAREN => 30
  | R_PAREN => 31 | L_BRACKET => 32 | R_BRACKET => 33 | DOT => 34
  | COMMA => 35 | WHERE => 36 | GROUP => 37 | BY => 38 | HAVING => 39
  | ORDER => 40 | DESC => 41 | UNION => 42 | ALL => 43 | IN => 44
  | BETWEEN => 45 | AND => 46 | OR => 47 | NOT => 48 | IS => 49 | NULL => 50
  | EQ => 51 | NEQ => 52 | GT => 53 | GTE => 54 | LT => 55 | LTE => 56
  | DASH => 57 | PLUS => 58 | SLASH => 59 | CAST => 60 | CASE => 61
  | COUNT => 62 | WHEN => 63 | THEN => 64 | ELSE => 65 | END => 66
  | DISTINCT => 67 | STRING => 68 | NUMBER => 69 | OVER => 70
  | PARTITION => 71
  end%positive.

(** [==] on enum members. *)
Definition TokenType_eqb (a b : TokenType) : bool :=
  Pos.eqb (TokenType_code a) (TokenType_code b).

(** A token as the parser reads it: [token_type] and [text]; [line] and [col]
    are the source position. *)
Record Token := mkToken {
  token_type : TokenType;
  text : string;
  line : nat;
  col : nat
}.

(** ** Expression trees *)

(** The binary node classes handed to [_parse_tokens]. *)
Inductive BinaryOp :=
| And | Or | EQ_ | NEQ_ | Is | GT_ | GTE_ | LT_ | LTE_
| Minus | Plus | Slash | Star.

(** Modelled from the spec: the [token_type] class attribute of the binary
    node classes of [sqlglot/expressions.py], which is not part of the
    sources; the spec lists the operators [=], [<>], [>], [>=], [<], [<=],
    [-], [+], [/], [*] and the keywords AND, OR, IS for the thirteen classes. *)
Definition op_token_type (e : BinaryOp) : TokenType :=
  match e with
  | And => AND | Or => OR
  | EQ_ => EQ | NEQ_ => NEQ | Is => IS
  | GT_ => GT | GTE_ => GTE | LT_ => LT | LTE_ => LTE
  | Minus => DASH | Plus => PLUS | Slash => SLASH | Star => STAR
  end.

(** The function node classes with a single [this] argument. *)
Inductive Func1 :=
| Avg | Ceil | First | Floor | Last | LN | Max | Min | Sum | Rank | RowNumber.

(** A value of the tree: [None], a bare token, or a node built by a keyword
    constructor of [sqlglot.expressions].  Field names are the keywords. *)
Inductive Expr :=
| PyNone
| Tok (t : Token)
| Select (expressions : list Expr)
| From (this expression : Expr)
| Join (this expression side kind on : Expr)
| Where (this expression : Expr)
| Group (this : Expr) (expressions : list Expr)
| Having (this expression : Expr)
| Order (this : Expr) (expressions : list Expr) (desc : bool)
| Union (this expression : Expr) (distinct : bool)
| CTE (this : Expr) (expressions : list Expr)
| Table (this db : Expr)
| Alias (this to : Expr)
| Binary (op : BinaryOp) (this expression : Expr)
| Not (this : Expr)
| Neg (this : Expr)
| In (this : Expr) (expressions : list Expr)
| Between (this low high : Expr)
| Paren (this : Expr)
| Bracket (this : Expr) (expressions : list Expr)
| Column (this db table : Expr)
| Window (this : Expr) (partition : option (list Expr)) (order : Expr)
| Case (ifs : list Expr) (default : Expr)
| If (condition true : Expr) (false : option Expr)
| Cast (this to : Expr)
| Count (this : Expr) (distinct : bool)
| Func (f : Func1) (this : Expr)
| Coalesce (expressions : list Expr).

(** A token or [None], as a value of the tree. *)
Definition pyval (t : option Token) : Expr :=
  match t with Some t => Tok t | None => PyNone end.

(** ** Outcomes *)

(** Exceptions.  A [ValueError] carries the message as the code writes it and
    the value interpolated in an f-string, when there is one.  The
    RecursionError of the interpreter is not among them: see [OutOfFuel]. *)
Inductive Error :=
| ValueError (msg : string) (arg : option Expr)
| IndexError (msg : string)
| AttributeError (msg : string)
| KeyError (key : TokenType).

Inductive Res (A : Type) :=
| Ok (a : A)
| Raise (e : Error)
| OutOfFuel.
Arguments Ok {A} a.
Arguments Raise {A} e.
Arguments OutOfFuel {A}.

(** A production: it reads the chunk, moves the cursor. *)
Definition M (A : Type) : Type := list Token -> Z -> Res (A * Z).

Definition ret {A} (a : A) : M A := fun _ index => Ok (a, index).
Definition raise {A} (e : Error) : M A := fun _ _ => Raise e.
Definition out_of_fuel {A} : M A := fun _ _ => OutOfFuel.
Definition bind {A B} (c : M A) (k : A -> M B) : M B :=
  fun tokens index =>
    match c tokens index with
    | Ok (a, index') => k a tokens index'
    | Raise e => Raise e
    | OutOfFuel => OutOfFuel
    end.

Notation "'let*' x ':=' c 'in' k" := (bind c (fun x => k))
  (at level 10, x name, c at level 100, k at level 200).

(** ** The function registry *)

(** A builder: it may index its argument list out of range. *)
Abbreviation Builder := (list Expr -> Error + Expr)%type.

(** [args[i]] *)
Definition getitem (args : list Expr) (i : nat) : Error + Expr :=
  match args !! i with
  | Some a => inr a
  | None => inl (IndexError "list index out of range")
  end.

Definition build1 (f : Func1) : Builder :=
  fun args => match getitem args 0 with inr a => inr (Func f a) | inl e => inl e end.

Definition build_if : Builder :=
  fun args =>
    match getitem args 0 with
    | inl e => inl e
    | inr a0 =>
      match getitem args 1 with
      | inl e => inl e
      | inr a1 =>
        match getitem args 2 with
        | inl e => inl e
        | inr a2 => inr (If a0 a1 (Some a2))
        end
      end
    end.

Definition FUNCTIONS : gmap string Builder :=
  list_to_map
    [ ("AVG", build1 Avg);
      ("CEIL", build1 Ceil);
      ("COALESCE", (fun args => inr (Coalesce args)) : Builder);
      ("FIRST", build1 First);
      ("FLOOR", build1 Floor);
      ("LAST", build1 Last);
      ("IF", build_if);
      ("LN", build1 LN);
      ("MAX", build1 Max);
      ("MIN", build1 Min);
      ("SUM", build1 Sum);
      ("RANK", build1 Rank);
      ("ROW_NUMBER", build1 RowNumber) ].

Definition TYPE_TOKENS : list TokenType :=
  [BOOLEAN; TINYINT; SMALLINT; INT; BIGINT; FLOAT; DOUBLE; DECIMAL;
   CHAR; VARCHAR; TEXT; BINARY; JSON].

Definition COLUMN_TOKENS : list TokenType := [VAR; IDENTIFIER; STAR].

(** [str.upper] on a text of ASCII characters: the letters a to z are
    mapped and every other character is kept.  On other texts Python maps
    further letters; the statements that depend on the mapping are about
    names for which [ascii_text] holds. *)
Definition upper_ascii (c : ascii) : ascii :=
  let n := nat_of_ascii c in
  if (97 <=? n)%nat && (n <=? 122)%nat then ascii_of_nat (n - 32) else c.

Fixpoint upper (s : string) : string :=
  match s with
  | EmptyString => EmptyString
  | String c s' => String (upper_ascii c) (upper s')
  end.

(** The text is made of ASCII characters. *)
Definition ascii_text (s : string) : bool :=
  forallb (fun c => Nat.ltb (nat_of_ascii c) 128) (list_ascii_of_string s).

(** ** The cursor *)

(** [self._tokens[index]] with Python's negative indices; [None] out of range. *)
Definition _safe_get (tokens : list Token) (index : Z) : option Token :=
  if (0 <=? index)%Z then tokens !! Z.to_nat index
  else if (- Z.of_nat (length tokens) <=? index)%Z
       then tokens !! Z.to_nat (Z.of_nat (length tokens) + index)
       else None.

Definition _advance : M unit := fun _ index => Ok (tt, (index + 1)%Z).
Definition _prev : M (option Token) :=
  fun tokens index => Ok (_safe_get tokens (index - 1), index).
Definition _curr : M (option Token) :=
  fun tokens index => Ok (_safe_get tokens index, index).
Definition _next : M (option Token) :=
  fun tokens index => Ok (_safe_get tokens (index + 1), index).

(** The [for token_type in types] loop of [_match]. *)
Fixpoint _match_types (curr : Token) (types : list TokenType) : M bool :=
  match types with
  | [] => ret false
  | ty :: types =>
    if TokenType_eqb (token_type curr) ty
    then let* _ := _advance in ret true
    else _match_types curr types
  end.

(** [if not self._curr] tests for [None]: a token is a truthy object. *)
Definition _match (types : list TokenType) : M bool :=
  let* curr := _curr in
  match curr with
  | None => ret false
  | Some curr => _match_types curr types
  end.

(** The loop [while self._match(types...): s = body(s)]. *)
Fixpoint while_match {St : Type} (fuel : nat) (types : list TokenType)
    (body : St -> M St) (s : St) : M St :=
  match fuel with
  | O => out_of_fuel
  | S fuel =>
    let* m := _match types in
    if m then let* s := body s in while_match fuel types body s
    else ret s
  end.

Definition _parse_csv (fuel : nat) (parse : M Expr) : M (list Expr) :=
  let* first := parse in
  while_match fuel [COMMA]
    (fun items => let* item := parse in ret (items ++ [item])) [first].

(** A dict keyed by token type: a later entry for a key replaces the value. *)
Fixpoint dict_set (k : TokenType) (v : BinaryOp) (d : list (TokenType * BinaryOp))
    : list (TokenType * BinaryOp) :=
  match d with
  | [] => [(k, v)]
  | (k', v') :: d' =>
    if TokenType_eqb k k' then (k, v) :: d' else (k', v') :: dict_set k v d'
  end.

Fixpoint dict_get (d : list (TokenType * BinaryOp)) (k : TokenType) : option BinaryOp :=
  match d with
  | [] => None
  | (k', v') :: d' => if TokenType_eqb k k' then Some v' else dict_get d' k
  end.

(** [{expression.token_type: expression for expression in expressions}] *)
Definition by_token_type (expressions : list BinaryOp) : list (TokenType * BinaryOp) :=
  fold_left (fun d e => dict_set (op_token_type e) e d) expressions [].

Definition _parse_tokens (fuel : nat) (parse : M Expr) (expressions : list BinaryOp)
    : M Expr :=
  let* this := parse in
  let expressions := by_token_type expressions in
  while_match fuel (map fst expressions)
    (fun this =>
       let* prev := _prev in
       match prev with
       | None => raise (AttributeError "token_type")
       | Some prev =>
         match dict_get expressions (token_type prev) with
         | None => raise (KeyError (token_type prev))
         | Some e => let* expression := parse in ret (Binary e this expression)
         end
       end)
    this.

Definition _parse_alias (this : Expr) : M Expr :=
  let* _ := _match [ALIAS] in
  let* m := _match [IDENTIFIER; VAR] in
  if m then let* to := _prev in ret (Alias this (pyval to))
  else ret this.

(** The outcome of a builder, as a production. *)
Definition lift {A} (r : Error + A) : M A :=
  match r with
  | inl e => raise e
  | inr a => ret a
  end.

(** ** The productions *)

(** [self]: the registry, the call depth left, and the bound methods the
    productions call at that depth. *)
Record Parser := mkParser {
  functions : gmap string Builder;
  depth : nat;
  parse_statement : M Expr;
  parse_cte : M Expr;
  parse_select : M Expr;
  parse_from : Expr -> M Expr;
  parse_join : Expr -> M Expr;
  parse_table : M Expr;
  parse_where : Expr -> M Expr;
  parse_group : Expr -> M Expr;
  parse_having : Expr -> M Expr;
  parse_order : Expr -> M Expr;
  parse_union : Expr -> M Expr;
  parse_expression : M Expr;
  parse_conjunction : M Expr;
  parse_equality : M Expr;
  parse_comparison : M Expr;
  parse_range : M Expr;
  parse_term : M Expr;
  parse_factor : M Expr;
  parse_unary : M Expr;
  parse_special : M Expr;
  parse_case : M Expr;
  parse_count : M Expr;
  parse_cast : M Expr;
  parse_primary : M Expr;
  parse_column : M Expr;
  parse_brackets : Expr -> M Expr;
  parse_window : Expr -> M Expr
}.

Definition _parse_statement (self : Parser) : M Expr :=
  let* m := _match [WITH] in
  if negb m then parse_select self
  else
    let* expressions := _parse_csv (depth self) (parse_cte self) in
    let* this := parse_select self in
    ret (CTE this expressions).

Definition _parse_cte (self : Parser) : M Expr :=
  let* m := _match [IDENTIFIER; VAR] in
  if negb m then raise (ValueError "Expected alias after WITH" None)
  else
    let* alias := _prev in
    let* m := _match [ALIAS] in
    if negb m then raise (ValueError "Expected AS after WITH" None)
    else
      let* this := parse_table self in
      ret (Alias this (pyval alias)).

Definition _parse_select (self : Parser) : M Expr :=
  let* m := _match [SELECT] in
  if negb m then ret PyNone
  else
    let* expressions := _parse_csv (depth self) (parse_expression self) in
    let this := Select expressions in
    let* this := parse_from self this in
    let* this := parse_join self this in
    let* this := parse_where self this in
    let* this := parse_group self this in
    let* this := parse_having self this in
    let* this := parse_order self this in
    let* this := parse_union self this in
    ret this.

Definition _parse_from (self : Parser) (this : Expr) : M Expr :=
  let* m := _match [FROM] in
  if negb m then ret this
  else
    let* table := parse_table self in
    ret (From table this).

Definition _parse_join (self : Parser) (this : Expr) : M Expr :=
  let* m := _match [LEFT; RIGHT; FULL] in
  let* side := (if m then _prev else ret None) in
  let* m := _match [INNER; OUTER; CROSS] in
  let* kind := (if m then _prev else ret None) in
  let* m := _match [JOIN] in
  if m then
    let* expression := parse_table self in
    let* m := _match [ON] in
    let* on := (if m then parse_expression self else ret PyNone) in
    parse_join self (Join expression this (pyval side) (pyval kind) on)
  else ret this.

Definition _parse_table (self : Parser) : M Expr :=
  let* m := _match [L_PAREN] in
  let* expression :=
    (if m then
       let* nested := parse_select self in
       let* m := _match [R_PAREN] in
       if negb m then raise (ValueError "Expecting )" None)
       else ret nested
     else
       let* m := _match [VAR; IDENTIFIER] in
       let* table := (if m then _prev else ret None) in
       let* m := _match [DOT] in
       if m then
         let db := table in
         let* m := _match [VAR; IDENTIFIER] in
         if negb m then raise (ValueError "Expected table name" None)
         else
           let* table := _prev in
           ret (Table (pyval table) (pyval db))
       else ret (Table (pyval table) PyNone)) in
  _parse_alias expression.

Definition _parse_where (self : Parser) (this : Expr) : M Expr :=
  let* m := _match [WHERE] in
  if negb m then ret this
  else
    let* expression := parse_conjunction self in
    ret (Where this expression).

Definition _parse_group (self : Parser) (this : Expr) : M Expr :=
  let* m := _match [GROUP] in
  if negb m then ret this
  else
    let* m := _match [BY] in
    if negb m then raise (ValueError "Expecting BY" None)
    else
      let* expressions := _parse_csv (depth self) (parse_primary self) in
      ret (Group this expressions).

Definition _parse_having (self : Parser) (this : Expr) : M Expr :=
  let* m := _match [HAVING] in
  if negb m then ret this
  else
    let* expression := parse_conjunction self in
    ret (Having this expression).

Definition _parse_order (self : Parser) (this : Expr) : M Expr :=
  let* m := _match [ORDER] in
  if negb m then ret this
  else
    let* m := _match [BY] in
    if negb m then raise (ValueError "Expecting BY" None)
    else
      let* expressions := _parse_csv (depth self) (parse_primary self) in
      let* desc := _match [DESC] in
      ret (Order this expressions desc).

Definition _parse_union (self : Parser) (this : Expr) : M Expr :=
  let* m := _match [UNION] in
  if negb m then ret this
  else
    let* m := _match [ALL] in
    let distinct := negb m in
    let* expression := parse_select self in
    ret (Union this expression distinct).

Definition _parse_expression (self : Parser) : M Expr :=
  let* this := parse_conjunction self in
  let* this := parse_window self this in
  _parse_alias this.

Definition _parse_conjunction (self : Parser) : M Expr :=
  _parse_tokens (depth self) (parse_equality self) [And; Or].

Definition _parse_equality (self : Parser) : M Expr :=
  _parse_tokens (depth self) (parse_comparison self) [EQ_; NEQ_; Is].

Definition _parse_comparison (self : Parser) : M Expr :=
  _parse_tokens (depth self) (parse_range self) [GT_; GTE_; LT_; LTE_].

Definition _parse_range (self : Parser) : M Expr :=
  let* this := parse_term self in
  let* m := _match [IN] in
  if m then
    let* m := _match [L_PAREN] in
    if negb m then raise (ValueError "Expected ( after IN" None)
    else
      let* expressions := _parse_csv (depth self) (parse_primary self) in
      let* m := _match [R_PAREN] in
      if negb m then raise (ValueError "Expected ) after IN" None)
      else ret (In this expressions)
  else
    let* m := _match [BETWEEN] in
    if m then
      let* low := parse_primary self in
      let* _ := _match [AND] in
      let* high := parse_primary self in
      ret (Between this low high)
    else ret this.

Definition _parse_term (self : Parser) : M Expr :=
  _parse_tokens (depth self) (parse_factor self) [Minus; Plus].

Definition _parse_factor (self : Parser) : M Expr :=
  _parse_tokens (depth self) (parse_unary self) [Slash; Star].

Definition _parse_unary (self : Parser) : M Expr :=
  let* m := _match [NOT] in
  if m then let* this := parse_unary self in ret (Not this)
  else
    let* m := _match [DASH] in
    if m then let* this := parse_unary self in ret (Neg this)
    else parse_special self.

Definition _parse_special (self : Parser) : M Expr :=
  let* m := _match [CAST] in
  if m then parse_cast self
  else
    let* m := _match [CASE] in
    if m then parse_case self
    else
      let* m := _match [COUNT] in
      if m then parse_count self
      else parse_primary self.

Definition _parse_case (self : Parser) : M Expr :=
  let* ifs :=
    while_match (depth self) [WHEN]
      (fun ifs =>
         let* condition := parse_expression self in
         let* _ := _match [THEN] in
         let* then_ := parse_expression self in
         ret (ifs ++ [If condition then_ None]))
      [] in
  let* m := _match [ELSE] in
  let* default := (if m then parse_expression self else ret PyNone) in
  let* m := _match [END] in
  if negb m then raise (ValueError "Expected END after CASE" None)
  else ret (Case ifs default).

Definition _parse_count (self : Parser) : M Expr :=
  let* m := _match [L_PAREN] in
  if negb m then raise (ValueError "Expected ( after COUNT" None)
  else
    let* distinct := _match [DISTINCT] in
    let* this := parse_conjunction self in
    let* m := _match [R_PAREN] in
    if negb m then raise (ValueError "Expected ) after COUNT" None)
    else ret (Count this distinct).

Definition _parse_cast (self : Parser) : M Expr :=
  let* m := _match [L_PAREN] in
  if negb m then raise (ValueError "Expected ( after CAST" None)
  else
    let* this := parse_conjunction self in
    let* m := _match [ALIAS] in
    if negb m then raise (ValueError "Expected AS after CAST" None)
    else
      let* m := _match TYPE_TOKENS in
      if negb m then raise (ValueError "Expected type after CAST" None)
      else
        let* to := _prev in
        let* m := _match [R_PAREN] in
        if negb m then raise (ValueError "Expected ) after CAST" None)
        else ret (Cast this (pyval to)).

Definition _parse_primary (self : Parser) : M Expr :=
  let* m := _match [STRING; NUMBER; STAR; NULL] in
  if m then let* prev := _prev in ret (pyval prev)
  else
    let* m := _match [L_PAREN] in
    if m then
      let* this := parse_expression self in
      let* m := _match [R_PAREN] in
      if negb m then raise (ValueError "Expecting )" None)
      else ret (Paren this)
    else parse_column self.

Definition _parse_column (self : Parser) : M Expr :=
  let* m := _match [VAR; IDENTIFIER] in
  if negb m then ret PyNone
  else
    let* this := _prev in
    let* m := _match [L_PAREN] in
    if m then
      match this with
      | None => raise (AttributeError "token_type")
      | Some this_token =>
        if TokenType_eqb (token_type this_token) IDENTIFIER
        then raise (ValueError "Unexpected (" None)
        else
          match functions self !! upper (text this_token) with
          | None =>
            raise (ValueError "Unrecognized function name {this}" (Some (pyval this)))
          | Some function =>
            let* args := _parse_csv (depth self) (parse_expression self) in
            let* function := lift (function args) in
            let* m := _match [R_PAREN] in
            if negb m
            then raise (ValueError "Expected ) after function {this}" (Some (pyval this)))
            else ret function
          end
      end
    else
      let* m := _match [DOT] in
      if m then
        let table := this in
        let* m := _match COLUMN_TOKENS in
        if negb m then raise (ValueError "Expected column name" None)
        else
          let* this := _prev in
          let* m := _match [DOT] in
          if m then
            let db := table in
            let table := this in
            let* m := _match COLUMN_TOKENS in
            if negb m then raise (ValueError "Expected column name" None)
            else
              let* this := _prev in
              parse_brackets self (Column (pyval this) (pyval db) (pyval table))
          else parse_brackets self (Column (pyval this) PyNone (pyval table))
      else parse_brackets self (Column (pyval this) PyNone PyNone).

Definition _parse_brackets (self : Parser) (this : Expr) : M Expr :=
  let* m := _match [L_BRACKET] in
  if negb m then ret this
  else
    let* expressions := _parse_csv (depth self) (parse_primary self) in
    let bracket := Bracket this expressions in
    let* m := _match [R_BRACKET] in
    if negb m then raise (ValueError "Expected ] after {this}[" (Some this))
    else ret bracket.

Definition _parse_window (self : Parser) (this : Expr) : M Expr :=
  let* m := _match [OVER] in
  if negb m then ret this
  else
    let* m := _match [L_PAREN] in
    if negb m then raise (ValueError "Expecting ( after OVER" None)
    else
      let* m := _match [PARTITION] in
      let* partition :=
        (if m then
           let* m := _match [BY] in
           if negb m then raise (ValueError "Expecting BY after PARTITION" None)
           else
             let* l := _parse_csv (depth self) (parse_primary self) in
             ret (Some l)
         else ret None) in
      let* order := parse_order self PyNone in
      let* m := _match [R_PAREN] in
      if negb m then raise (ValueError "Expecting )" None)
      else ret (Window this partition order).

(** The parser at a call depth: each bound method runs its production one
    level deeper, and none runs at depth [0]. *)
Fixpoint parser_at (fns : gmap string Builder) (fuel : nat) : Parser :=
  match fuel with
  | O =>
    {| functions := fns; depth := O;
       parse_statement := out_of_fuel;
       parse_cte := out_of_fuel;
       parse_select := out_of_fuel;
       parse_from := (fun _ => out_of_fuel);
       parse_join := (fun _ => out_of_fuel);
       parse_table := out_of_fuel;
       parse_where := (fun _ => out_of_fuel);
       parse_group := (fun _ => out_of_fuel);
       parse_having := (fun _ => out_of_fuel);
       parse_order := (fun _ => out_of_fuel);
       parse_union := (fun _ => out_of_fuel);
       parse_expression := out_of_fuel;
       parse_conjunction := out_of_fuel;
       parse_equality := out_of_fuel;
       parse_comparison := out_of_fuel;
       parse_range := out_of_fuel;
       parse_term := out_of_fuel;
       parse_factor := out_of_fuel;
       parse_unary := out_of_fuel;
       parse_special := out_of_fuel;
       parse_case := out_of_fuel;
       parse_count := out_of_fuel;
       parse_cast := out_of_fuel;
       parse_primary := out_of_fuel;
       parse_column := out_of_fuel;
       parse_brackets := (fun _ => out_of_fuel);
       parse_window := (fun _ => out_of_fuel) |}
  | S fuel =>
    let self := parser_at fns fuel in
    {| functions := fns; depth := S fuel;
       parse_statement := _parse_statement self;
       parse_cte := _parse_cte self;
       parse_select := _parse_select self;
       parse_from := _parse_from self;
       parse_join := _parse_join self;
       parse_table := _parse_table self;
       parse_where := _parse_where self;
       parse_group := _parse_group self;
       parse_having := _parse_having self;
       parse_order := _parse_order self;
       parse_union := _parse_union self;
       parse_expression := _parse_expression self;
       parse_conjunction := _parse_conjunction self;
       parse_equality := _parse_equality self;
       parse_comparison := _parse_comparison self;
       parse_range := _parse_range self;
       parse_term := _parse_term self;
       parse_factor := _parse_factor self;
       parse_unary := _parse_unary self;
       parse_special := _parse_special self;
       parse_case := _parse_case self;
       parse_count := _parse_count self;
       parse_cast := _parse_cast self;
       parse_primary := _parse_primary self;
       parse_column := _parse_column self;
       parse_brackets := _parse_brackets self;
       parse_window := _parse_window self |}
  end.

(** ** The entry point *)

(** [self._chunks[-1].append(token)] *)
Definition append_last (chunks : list (list Token)) (token : Token) : list (list Token) :=
  alter (fun chunk => chunk ++ [token]) (length chunks - 1) chunks.

(** One turn of the first loop of [parse]. *)
Definition split_token (chunks : list (list Token)) (token : Token) : list (list Token) :=
  let chunks :=
    if TokenType_eqb (token_type token) SEMICOLON then chunks ++ [[]]
    else chunks in
  append_last chunks token.

(** The first loop of [parse], from [self._chunks = [[]]]. *)
Definition split_chunks (raw_tokens : list Token) : list (list Token) :=
  fold_left split_token raw_tokens [[]].

(** The second loop of [parse]: the cursor starts at [-1 + 1]. *)
Fixpoint parse_chunks (self : Parser) (chunks : list (list Token))
    (expressions : list Expr) : Res (list Expr) :=
  match chunks with
  | [] => Ok expressions
  | tokens :: chunks =>
    match parse_statement self tokens (-1 + 1)%Z with
    | Ok (e, index) =>
      if (index <? Z.of_nat (length tokens))%Z
      then Raise (ValueError "Invalid expression {self._curr}"
                    (Some (pyval (_safe_get tokens index))))
      else parse_chunks self chunks (expressions ++ [e])
    | Raise e => Raise e
    | OutOfFuel => OutOfFuel
    end
  end.

(** [Parser(functions=opts).parse(raw_tokens)]: caller entries are laid over
    the built-in table. *)
Definition parse (opts : gmap string Builder) (fuel : nat)
    (raw_tokens : list Token) : Res (list Expr) :=
  parse_chunks (parser_at (opts ∪ FUNCTIONS) fuel) (split_chunks raw_tokens) [].

(** ** Sample inputs *)

Definition tk (ty : TokenType) (s : string) : Token := mkToken ty s 1 0.
Definition var (s : string) : Token := tk VAR s.
Definition col_ (s : string) : Expr := Column (Tok (var s)) PyNone PyNone.
Definition tbl (s : string) : Expr := Table (Tok (var s)) PyNone.

(** ** Notions the statements use *)

(** *** Outcomes and progress *)

(** The outcome of [c] at a cursor is acceptable: a result that satisfies [Q],
    or an exception; [tolerant] is whether an exhausted call depth is
    acceptable too. *)
Definition runs {A} (tolerant : Prop) (tokens : list Token) (c : M A) (index : Z)
    (Q : A -> Z -> Prop) : Prop :=
  match c tokens index with
  | Ok (a, index') => Q a index'
  | Raise _ => True
  | OutOfFuel => tolerant
  end.

(** Number of tokens to the right of the cursor. *)
Definition remaining (tokens : list Token) (index : Z) : nat :=
  Z.to_nat (Z.of_nat (length tokens) - index).

(** The cursor moved right, and not past the end of the chunk. *)
Definition advanced (tokens : list Token) (index index' : Z) : Prop :=
  (index <= index' <= Z.max index (Z.of_nat (length tokens)))%Z.

(** A call depth that suffices at a cursor: sixteen levels for each token to
    the right of it, and [rank] more for the calls a production makes before
    it consumes a token. *)
Definition deep_enough (tolerant : Prop) (tokens : list Token) (fuel : nat) (index : Z)
    (rank : nat) : Prop :=
  tolerant \/ 16 * remaining tokens index + rank <= fuel.

(** At a sufficient depth [p] runs acceptably and the cursor only moves
    right, within the chunk. *)
Definition safe (tolerant : Prop) (tokens : list Token) (rank : nat) (fuel : nat)
    (p : M Expr) : Prop :=
  forall index,
    deep_enough tolerant tokens fuel index rank ->
    runs tolerant tokens p index (fun _ index' => advanced tokens index index').

(** The same, for a production that takes the accumulated node. *)
Definition safe1 (tolerant : Prop) (tokens : list Token) (rank : nat) (fuel : nat)
    (p : Expr -> M Expr) : Prop :=
  forall this, safe tolerant tokens rank fuel (p this).

(** The bound methods of a parser are safe at its depth. *)
Record Good (tolerant : Prop) (tokens : list Token) (self : Parser) : Prop := {
  good_statement : safe tolerant tokens 2 (depth self) (parse_statement self);
  good_cte : safe tolerant tokens 1 (depth self) (parse_cte self);
  good_select : safe tolerant tokens 1 (depth self) (parse_select self);
  good_from : safe1 tolerant tokens 1 (depth self) (parse_from self);
  good_join : safe1 tolerant tokens 1 (depth self) (parse_join self);
  good_table : safe tolerant tokens 1 (depth self) (parse_table self);
  good_where : safe1 tolerant tokens 1 (depth self) (parse_where self);
  good_group : safe1 tolerant tokens 1 (depth self) (parse_group self);
  good_having : safe1 tolerant tokens 1 (depth self) (parse_having self);
  good_order : safe1 tolerant tokens 1 (depth self) (parse_order self);
  good_union : safe1 tolerant tokens 1 (depth self) (parse_union self);
  good_expression : safe tolerant tokens 11 (depth self) (parse_expression self);
  good_conjunction : safe tolerant tokens 10 (depth self) (parse_conjunction self);
  good_equality : safe tolerant tokens 9 (depth self) (parse_equality self);
  good_comparison : safe tolerant tokens 8 (depth self) (parse_comparison self);
  good_range : safe tolerant tokens 7 (depth self) (parse_range self);
  good_term : safe tolerant tokens 6 (depth self) (parse_term self);
  good_factor : safe tolerant tokens 5 (depth self) (parse_factor self);
  good_unary : safe tolerant tokens 4 (depth self) (parse_unary self);
  good_special : safe tolerant tokens 3 (depth self) (parse_special self);
  good_case : safe tolerant tokens 2 (depth self) (parse_case self);
  good_count : safe tolerant tokens 1 (depth self) (parse_count self);
  good_cast : safe tolerant tokens 1 (depth self) (parse_cast self);
  good_primary : safe tolerant tokens 2 (depth self) (parse_primary self);
  good_column : safe tolerant tokens 1 (depth self) (parse_column self);
  good_brackets : safe1 tolerant tokens 1 (depth self) (parse_brackets self);
  good_window : safe1 tolerant tokens 1 (depth self) (parse_window self)
}.

(** *** Approximation by depth *)

(** [c'] answers as [c] does wherever [c] answers. *)
Definition refines {A} (c c' : M A) : Prop :=
  forall tokens index, c tokens index = OutOfFuel \/ c tokens index = c' tokens index.

(** [self'] is [self] with more depth. *)
Record Below (self self' : Parser) : Prop := {
  below_functions : functions self = functions self';
  below_depth : depth self <= depth self';
  below_statement : refines (parse_statement self) (parse_statement self');
  below_cte : refines (parse_cte self) (parse_cte self');
  below_select : refines (parse_select self) (parse_select self');
  below_from : forall this, refines (parse_from self this) (parse_from self' this);
  below_join : forall this, refines (parse_join self this) (parse_join self' this);
  below_table : refines (parse_table self) (parse_table self');
  below_where : forall this, refines (parse_where self this) (parse_where self' this);
  below_group : forall this, refines (parse_group self this) (parse_group self' this);
  below_having : forall this, refines (parse_having self this) (parse_having self' this);
  below_order : forall this, refines (parse_order self this) (parse_order self' this);
  below_union : forall this, refines (parse_union self this) (parse_union self' this);
  below_expression : refines (parse_expression self) (parse_expression self');
  below_conjunction : refines (parse_conjunction self) (parse_conjunction self');
  below_equality : refines (parse_equality self) (parse_equality self');
  below_comparison : refines (parse_comparison self) (parse_comparison self');
  below_range : refines (parse_range self) (parse_range self');
  below_term : refines (parse_term self) (parse_term self');
  below_factor : refines (parse_factor self) (parse_factor self');
  below_unary : refines (parse_unary self) (parse_unary self');
  below_special : refines (parse_special self) (parse_special self');
  below_case : refines (parse_case self) (parse_case self');
  below_count : refines (parse_count self) (parse_count self');
  below_cast : refines (parse_cast self) (parse_cast self');
  below_primary : refines (parse_primary self) (parse_primary self');
  below_column : refines (parse_column self) (parse_column self');
  below_brackets : forall this, refines (parse_brackets self this) (parse_brackets self' this);
  below_window : forall this, refines (parse_window self this) (parse_window self' this)
}.

(** *** Chunks and cursors *)

(** The test of the first loop of [parse]. *)
Definition is_semicolon (t : Token) : bool := TokenType_eqb (token_type t) SEMICOLON.

(** A chunk that begins with a terminator. *)
Definition semicolon_headed (chunk : list Token) : Prop :=
  exists t rest, chunk = t :: rest /\ token_type t = SEMICOLON.

(** *** The productions, by name *)

Inductive Production :=
| P_statement
| P_cte
| P_select
| P_from
| P_join
| P_table
| P_where
| P_group
| P_having
| P_order
| P_union
| P_expression
| P_conjunction
| P_equality
| P_comparison
| P_range
| P_term
| P_factor
| P_unary
| P_special
| P_case
| P_count
| P_cast
| P_primary
| P_column
| P_brackets
| P_window.

(** The bound method of a production; [this] is ignored by the productions
    that take no accumulated node. *)
Definition method (self : Parser) (p : Production) (this : Expr) : M Expr :=
  match p with
  | P_statement => parse_statement self
  | P_cte => parse_cte self
  | P_select => parse_select self
  | P_from => parse_from self this
  | P_join => parse_join self this
  | P_table => parse_table self
  | P_where => parse_where self this
  | P_group => parse_group self this
  | P_having => parse_having self this
  | P_order => parse_order self this
  | P_union => parse_union self this
  | P_expression => parse_expression self
  | P_conjunction => parse_conjunction self
  | P_equality => parse_equality self
  | P_comparison => parse_comparison self
  | P_range => parse_range self
  | P_term => parse_term self
  | P_factor => parse_factor self
  | P_unary => parse_unary self
  | P_special => parse_special self
  | P_case => parse_case self
  | P_count => parse_count self
  | P_cast => parse_cast self
  | P_primary => parse_primary self
  | P_column => parse_column self
  | P_brackets => parse_brackets self this
  | P_window => parse_window self this
  end.

(** Calls a production makes before it consumes a token, itself included. *)
Definition rank (p : Production) : nat :=
  match p with
  | P_statement => 2
  | P_cte => 1
  | P_select => 1
  | P_from => 1
  | P_join => 1
  | P_table => 1
  | P_where => 1
  | P_group => 1
  | P_having => 1
  | P_order => 1
  | P_union => 1
  | P_expression => 11
  | P_conjunction => 10
  | P_equality => 9
  | P_comparison => 8
  | P_range => 7
  | P_term => 6
  | P_factor => 5
  | P_unary => 4
  | P_special => 3
  | P_case => 2
  | P_count => 1
  | P_cast => 1
  | P_primary => 2
  | P_column => 1
  | P_brackets => 1
  | P_window => 1
  end.

(** The current token has one of [types]. *)
Definition at_cursor (tokens : list Token) (index : Z) (types : list TokenType) : Prop :=
  exists t, _safe_get tokens index = Some t /\ token_type t ∈ types.

(** No token is under the cursor, or one of another type. *)
Definition absent (tokens : list Token) (index : Z) (types : list TokenType) : Prop :=
  ~ at_cursor tokens index types.

(** *** Operator chains *)

#[global] Instance BinaryOp_eq_dec : EqDecision BinaryOp.
Proof. solve_decision. Defined.

(** The operators and right operands that follow a first operand: at each
    step an operator of the tier is under the cursor and [parse] reads the
    operand after it; the chain ends where no operator of the tier stands. *)
Inductive Chain (parse : M Expr) (expressions : list BinaryOp) (tokens : list Token)
    : Z -> list (BinaryOp * Expr) -> Z -> Prop :=
| Chain_end index :
    ~ at_cursor tokens index (map op_token_type expressions) ->
    Chain parse expressions tokens index [] index
| Chain_step index t e rhs index1 steps index2 :
    _safe_get tokens index = Some t ->
    e ∈ expressions ->
    token_type t = op_token_type e ->
    parse tokens (index + 1)%Z = Ok (rhs, index1) ->
    Chain parse expressions tokens index1 steps index2 ->
    Chain parse expressions tokens index ((e, rhs) :: steps) index2.

(** The tree of a chain: each operator takes all that was read before it as
    its left operand. *)
Definition left_nested (first : Expr) (steps : list (BinaryOp * Expr)) : Expr :=
  fold_left (fun this step => Binary (fst step) this (snd step)) steps first.

(** *** Sample statements *)

Definition select_a : list Token := [tk SELECT "SELECT"; var "a"].

Definition select_a_paren : list Token := select_a ++ [tk R_PAREN ")"].
Definition select_a_group : list Token := select_a ++ [tk GROUP "GROUP"].

Definition select_a_semicolon_select_b : list Token :=
  select_a ++ [tk SEMICOLON ";"; tk SELECT "SELECT"; var "b"].

Definition select_a_from_t : list Token :=
  select_a ++ [tk FROM "FROM"; var "t"].

(** [SELECT a op1 b op2 c] *)
Definition binary_chain (a : string) (op1 : TokenType) (b : string) (op2 : TokenType)
    (c : string) : list Token :=
  [tk SELECT "SELECT"; var a; tk op1 "op"; var b; tk op2 "op"; var c].

Definition from_a_join_b_join_c : list Token :=
  [tk SELECT "SELECT"; var "x"; tk FROM "FROM"; var "a";
   tk JOIN "JOIN"; var "b"; tk JOIN "JOIN"; var "c"].

(** [SELECT name(arg)] *)
Definition call_of (name : Token) (arg : string) : list Token :=
  [tk SELECT "SELECT"; name; tk L_PAREN "("; var arg; tk R_PAREN ")"].

(** [SELECT CAST(x AS ty)] *)
Definition cast_to (ty : Token) : list Token :=
  [tk SELECT "SELECT"; tk CAST "CAST"; tk L_PAREN "("; var "x"; tk ALIAS "AS"; ty;
   tk R_PAREN ")"].

(** [SELECT CAST( AS ty)]: a cast without an operand *)
Definition cast_nothing_to (ty : Token) : list Token :=
  [tk SELECT "SELECT"; tk CAST "CAST"; tk L_PAREN "("; tk ALIAS "AS"; ty; tk R_PAREN ")"].

(** [SELECT name()] *)
Definition empty_call (name : string) : list Token :=
  [tk SELECT "SELECT"; var name; tk L_PAREN "("; tk R_PAREN ")"].

(** *** The clauses of a SELECT *)

Inductive Clause :=
| C_from | C_join | C_where | C_group | C_having | C_order | C_union.

#[global] Instance Clause_eq_dec : EqDecision Clause.
Proof. solve_decision. Defined.







(** The keywords that introduce a clause; for JOIN, a side or a kind may
    come first. *)
Definition keywords (c : Clause) : list TokenType :=
  match c with
  | C_from => [FROM]
  | C_join => [LEFT; RIGHT; FULL; INNER; OUTER; CROSS; JOIN]
  | C_where => [WHERE]
  | C_group => [GROUP]
  | C_having => [HAVING]
  | C_order => [ORDER]
  | C_union => [UNION]
  end.

(** The stages of [_parse_select], in the order it runs them. *)
Definition pipeline : list Clause :=
  [C_from; C_join; C_where; C_group; C_having; C_order; C_union].

(** The production of a stage. *)
Definition stage_body (self : Parser) (c : Clause) : Expr -> M Expr :=
  match c with
  | C_from => _parse_from self
  | C_join => _parse_join self
  | C_where => _parse_where self
  | C_group => _parse_group self
  | C_having => _parse_having self
  | C_order => _parse_order self
  | C_union => _parse_union self
  end.

(** The bound method of a stage, as [_parse_select] calls it. *)
Definition stage_method (self : Parser) (c : Clause) : Expr -> M Expr :=
  match c with
  | C_from => parse_from self
  | C_join => parse_join self
  | C_where => parse_where self
  | C_group => parse_group self
  | C_having => parse_having self
  | C_order => parse_order self
  | C_union => parse_union self
  end.

(** The stages [cs] of [_parse_select], one after the other. *)
Fixpoint run_stages (self : Parser) (cs : list Clause) (this : Expr) : M Expr :=
  match cs with
  | [] => ret this
  | c :: cs' => let* this := stage_method self c this in run_stages self cs' this
  end.

(** A clause is written at the cursor: its keyword is under the cursor and
    what follows is read by the productions the stage calls.  The clause
    turns the node [this] into the node of the clause over it.  A JOIN clause
    may begin with a side and a kind and end with an ON condition, and the
    JOINs that follow it belong to it. *)
Inductive ClauseAt (self : Parser) (tokens : list Token)
  : Clause -> Expr -> Z -> Expr -> Z -> Prop :=
| from_at this index table index1 :
    at_cursor tokens index [FROM] ->
    parse_table self tokens (index + 1)%Z = Ok (table, index1) ->
    ClauseAt self tokens C_from this index (From table this) index1
| join_at this index side index1 kind index2 table index3 on_ index4 on index5 e index6 :
    _match [LEFT; RIGHT; FULL] tokens index = Ok (side, index1) ->
    _match [INNER; OUTER; CROSS] tokens index1 = Ok (kind, index2) ->
    at_cursor tokens index2 [JOIN] ->
    parse_table self tokens (index2 + 1)%Z = Ok (table, index3) ->
    _match [ON] tokens index3 = Ok (on_, index4) ->
    (if on_ then parse_expression self else ret PyNone) tokens index4 = Ok (on, index5) ->
    parse_join self
      (Join table this
         (pyval (if side then _safe_get tokens (index1 - 1)%Z else None))
         (pyval (if kind then _safe_get tokens (index2 - 1)%Z else None)) on)
      tokens index5
    = Ok (e, index6) ->
    ClauseAt self tokens C_join this index e index6
| where_at this index expression index1 :
    at_cursor tokens index [WHERE] ->
    parse_conjunction self tokens (index + 1)%Z = Ok (expression, index1) ->
    ClauseAt self tokens C_where this index (Where this expression) index1
| group_at this index expressions index1 :
    at_cursor tokens index [GROUP] ->
    at_cursor tokens (index + 1)%Z [BY] ->
    _parse_csv (depth self) (parse_primary self) tokens (index + 1 + 1)%Z
    = Ok (expressions, index1) ->
    ClauseAt self tokens C_group this index (Group this expressions) index1
| having_at this index expression index1 :
    at_cursor tokens index [HAVING] ->
    parse_conjunction self tokens (index + 1)%Z = Ok (expression, index1) ->
    ClauseAt self tokens C_having this index (Having this expression) index1
| order_at this index expressions index1 desc index2 :
    at_cursor tokens index [ORDER] ->
    at_cursor tokens (index + 1)%Z [BY] ->
    _parse_csv (depth self) (parse_primary self) tokens (index + 1 + 1)%Z
    = Ok (expressions, index1) ->
    _match [DESC] tokens index1 = Ok (desc, index2) ->
    ClauseAt self tokens C_order this index (Order this expressions desc) index2
| union_at this index all index1 expression index2 :
    at_cursor tokens index [UNION] ->
    _match [ALL] tokens (index + 1)%Z = Ok (all, index1) ->
    parse_select self tokens index1 = Ok (expression, index2) ->
    ClauseAt self tokens C_union this index (Union this expression (negb all)) index2.

(** Clauses are written from the cursor on in the order of the stages.  With
    the stages [cs] ahead, the node [this] and the cursor at [index]: after
    the clauses, each at its stage and a stage without its clause passed
    over, the stages [cs'] are still ahead, the node is [e] and the cursor is
    at [index']. *)
Inductive Clauses (self : Parser) (tokens : list Token)
  : list Clause -> Expr -> Z -> list Clause -> Expr -> Z -> Prop :=
| clauses_stop cs this index :
    Clauses self tokens cs this index cs this index
| clauses_skip c cs this index cs' e index' :
    absent tokens index (keywords c) ->
    Clauses self tokens cs this index cs' e index' ->
    Clauses self tokens (c :: cs) this index cs' e index'
| clauses_take c cs this index this1 index1 cs' e index' :
    ClauseAt self tokens c this index this1 index1 ->
    Clauses self tokens cs this1 index1 cs' e index' ->
    Clauses self tokens (c :: cs) this index cs' e index'.






(** *** Further notions *)

(** No token of the list is a terminator. *)
Definition plain (tokens : list Token) : Prop :=
  Forall (fun t => token_type t <> SEMICOLON) tokens.

(** A chunk made of a terminator and tokens that are none. *)
Definition terminator_then_plain (chunk : list Token) : Prop :=
  exists t rest, chunk = t :: rest /\ token_type t = SEMICOLON /\ plain rest.

(** Every exception [c] raises is one of [E]. *)
Definition raises_only {A} (E : Error -> Prop) (c : M A) : Prop :=
  forall tokens index e, c tokens index = Raise e -> E e.

(** The same at one cursor of one chunk. *)
Definition raises_only_at {A} (E : Error -> Prop) (c : M A) (tokens : list Token)
    (index : Z) : Prop :=
  forall e, c tokens index = Raise e -> E e.

(** The exceptions of the builders of a registry on any arguments. *)
Definition builders_raise_only (E : Error -> Prop) (fns : gmap string Builder) : Prop :=
  forall name builder args e,
    fns !! name = Some builder -> builder args = inl e -> E e.

(** Neither an AttributeError nor a KeyError. *)
Definition not_lookup_error (e : Error) : Prop :=
  match e with
  | AttributeError _ | KeyError _ => False
  | _ => True
  end.

Definition order_by_w_desc : list Token :=
  [tk ORDER "ORDER"; tk BY "BY"; var "w"; tk DESC "DESC"].

Definition a_union_all_b_union_c : list Token :=
  [tk SELECT "SELECT"; var "a"; tk UNION "UNION"; tk ALL "ALL"; tk SELECT "SELECT"; var "b";
   tk UNION "UNION"; tk SELECT "SELECT"; var "c"].

Definition x_between_1_and_10 : list Token :=
  [var "x"; tk BETWEEN "BETWEEN"; tk NUMBER "1"; tk AND "AND"; tk NUMBER "10"].

Definition x_between_1_10 : list Token :=
  [var "x"; tk BETWEEN "BETWEEN"; tk NUMBER "1"; tk NUMBER "10"].

(** [SELECT a.b.c] and what follows *)
Definition dotted (a b c : string) (more : list Token) : list Token :=
  [tk SELECT "SELECT"; var a; tk DOT "."; var b; tk DOT "."; var c] ++ more.

Definition count_distinct_x : list Token :=
  [tk L_PAREN "("; tk DISTINCT "DISTINCT"; var "x"; tk R_PAREN ")"].

Definition x_in_1_2 : list Token :=
  [var "x"; tk IN "IN"; tk L_PAREN "("; tk NUMBER "1"; tk COMMA ","; tk NUMBER "2";
   tk R_PAREN ")"].

(** The node of a prefix operator. *)
Definition prefix_node (ty : TokenType) (this : Expr) : Expr :=
  match ty with
  | NOT => Not this
  | _ => Neg this
  end.

(** The prefix operators [ops], the outermost first, over [this]. *)
Definition prefixed (ops : list TokenType) (this : Expr) : Expr :=
  fold_right prefix_node this ops.

(** The tokens from the cursor on have the types [types], in order. *)
Definition types_at (tokens : list Token) (index : Z) (types : list TokenType) : Prop :=
  forall i ty, types !! i = Some ty -> at_cursor tokens (index + Z.of_nat i) [ty].

(** The tokens from the cursor to the end of the chunk are [rest]. *)
Definition suffix_at (tokens : list Token) (index : Z) (rest : list Token) : Prop :=
  (0 <= index)%Z /\ drop (Z.to_nat index) tokens = rest.

(** The token types that continue an expression after an operand. *)
Definition CONTINUING : list TokenType :=
  [SLASH; STAR; DASH; PLUS; IN; BETWEEN; GT; GTE; LT; LTE; EQ; NEQ; IS; AND; OR;
   OVER; ALIAS; IDENTIFIER; VAR].

(** [first, t1, t2, ...] *)
Definition comma_separated (first : Token) (rest : list Token) : list Token :=
  first :: concat (map (fun t => [tk COMMA ","; t]) rest).

(** The column node of a bare name. *)
Definition column_of (t : Token) : Expr := Column (Tok t) PyNone PyNone.

(** The bound methods of a parser raise only exceptions of [E]. *)
Record Quiet (E : Error -> Prop) (self : Parser) : Prop := {
  quiet_functions : builders_raise_only E (functions self);
  quiet_statement : raises_only E (parse_statement self);
  quiet_cte : raises_only E (parse_cte self);
  quiet_select : raises_only E (parse_select self);
  quiet_from : forall this, raises_only E (parse_from self this);
  quiet_join : forall this, raises_only E (parse_join self this);
  quiet_table : raises_only E (parse_table self);
  quiet_where : forall this, raises_only E (parse_where self this);
  quiet_group : forall this, raises_only E (parse_group self this);
  quiet_having : forall this, raises_only E (parse_having self this);
  quiet_order : forall this, raises_only E (parse_order self this);
  quiet_union : forall this, raises_only E (parse_union self this);
  quiet_expression : raises_only E (parse_expression self);
  quiet_conjunction : raises_only E (parse_conjunction self);
  quiet_equality : raises_only E (parse_equality self);
  quiet_comparison : raises_only E (parse_comparison self);
  quiet_range : raises_only E (parse_range self);
  quiet_term : raises_only E (parse_term self);
  quiet_factor : raises_only E (parse_factor self);
  quiet_unary : raises_only E (parse_unary self);
  quiet_special : raises_only E (parse_special self);
  quiet_case : raises_only E (parse_case self);
  quiet_count : raises_only E (parse_count self);
  quiet_cast : raises_only E (parse_cast self);
  quiet_primary : raises_only E (parse_primary self);
  quiet_column : raises_only E (parse_column self);
  quiet_brackets : forall this, raises_only E (parse_brackets self this);
  quiet_window : forall this, raises_only E (parse_window self this)
}.

(** ** Running a production: outcomes and cursor movement *)

Lemma TokenType_eqb_eq (a b : TokenType) : TokenType_eqb a b = true <-> a = b.
Proof.
  unfold TokenType_eqb. rewrite Pos.eqb_eq. split; [|congruence].
  destruct a, b; simpl; intros H; try reflexivity; discriminate H.
Qed.

Lemma TokenType_eqb_refl (a : TokenType) : TokenType_eqb a a = true.
Proof. apply TokenType_eqb_eq. reflexivity. Qed.

Lemma _safe_get_Some_lt tokens index t :
  _safe_get tokens index = Some t -> (index < Z.of_nat (length tokens))%Z.
Proof.
  unfold _safe_get. destruct (0 <=? index)%Z eqn:H0.
  - intros H. apply lookup_lt_Some in H. lia.
  - intros _. lia.
Qed.

Lemma _safe_get_nonneg tokens index :
  (0 <= index)%Z -> _safe_get tokens index = tokens !! Z.to_nat index.
Proof. intros H. unfold _safe_get. destruct (0 <=? index)%Z eqn:E; [reflexivity|lia]. Qed.

(** What [_match] does at a cursor, by cases on the current token. *)
Lemma _match_types_spec curr types tokens index :
  _match_types curr types tokens index =
    if existsb (TokenType_eqb (token_type curr)) types
    then Ok (true, (index + 1)%Z) else Ok (false, index).
Proof.
  induction types as [|ty types IH]; simpl; [reflexivity|].
  destruct (TokenType_eqb (token_type curr) ty); simpl; [reflexivity|apply IH].
Qed.

Lemma _match_spec types tokens index :
  _match types tokens index =
    match _safe_get tokens index with
    | Some curr =>
      if existsb (TokenType_eqb (token_type curr)) types
      then Ok (true, (index + 1)%Z) else Ok (false, index)
    | None => Ok (false, index)
    end.
Proof.
  unfold _match, bind, _curr.
  destruct (_safe_get tokens index); [apply _match_types_spec|reflexivity].
Qed.

Section Runs.

(** With [tolerant := True] the lemmas below speak of whatever a production
    returns at any depth, with [False] they also say that it answers. *)
Variable tolerant : Prop.
Variable tokens : list Token.

Lemma runs_ret {A} (a : A) index (Q : A -> Z -> Prop) :
  Q a index -> runs tolerant tokens (ret a) index Q.
Proof. intros H. exact H. Qed.

Lemma runs_ret_here {A} (a : A) index :
  runs tolerant tokens (ret a) index (fun _ index' => index' = index).
Proof. reflexivity. Qed.

Lemma runs_raise {A} e index (Q : A -> Z -> Prop) : runs tolerant tokens (raise e) index Q.
Proof. exact I. Qed.

Lemma runs_out_of_fuel {A} index (Q : A -> Z -> Prop) :
  tolerant -> runs tolerant tokens out_of_fuel index Q.
Proof. intros H. exact H. Qed.

Lemma runs_bind {A B} (c : M A) (k : A -> M B) index (R : A -> Z -> Prop)
    (Q : B -> Z -> Prop) :
  runs tolerant tokens c index R ->
  (forall a index', R a index' -> runs tolerant tokens (k a) index' Q) ->
  runs tolerant tokens (bind c k) index Q.
Proof.
  unfold runs, bind. intros Hc Hk.
  destruct (c tokens index) as [[a index']| |]; [apply Hk, Hc|exact I|exact Hc].
Qed.

Lemma runs_conseq {A} (c : M A) index (R Q : A -> Z -> Prop) :
  runs tolerant tokens c index R -> (forall a index', R a index' -> Q a index') -> runs tolerant tokens c index Q.
Proof.
  unfold runs. intros Hc HQ.
  destruct (c tokens index) as [[a index']| |]; [apply HQ, Hc|exact I|exact Hc].
Qed.

Lemma runs_lift {A} (r : Error + A) index :
  runs tolerant tokens (lift r) index (fun _ index' => index' = index).
Proof. destruct r; [exact I|reflexivity]. Qed.

Lemma runs_prev index :
  runs tolerant tokens _prev index (fun _ index' => index' = index).
Proof. reflexivity. Qed.

(** A successful [_match] moves the cursor by one and had a token under it; a
    failed one leaves the cursor. *)
Lemma runs_match types index :
  runs tolerant tokens (_match types) index
    (fun m index' =>
       if m then index' = (index + 1)%Z /\ (index < Z.of_nat (length tokens))%Z
       else index' = index).
Proof.
  unfold runs. rewrite _match_spec.
  destruct (_safe_get tokens index) as [curr|] eqn:Hc; [|reflexivity].
  apply _safe_get_Some_lt in Hc.
  destruct (existsb _ types); [split; [reflexivity|exact Hc]|reflexivity].
Qed.

Lemma remaining_step index index' :
  (index < index')%Z -> (index' <= Z.of_nat (length tokens))%Z ->
  remaining tokens index' < remaining tokens index.
Proof. unfold remaining. lia. Qed.

(** The loop: each turn starts by a successful [_match], so the body runs
    strictly to the right of where the loop started, within the chunk. *)
Lemma runs_while_match {St} (types : list TokenType) (body : St -> M St) :
  forall fuel index s,
    tolerant \/ remaining tokens index < fuel ->
    (forall s' index',
        (index < index')%Z -> (index' <= Z.of_nat (length tokens))%Z ->
        runs tolerant tokens (body s') index' (fun _ index'' => advanced tokens index' index'')) ->
    runs tolerant tokens (while_match fuel types body s) index (fun _ index' => advanced tokens index index').
Proof.
  induction fuel as [|fuel IH]; intros index s Hfuel Hbody.
  - apply runs_out_of_fuel. destruct Hfuel as [H|H]; [exact H|lia].
  - simpl. eapply runs_bind; [apply runs_match|].
    intros [|] index1 H1; cbv beta in H1.
    + destruct H1 as [-> Hlt].
      eapply runs_bind; [apply Hbody; lia|].
      intros s1 index2 H2; cbv beta in H2.
      eapply runs_conseq.
      * apply IH.
        -- destruct Hfuel as [H|H]; [left; exact H|right].
           unfold advanced in H2. unfold remaining in *. lia.
        -- intros s' index' Hlt' Hle'. apply Hbody; [unfold advanced in H2; lia|exact Hle'].
      * intros ? index3 H3; cbv beta in H3. unfold advanced in *. lia.
    + subst index1. apply runs_ret. unfold advanced. lia.
Qed.

Lemma runs_parse_csv (parse : M Expr) fuel index :
  tolerant \/ remaining tokens index < fuel ->
  (forall index', (index <= index')%Z ->
                  runs tolerant tokens parse index' (fun _ index'' => advanced tokens index' index'')) ->
  runs tolerant tokens (_parse_csv fuel parse) index (fun _ index' => advanced tokens index index').
Proof.
  intros Hfuel Hparse. unfold _parse_csv.
  eapply runs_bind; [apply Hparse; lia|].
  intros first index1 H1; cbv beta in H1.
  eapply runs_conseq.
  - apply runs_while_match.
    + destruct Hfuel as [H|H]; [left; exact H|right].
      unfold advanced in H1. unfold remaining in *. lia.
    + intros items index' Hlt Hle.
      eapply runs_bind; [apply Hparse; unfold advanced in H1; lia|].
      intros item index2 H2. apply runs_ret. exact H2.
  - intros ? index2 H2; cbv beta in H2. unfold advanced in *. lia.
Qed.

Lemma runs_parse_tokens (parse : M Expr) (expressions : list BinaryOp) fuel index :
  tolerant \/ remaining tokens index < fuel ->
  (forall index', (index <= index')%Z ->
                  runs tolerant tokens parse index' (fun _ index'' => advanced tokens index' index'')) ->
  runs tolerant tokens (_parse_tokens fuel parse expressions) index
    (fun _ index' => advanced tokens index index').
Proof.
  intros Hfuel Hparse. unfold _parse_tokens.
  eapply runs_bind; [apply Hparse; lia|].
  intros this index1 H1; cbv beta in H1. cbv zeta.
  eapply runs_conseq.
  - apply runs_while_match.
    + destruct Hfuel as [H|H]; [left; exact H|right].
      unfold advanced in H1. unfold remaining in *. lia.
    + intros this' index' Hlt Hle.
      eapply runs_bind; [apply runs_prev|].
      intros prev index2 ->.
      destruct prev as [prev|]; [|apply runs_raise].
      destruct (dict_get _ (token_type prev)); [|apply runs_raise].
      eapply runs_bind; [apply Hparse; unfold advanced in H1; lia|].
      intros expression index3 H3. apply runs_ret. exact H3.
  - intros ? index2 H2; cbv beta in H2. unfold advanced in *. lia.
Qed.

Lemma runs_parse_alias this index :
  runs tolerant tokens (_parse_alias this) index (fun _ index' => advanced tokens index index').
Proof.
  unfold _parse_alias.
  eapply runs_bind; [apply runs_match|]. intros m1 index1 H1.
  eapply runs_bind; [apply runs_match|]. intros m2 index2 H2.
  destruct m2.
  - eapply runs_bind; [apply runs_prev|]. intros to index3 ->.
    apply runs_ret. unfold advanced. destruct m1; lia.
  - apply runs_ret. unfold advanced. destruct m1; lia.
Qed.

End Runs.

(** ** Every production answers, and never moves the cursor left *)

Section Progress.

Variable tolerant : Prop.
Variable tokens : list Token.

Lemma deep_enough_tolerant fuel index rank :
  tolerant -> deep_enough tolerant tokens fuel index rank.
Proof. intros H. left. exact H. Qed.

Ltac arith :=
  unfold advanced, remaining in *; lia.

Ltac deep :=
  lazymatch goal with
  | H : deep_enough _ _ _ _ _ |- _ =>
    unfold deep_enough in *; destruct H as [H|H]; [left; exact H|right; arith]
  end.

Section Bodies.

Variable self : Parser.
Hypothesis Hgood : Good tolerant tokens self.

Ltac call run :=
  first
    [ apply runs_prev
    | apply runs_ret_here
    | apply runs_lift
    | apply runs_parse_alias
    | apply runs_parse_csv; [deep|intros ? ?; call run]
    | apply runs_parse_tokens; [deep|intros ? ?; call run]
    | apply runs_while_match; [deep|intros ? ? ? ?; run ()]
    | apply (good_statement tolerant tokens self Hgood); deep
    | apply (good_cte tolerant tokens self Hgood); deep
    | apply (good_select tolerant tokens self Hgood); deep
    | apply (good_from tolerant tokens self Hgood); deep
    | apply (good_join tolerant tokens self Hgood); deep
    | apply (good_table tolerant tokens self Hgood); deep
    | apply (good_where tolerant tokens self Hgood); deep
    | apply (good_group tolerant tokens self Hgood); deep
    | apply (good_having tolerant tokens self Hgood); deep
    | apply (good_order tolerant tokens self Hgood); deep
    | apply (good_union tolerant tokens self Hgood); deep
    | apply (good_expression tolerant tokens self Hgood); deep
    | apply (good_conjunction tolerant tokens self Hgood); deep
    | apply (good_equality tolerant tokens self Hgood); deep
    | apply (good_comparison tolerant tokens self Hgood); deep
    | apply (good_range tolerant tokens self Hgood); deep
    | apply (good_term tolerant tokens self Hgood); deep
    | apply (good_factor tolerant tokens self Hgood); deep
    | apply (good_unary tolerant tokens self Hgood); deep
    | apply (good_special tolerant tokens self Hgood); deep
    | apply (good_case tolerant tokens self Hgood); deep
    | apply (good_count tolerant tokens self Hgood); deep
    | apply (good_cast tolerant tokens self Hgood); deep
    | apply (good_primary tolerant tokens self Hgood); deep
    | apply (good_column tolerant tokens self Hgood); deep
    | apply (good_brackets tolerant tokens self Hgood); deep
    | apply (good_window tolerant tokens self Hgood); deep
    ].

Ltac run :=
  lazymatch goal with
  | |- runs _ _ (bind (_match _) _) _ _ =>
    eapply runs_bind; [apply runs_match|];
    let H := fresh "Hm" in
    intros [|] ? H; cbv beta iota in H; cbn [negb]; run
  | |- runs _ _ (bind _ _) ?i _ =>
    eapply (runs_bind _ _ _ _ _ (fun _ j => advanced tokens i j));
    [run|intros ? ? ?; run]
  | |- runs _ _ (if ?m then _ else _) _ _ => destruct m; run
  | |- runs _ _ (match ?x with Some _ => _ | None => _ end) _ _ => destruct x; run
  | |- runs _ _ (ret _) _ _ => apply runs_ret; try arith
  | |- runs _ _ (raise _) _ _ => apply runs_raise
  | |- runs _ _ (let x := _ in _) _ _ => cbv zeta; run
  | |- runs _ _ _ _ _ =>
    eapply runs_conseq; [call ltac:(fun _ => run)|intros ? ? ?; try arith]
  end.

Lemma _parse_statement_safe : safe tolerant tokens 2 (S (depth self)) (_parse_statement self).
Proof. intros index Hd. unfold _parse_statement. run. Qed.

Lemma _parse_cte_safe : safe tolerant tokens 1 (S (depth self)) (_parse_cte self).
Proof. intros index Hd. unfold _parse_cte. run. Qed.

Lemma _parse_select_safe : safe tolerant tokens 1 (S (depth self)) (_parse_select self).
Proof. intros index Hd. unfold _parse_select. run. Qed.

Lemma _parse_from_safe : safe1 tolerant tokens 1 (S (depth self)) (_parse_from self).
Proof. intros this index Hd. unfold _parse_from. run. Qed.

Lemma _parse_join_safe : safe1 tolerant tokens 1 (S (depth self)) (_parse_join self).
Proof. intros this index Hd. unfold _parse_join. run. Qed.

Lemma _parse_table_safe : safe tolerant tokens 1 (S (depth self)) (_parse_table self).
Proof. intros index Hd. unfold _parse_table. run. Qed.

Lemma _parse_where_safe : safe1 tolerant tokens 1 (S (depth self)) (_parse_where self).
Proof. intros this index Hd. unfold _parse_where. run. Qed.

Lemma _parse_group_safe : safe1 tolerant tokens 1 (S (depth self)) (_parse_group self).
Proof. intros this index Hd. unfold _parse_group. run. Qed.

Lemma _parse_having_safe : safe1 tolerant tokens 1 (S (depth self)) (_parse_having self).
Proof. intros this index Hd. unfold _parse_having. run. Qed.

Lemma _parse_order_safe : safe1 tolerant tokens 1 (S (depth self)) (_parse_order self).
Proof. intros this index Hd. unfold _parse_order. run. Qed.

Lemma _parse_union_safe : safe1 tolerant tokens 1 (S (depth self)) (_parse_union self).
Proof. intros this index Hd. unfold _parse_union. run. Qed.

Lemma _parse_expression_safe : safe tolerant tokens 11 (S (depth self)) (_parse_expression self).
Proof. intros index Hd. unfold _parse_expression. run. Qed.

Lemma _parse_conjunction_safe : safe tolerant tokens 10 (S (depth self)) (_parse_conjunction self).
Proof. intros index Hd. unfold _parse_conjunction. run. Qed.

Lemma _parse_equality_safe : safe tolerant tokens 9 (S (depth self)) (_parse_equality self).
Proof. intros index Hd. unfold _parse_equality. run. Qed.

Lemma _parse_comparison_safe : safe tolerant tokens 8 (S (depth self)) (_parse_comparison self).
Proof. intros index Hd. unfold _parse_comparison. run. Qed.

Lemma _parse_range_safe : safe tolerant tokens 7 (S (depth self)) (_parse_range self).
Proof. intros index Hd. unfold _parse_range. run. Qed.

Lemma _parse_term_safe : safe tolerant tokens 6 (S (depth self)) (_parse_term self).
Proof. intros index Hd. unfold _parse_term. run. Qed.

Lemma _parse_factor_safe : safe tolerant tokens 5 (S (depth self)) (_parse_factor self).
Proof. intros index Hd. unfold _parse_factor. run. Qed.

Lemma _parse_unary_safe : safe tolerant tokens 4 (S (depth self)) (_parse_unary self).
Proof. intros index Hd. unfold _parse_unary. run. Qed.

Lemma _parse_special_safe : safe tolerant tokens 3 (S (depth self)) (_parse_special self).
Proof. intros index Hd. unfold _parse_special. run. Qed.

Lemma _parse_case_safe : safe tolerant tokens 2 (S (depth self)) (_parse_case self).
Proof. intros index Hd. unfold _parse_case. run. Qed.

Lemma _parse_count_safe : safe tolerant tokens 1 (S (depth self)) (_parse_count self).
Proof. intros index Hd. unfold _parse_count. run. Qed.

Lemma _parse_cast_safe : safe tolerant tokens 1 (S (depth self)) (_parse_cast self).
Proof. intros index Hd. unfold _parse_cast. run. Qed.

Lemma _parse_primary_safe : safe tolerant tokens 2 (S (depth self)) (_parse_primary self).
Proof. intros index Hd. unfold _parse_primary. run. Qed.

Lemma _parse_column_safe : safe tolerant tokens 1 (S (depth self)) (_parse_column self).
Proof. intros index Hd. unfold _parse_column. run. Qed.

Lemma _parse_brackets_safe : safe1 tolerant tokens 1 (S (depth self)) (_parse_brackets self).
Proof. intros this index Hd. unfold _parse_brackets. run. Qed.

Lemma _parse_window_safe : safe1 tolerant tokens 1 (S (depth self)) (_parse_window self).
Proof. intros this index Hd. unfold _parse_window. run. Qed.

End Bodies.

Lemma depth_parser_at fns fuel : depth (parser_at fns fuel) = fuel.
Proof. destruct fuel; reflexivity. Qed.

Lemma safe_out_of_fuel rank : 0 < rank -> safe tolerant tokens rank 0 out_of_fuel.
Proof.
  intros Hr index [H|H]; [apply runs_out_of_fuel; exact H|lia].
Qed.

(** The parser is good at every depth. *)
Lemma parser_at_good fns fuel : Good tolerant tokens (parser_at fns fuel).
Proof.
  induction fuel as [|fuel IH].
  - split; try intros this; apply safe_out_of_fuel; lia.
  - split; rewrite depth_parser_at; rewrite <- (depth_parser_at fns fuel) at 1;
      cbn [parser_at parse_statement parse_cte parse_select parse_from parse_join parse_table parse_where parse_group parse_having parse_order parse_union parse_expression parse_conjunction parse_equality parse_comparison parse_range parse_term parse_factor parse_unary parse_special parse_case parse_count parse_cast parse_primary parse_column parse_brackets parse_window].

    + apply _parse_statement_safe, IH.
    + apply _parse_cte_safe, IH.
    + apply _parse_select_safe, IH.
    + apply _parse_from_safe, IH.
    + apply _parse_join_safe, IH.
    + apply _parse_table_safe, IH.
    + apply _parse_where_safe, IH.
    + apply _parse_group_safe, IH.
    + apply _parse_having_safe, IH.
    + apply _parse_order_safe, IH.
    + apply _parse_union_safe, IH.
    + apply _parse_expression_safe, IH.
    + apply _parse_conjunction_safe, IH.
    + apply _parse_equality_safe, IH.
    + apply _parse_comparison_safe, IH.
    + apply _parse_range_safe, IH.
    + apply _parse_term_safe, IH.
    + apply _parse_factor_safe, IH.
    + apply _parse_unary_safe, IH.
    + apply _parse_special_safe, IH.
    + apply _parse_case_safe, IH.
    + apply _parse_count_safe, IH.
    + apply _parse_cast_safe, IH.
    + apply _parse_primary_safe, IH.
    + apply _parse_column_safe, IH.
    + apply _parse_brackets_safe, IH.
    + apply _parse_window_safe, IH.
Qed.

End Progress.

(** ** A deeper parser gives the same answers *)

Lemma refines_refl {A} (c : M A) : refines c c.
Proof. intros tokens index. right. reflexivity. Qed.

Lemma refines_trans {A} (c1 c2 c3 : M A) :
  refines c1 c2 -> refines c2 c3 -> refines c1 c3.
Proof.
  intros H12 H23 tokens index.
  destruct (H12 tokens index) as [H|H]; [left; exact H|].
  destruct (H23 tokens index) as [H'|H']; [left|right]; congruence.
Qed.

Lemma refines_out_of_fuel {A} (c : M A) : refines out_of_fuel c.
Proof. intros tokens index. left. reflexivity. Qed.

Lemma refines_bind {A B} (c c' : M A) (k k' : A -> M B) :
  refines c c' -> (forall a, refines (k a) (k' a)) ->
  refines (bind c k) (bind c' k').
Proof.
  intros Hc Hk tokens index. unfold bind.
  destruct (Hc tokens index) as [H|H].
  - left. rewrite H. reflexivity.
  - rewrite <- H. destruct (c tokens index) as [[a index']| |].
    + apply Hk.
    + right. reflexivity.
    + left. reflexivity.
Qed.

Lemma refines_while_match {St} types (body body' : St -> M St) :
  (forall s, refines (body s) (body' s)) ->
  forall fuel fuel', fuel <= fuel' ->
  forall s, refines (while_match fuel types body s) (while_match fuel' types body' s).
Proof.
  intros Hbody. induction fuel as [|fuel IH]; intros fuel' Hle s.
  - apply refines_out_of_fuel.
  - destruct fuel' as [|fuel']; [lia|]. simpl.
    apply refines_bind; [apply refines_refl|]. intros [|]; [|apply refines_refl].
    apply refines_bind; [apply Hbody|]. intros s'. apply IH. lia.
Qed.

Lemma refines_parse_csv fuel fuel' (parse parse' : M Expr) :
  fuel <= fuel' -> refines parse parse' ->
  refines (_parse_csv fuel parse) (_parse_csv fuel' parse').
Proof.
  intros Hle Hp. unfold _parse_csv.
  apply refines_bind; [exact Hp|]. intros first.
  apply refines_while_match; [|exact Hle].
  intros items. apply refines_bind; [exact Hp|]. intros item. apply refines_refl.
Qed.

Lemma refines_parse_tokens fuel fuel' (parse parse' : M Expr) expressions :
  fuel <= fuel' -> refines parse parse' ->
  refines (_parse_tokens fuel parse expressions) (_parse_tokens fuel' parse' expressions).
Proof.
  intros Hle Hp. unfold _parse_tokens.
  apply refines_bind; [exact Hp|]. intros this. cbv zeta.
  apply refines_while_match; [|exact Hle].
  intros this'. apply refines_bind; [apply refines_refl|]. intros [prev|]; [|apply refines_refl].
  destruct (dict_get _ (token_type prev)); [|apply refines_refl].
  apply refines_bind; [exact Hp|]. intros e. apply refines_refl.
Qed.

Section Deeper.

Variables self self' : Parser.
Hypothesis Hbelow : Below self self'.

Ltac mono :=
  lazymatch goal with
  | |- refines (bind _ _) (bind _ _) => apply refines_bind; [mono|intros ?; mono]
  | |- refines (if ?m then _ else _) _ => destruct m; mono
  | |- refines (match ?x with Some _ => _ | None => _ end) _ => destruct x; mono
  | |- refines (let x := _ in _) _ => cbv zeta; mono
  | |- refines (_parse_csv _ _) _ =>
    apply refines_parse_csv; [apply (below_depth _ _ Hbelow)|mono]
  | |- refines (_parse_tokens _ _ _) _ =>
    apply refines_parse_tokens; [apply (below_depth _ _ Hbelow)|mono]
  | |- refines (while_match _ _ _ _) _ =>
    apply refines_while_match; [intros ?; mono|apply (below_depth _ _ Hbelow)]
  | |- _ =>
    first
      [ apply refines_refl
      | apply (below_statement _ _ Hbelow)
      | apply (below_cte _ _ Hbelow)
      | apply (below_select _ _ Hbelow)
      | apply (below_from _ _ Hbelow)
      | apply (below_join _ _ Hbelow)
      | apply (below_table _ _ Hbelow)
      | apply (below_where _ _ Hbelow)
      | apply (below_group _ _ Hbelow)
      | apply (below_having _ _ Hbelow)
      | apply (below_order _ _ Hbelow)
      | apply (below_union _ _ Hbelow)
      | apply (below_expression _ _ Hbelow)
      | apply (below_conjunction _ _ Hbelow)
      | apply (below_equality _ _ Hbelow)
      | apply (below_comparison _ _ Hbelow)
      | apply (below_range _ _ Hbelow)
      | apply (below_term _ _ Hbelow)
      | apply (below_factor _ _ Hbelow)
      | apply (below_unary _ _ Hbelow)
      | apply (below_special _ _ Hbelow)
      | apply (below_case _ _ Hbelow)
      | apply (below_count _ _ Hbelow)
      | apply (below_cast _ _ Hbelow)
      | apply (below_primary _ _ Hbelow)
      | apply (below_column _ _ Hbelow)
      | apply (below_brackets _ _ Hbelow)
      | apply (below_window _ _ Hbelow)
      ]
  end.

Lemma _parse_statement_deeper : refines (_parse_statement self) (_parse_statement self').
Proof. unfold _parse_statement. mono. Qed.

Lemma _parse_cte_deeper : refines (_parse_cte self) (_parse_cte self').
Proof. unfold _parse_cte. mono. Qed.

Lemma _parse_select_deeper : refines (_parse_select self) (_parse_select self').
Proof. unfold _parse_select. mono. Qed.

Lemma _parse_from_deeper this : refines (_parse_from self this) (_parse_from self' this).
Proof. unfold _parse_from. mono. Qed.

Lemma _parse_join_deeper this : refines (_parse_join self this) (_parse_join self' this).
Proof. unfold _parse_join. mono. Qed.

Lemma _parse_table_deeper : refines (_parse_table self) (_parse_table self').
Proof. unfold _parse_table. mono. Qed.

Lemma _parse_where_deeper this : refines (_parse_where self this) (_parse_where self' this).
Proof. unfold _parse_where. mono. Qed.

Lemma _parse_group_deeper this : refines (_parse_group self this) (_parse_group self' this).
Proof. unfold _parse_group. mono. Qed.

Lemma _parse_having_deeper this : refines (_parse_having self this) (_parse_having self' this).
Proof. unfold _parse_having. mono. Qed.

Lemma _parse_order_deeper this : refines (_parse_order self this) (_parse_order self' this).
Proof. unfold _parse_order. mono. Qed.

Lemma _parse_union_deeper this : refines (_parse_union self this) (_parse_union self' this).
Proof. unfold _parse_union. mono. Qed.

Lemma _parse_expression_deeper : refines (_parse_expression self) (_parse_expression self').
Proof. unfold _parse_expression. mono. Qed.

Lemma _parse_conjunction_deeper : refines (_parse_conjunction self) (_parse_conjunction self').
Proof. unfold _parse_conjunction. mono. Qed.

Lemma _parse_equality_deeper : refines (_parse_equality self) (_parse_equality self').
Proof. unfold _parse_equality. mono. Qed.

Lemma _parse_comparison_deeper : refines (_parse_comparison self) (_parse_comparison self').
Proof. unfold _parse_comparison. mono. Qed.

Lemma _parse_range_deeper : refines (_parse_range self) (_parse_range self').
Proof. unfold _parse_range. mono. Qed.

Lemma _parse_term_deeper : refines (_parse_term self) (_parse_term self').
Proof. unfold _parse_term. mono. Qed.

Lemma _parse_factor_deeper : refines (_parse_factor self) (_parse_factor self').
Proof. unfold _parse_factor. mono. Qed.

Lemma _parse_unary_deeper : refines (_parse_unary self) (_parse_unary self').
Proof. unfold _parse_unary. mono. Qed.

Lemma _parse_special_deeper : refines (_parse_special self) (_parse_special self').
Proof. unfold _parse_special. mono. Qed.

Lemma _parse_case_deeper : refines (_parse_case self) (_parse_case self').
Proof. unfold _parse_case. mono. Qed.

Lemma _parse_count_deeper : refines (_parse_count self) (_parse_count self').
Proof. unfold _parse_count. mono. Qed.

Lemma _parse_cast_deeper : refines (_parse_cast self) (_parse_cast self').
Proof. unfold _parse_cast. mono. Qed.

Lemma _parse_primary_deeper : refines (_parse_primary self) (_parse_primary self').
Proof. unfold _parse_primary. mono. Qed.

Lemma _parse_column_deeper : refines (_parse_column self) (_parse_column self').
Proof. unfold _parse_column. rewrite <- (below_functions _ _ Hbelow). mono. Qed.

Lemma _parse_brackets_deeper this : refines (_parse_brackets self this) (_parse_brackets self' this).
Proof. unfold _parse_brackets. mono. Qed.

Lemma _parse_window_deeper this : refines (_parse_window self this) (_parse_window self' this).
Proof. unfold _parse_window. mono. Qed.

End Deeper.

Lemma parser_at_below_S fns fuel : Below (parser_at fns fuel) (parser_at fns (S fuel)).
Proof.
  induction fuel as [|fuel IH].
  - split; try intros this; first [reflexivity|simpl; lia|apply refines_out_of_fuel].
  - split; [reflexivity|simpl; lia|..]; try intros this;
      cbn [parser_at parse_statement parse_cte parse_select parse_from parse_join parse_table parse_where parse_group parse_having parse_order parse_union parse_expression parse_conjunction parse_equality parse_comparison parse_range parse_term parse_factor parse_unary parse_special parse_case parse_count parse_cast parse_primary parse_column parse_brackets parse_window].

    + apply _parse_statement_deeper, IH.
    + apply _parse_cte_deeper, IH.
    + apply _parse_select_deeper, IH.
    + apply _parse_from_deeper, IH.
    + apply _parse_join_deeper, IH.
    + apply _parse_table_deeper, IH.
    + apply _parse_where_deeper, IH.
    + apply _parse_group_deeper, IH.
    + apply _parse_having_deeper, IH.
    + apply _parse_order_deeper, IH.
    + apply _parse_union_deeper, IH.
    + apply _parse_expression_deeper, IH.
    + apply _parse_conjunction_deeper, IH.
    + apply _parse_equality_deeper, IH.
    + apply _parse_comparison_deeper, IH.
    + apply _parse_range_deeper, IH.
    + apply _parse_term_deeper, IH.
    + apply _parse_factor_deeper, IH.
    + apply _parse_unary_deeper, IH.
    + apply _parse_special_deeper, IH.
    + apply _parse_case_deeper, IH.
    + apply _parse_count_deeper, IH.
    + apply _parse_cast_deeper, IH.
    + apply _parse_primary_deeper, IH.
    + apply _parse_column_deeper, IH.
    + apply _parse_brackets_deeper, IH.
    + apply _parse_window_deeper, IH.
Qed.

Lemma Below_refl self : Below self self.
Proof. split; try intros this; first [reflexivity|apply refines_refl]. Qed.

Lemma Below_trans s1 s2 s3 : Below s1 s2 -> Below s2 s3 -> Below s1 s3.
Proof.
  intros [] []. split; try intros this;
    first [congruence|lia|eapply refines_trans; eauto].
Qed.

Lemma parser_at_below fns fuel fuel' :
  fuel <= fuel' -> Below (parser_at fns fuel) (parser_at fns fuel').
Proof.
  induction 1 as [|fuel' Hle IH]; [apply Below_refl|].
  eapply Below_trans; [exact IH|apply parser_at_below_S].
Qed.

(** ** The statement splitter *)

Lemma append_last_snoc init last token :
  append_last (init ++ [last]) token = init ++ [last ++ [token]].
Proof.
  unfold append_last. rewrite length_app. simpl.
  replace (length init + 1 - 1) with (length init + 0) by lia.
  rewrite alter_app_r. reflexivity.
Qed.

Lemma split_token_snoc init last token :
  split_token (init ++ [last]) token =
    if is_semicolon token then init ++ [last; [token]]
    else init ++ [last ++ [token]].
Proof.
  unfold split_token, is_semicolon.
  destruct (TokenType_eqb (token_type token) SEMICOLON).
  - rewrite (append_last_snoc (init ++ [last]) []). rewrite <- app_assoc. reflexivity.
  - apply append_last_snoc.
Qed.

(** Tokens that are no terminators extend the last chunk. *)
Lemma fold_split_plain raw init last :
  Forall (fun t => is_semicolon t = false) raw ->
  fold_left split_token raw (init ++ [last]) = init ++ [last ++ raw].
Proof.
  intros Hall. revert last.
  induction Hall as [|t raw Ht Hall IH]; intros last; simpl.
  - rewrite app_nil_r. reflexivity.
  - rewrite split_token_snoc, Ht, IH, <- app_assoc. reflexivity.
Qed.

(** The chunks hold the tokens in source order; every chunk but the first
    begins with the terminator that opened it. *)
Lemma fold_split_inv raw :
  forall init last,
    Forall semicolon_headed (tail (init ++ [last])) ->
    let chunks := fold_left split_token raw (init ++ [last]) in
    concat chunks = concat (init ++ [last]) ++ raw /\
    Forall semicolon_headed (tail chunks) /\
    length chunks = length init + 1 + length (filter (fun t => is_semicolon t = true) raw).
Proof.
  induction raw as [|t raw IH]; intros init last Hhead; simpl.
  - rewrite app_nil_r. rewrite length_app. simpl. repeat split; [exact Hhead|lia].
  - rewrite split_token_snoc.
    destruct (is_semicolon t) eqn:Ht.
    + replace (init ++ [last; [t]]) with ((init ++ [last]) ++ [[t]])
        by (rewrite <- app_assoc; reflexivity).
      destruct (IH (init ++ [last]) [t]) as (Hc & Hh & Hl).
      { destruct init as [|c0 init]; simpl in *.
        - constructor; [|constructor]. exists t, []. split; [reflexivity|].
          apply TokenType_eqb_eq. exact Ht.
        - rewrite Forall_app. split; [exact Hhead|].
          constructor; [|constructor]. exists t, []. split; [reflexivity|].
          apply TokenType_eqb_eq. exact Ht. }
      cbv zeta in *. rewrite Hc, Hl. repeat split; [|exact Hh|].
      * rewrite !concat_app. simpl. rewrite !app_nil_r, <- !app_assoc. reflexivity.
      * rewrite filter_cons. rewrite decide_True by exact Ht.
        rewrite length_app. simpl. lia.
    + destruct (IH init (last ++ [t])) as (Hc & Hh & Hl).
      { destruct init as [|c0 init]; simpl in *; [constructor|].
        rewrite Forall_app in *. destruct Hhead as [Hi Hlast]. split; [exact Hi|].
        constructor; [|constructor].
        apply Forall_inv in Hlast. destruct Hlast as (t0 & rest & -> & Hty).
        exists t0, (rest ++ [t]). split; [reflexivity|exact Hty]. }
      cbv zeta in *. rewrite Hc, Hl. repeat split; [|exact Hh|].
      * rewrite !concat_app. simpl. rewrite !app_nil_r, <- !app_assoc. reflexivity.
      * rewrite filter_cons. rewrite decide_False by congruence. reflexivity.
Qed.

Lemma split_chunks_concat raw : concat (split_chunks raw) = raw.
Proof.
  destruct (fold_split_inv raw [] []) as (H & _); [constructor|]. exact H.
Qed.

Lemma split_chunks_tail raw : Forall semicolon_headed (tail (split_chunks raw)).
Proof.
  destruct (fold_split_inv raw [] []) as (_ & H & _); [constructor|]. exact H.
Qed.

Lemma split_chunks_length raw :
  length (split_chunks raw) = 1 + length (filter (fun t => is_semicolon t = true) raw).
Proof.
  destruct (fold_split_inv raw [] []) as (_ & _ & H); [constructor|]. exact H.
Qed.

Lemma concat_length_bound (chunks : list (list Token)) :
  Forall (fun chunk => length chunk <= length (concat chunks)) chunks.
Proof.
  induction chunks as [|c chunks IH]; [constructor|]. simpl. constructor.
  - rewrite length_app. lia.
  - eapply Forall_impl; [exact IH|]. intros c' H. simpl in H. rewrite length_app. lia.
Qed.

Lemma split_chunks_bound raw :
  Forall (fun chunk => length chunk <= length raw) (split_chunks raw).
Proof.
  pose proof (concat_length_bound (split_chunks raw)) as H.
  rewrite split_chunks_concat in H. exact H.
Qed.

(** ** Every bound method, at every depth *)

Lemma method_safe tolerant tokens fns fuel p this :
  safe tolerant tokens (rank p) fuel (method (parser_at fns fuel) p this).
Proof.
  pose proof (parser_at_good tolerant tokens fns fuel) as [].
  rewrite depth_parser_at in *. destruct p; simpl; auto.
Qed.

Lemma method_never_left fns fuel p this tokens index a index' :
  method (parser_at fns fuel) p this tokens index = Ok (a, index') ->
  advanced tokens index index'.
Proof.
  intros H. pose proof (method_safe True tokens fns fuel p this index) as Hs.
  unfold runs in Hs. rewrite H in Hs. apply Hs. left. exact I.
Qed.

Lemma method_answers fns fuel p this tokens index :
  16 * remaining tokens index + rank p <= fuel ->
  method (parser_at fns fuel) p this tokens index <> OutOfFuel.
Proof.
  intros Hfuel H. pose proof (method_safe False tokens fns fuel p this index) as Hs.
  unfold runs in Hs. rewrite H in Hs. apply Hs. right. exact Hfuel.
Qed.

Lemma method_deeper fns fuel fuel' p this :
  fuel <= fuel' ->
  refines (method (parser_at fns fuel) p this) (method (parser_at fns fuel') p this).
Proof.
  intros Hle. pose proof (parser_at_below fns fuel fuel' Hle) as [].
  destruct p; simpl; auto.
Qed.

(** ** The entry point, at every depth *)

Lemma parse_chunks_deeper self self' chunks expressions :
  Below self self' ->
  parse_chunks self chunks expressions = OutOfFuel \/
  parse_chunks self chunks expressions = parse_chunks self' chunks expressions.
Proof.
  intros Hb. revert expressions.
  induction chunks as [|tokens chunks IH]; intros expressions; simpl; [right; reflexivity|].
  destruct (below_statement _ _ Hb tokens (-1 + 1)%Z) as [H|H].
  - left. rewrite H. reflexivity.
  - rewrite <- H.
    destruct (parse_statement self tokens (-1 + 1)%Z) as [[e index]| |];
      [|right; reflexivity|left; reflexivity].
    destruct (index <? Z.of_nat (length tokens))%Z; [right; reflexivity|apply IH].
Qed.

Lemma parse_deeper opts fuel fuel' raw_tokens :
  fuel <= fuel' ->
  parse opts fuel raw_tokens = OutOfFuel \/
  parse opts fuel raw_tokens = parse opts fuel' raw_tokens.
Proof. intros Hle. apply parse_chunks_deeper, parser_at_below, Hle. Qed.

(** An answer at some depth is the answer at every greater depth. *)
Lemma parse_stable opts fuel extra raw_tokens r :
  parse opts fuel raw_tokens = r -> r <> OutOfFuel ->
  parse opts (fuel + extra) raw_tokens = r.
Proof.
  intros H Hr. destruct (parse_deeper opts fuel (fuel + extra) raw_tokens) as [H'|H']; [lia| |].
  - congruence.
  - congruence.
Qed.

Lemma parse_statement_answers fns fuel tokens :
  16 * length tokens + 2 <= fuel ->
  parse_statement (parser_at fns fuel) tokens (-1 + 1)%Z <> OutOfFuel.
Proof.
  intros Hfuel. apply (method_answers fns fuel P_statement PyNone).
  unfold remaining. simpl. lia.
Qed.

Lemma parse_chunks_answers fns fuel chunks expressions :
  Forall (fun chunk => 16 * length chunk + 2 <= fuel) chunks ->
  parse_chunks (parser_at fns fuel) chunks expressions <> OutOfFuel.
Proof.
  intros Hall. revert expressions.
  induction Hall as [|tokens chunks Hlen Hall IH]; intros expressions; simpl; [discriminate|].
  pose proof (parse_statement_answers fns fuel tokens Hlen) as Hs.
  destruct (parse_statement (parser_at fns fuel) tokens (-1 + 1)%Z) as [[e index]| |];
    [|discriminate|congruence].
  destruct (index <? Z.of_nat (length tokens))%Z; [discriminate|apply IH].
Qed.

Lemma parse_answers opts fuel raw_tokens :
  16 * length raw_tokens + 2 <= fuel -> parse opts fuel raw_tokens <> OutOfFuel.
Proof.
  intros Hfuel. apply parse_chunks_answers.
  eapply Forall_impl; [apply split_chunks_bound|]. intros chunk H. simpl in H. lia.
Qed.

(** What [parse_statement] returns from the start of a chunk lies in it. *)
Lemma parse_statement_within fns fuel tokens e index :
  parse_statement (parser_at fns fuel) tokens (-1 + 1)%Z = Ok (e, index) ->
  (0 <= index <= Z.of_nat (length tokens))%Z.
Proof.
  intros H. pose proof (method_never_left fns fuel P_statement PyNone tokens _ e index H) as Ha.
  unfold advanced in Ha. lia.
Qed.

(** ** Stepping through a production *)

Lemma bind_ok {A B} (c : M A) (k : A -> M B) tokens index a index' :
  c tokens index = Ok (a, index') -> bind c k tokens index = k a tokens index'.
Proof. intros H. unfold bind. rewrite H. reflexivity. Qed.

Lemma bind_raise {A B} (c : M A) (k : A -> M B) tokens index e :
  c tokens index = Raise e -> bind c k tokens index = Raise e.
Proof. intros H. unfold bind. rewrite H. reflexivity. Qed.

Lemma existsb_TokenType ty (types : list TokenType) :
  existsb (TokenType_eqb ty) types = true <-> ty ∈ types.
Proof.
  rewrite existsb_exists. split.
  - intros (ty' & Hin & Heq). apply TokenType_eqb_eq in Heq. subst.
    apply list_elem_of_In, Hin.
  - intros Hin. exists ty. split; [apply list_elem_of_In, Hin|apply TokenType_eqb_refl].
Qed.

Lemma _match_hit types tokens index :
  at_cursor tokens index types ->
  _match types tokens index = Ok (true, (index + 1)%Z).
Proof.
  intros (t & Ht & Hin). rewrite _match_spec, Ht.
  apply existsb_TokenType in Hin. rewrite Hin. reflexivity.
Qed.

Lemma _match_miss types tokens index :
  ~ at_cursor tokens index types ->
  _match types tokens index = Ok (false, index).
Proof.
  intros Hno. rewrite _match_spec.
  destruct (_safe_get tokens index) as [t|] eqn:Ht; [|reflexivity].
  destruct (existsb (TokenType_eqb (token_type t)) types) eqn:He; [|reflexivity].
  exfalso. apply Hno. exists t. split; [exact Ht|apply existsb_TokenType, He].
Qed.

Lemma _match_cases types tokens index :
  (at_cursor tokens index types /\ (index < Z.of_nat (length tokens))%Z /\
   _match types tokens index = Ok (true, (index + 1)%Z))
  \/ (~ at_cursor tokens index types /\ _match types tokens index = Ok (false, index)).
Proof.
  rewrite _match_spec.
  destruct (_safe_get tokens index) as [t|] eqn:Ht.
  - destruct (existsb (TokenType_eqb (token_type t)) types) eqn:He.
    + left. split; [|split; [|reflexivity]].
      * exists t. split; [exact Ht|apply existsb_TokenType, He].
      * eapply _safe_get_Some_lt, Ht.
    + right. split; [|reflexivity].
      intros (t' & Ht' & Hin). rewrite Ht in Ht'. injection Ht' as <-.
      apply existsb_TokenType in Hin. congruence.
  - right. split; [|reflexivity]. intros (t' & Ht' & _). congruence.
Qed.

(** Membership in a list of token types, by computation. *)
Ltac type_in := apply existsb_TokenType; reflexivity.
Ltac type_not_in :=
  let H := fresh in intros H; apply existsb_TokenType in H; discriminate H.
(** Membership in a list written out. *)
Ltac elem := repeat first [apply list_elem_of_here|apply list_elem_of_further].

Lemma _prev_after tokens index :
  _prev tokens (index + 1)%Z = Ok (_safe_get tokens index, (index + 1)%Z).
Proof. unfold _prev. replace (index + 1 - 1)%Z with index by lia. reflexivity. Qed.

Lemma at_cursor_token tokens index t (types : list TokenType) :
  _safe_get tokens index = Some t ->
  existsb (TokenType_eqb (token_type t)) types = true ->
  at_cursor tokens index types.
Proof. intros Ht He. exists t. split; [exact Ht|apply existsb_TokenType, He]. Qed.

Lemma absent_token tokens index t (types : list TokenType) :
  _safe_get tokens index = Some t ->
  existsb (TokenType_eqb (token_type t)) types = false ->
  ~ at_cursor tokens index types.
Proof.
  intros Ht He (t' & Ht' & Hin). rewrite Ht in Ht'. injection Ht' as <-.
  apply existsb_TokenType in Hin. congruence.
Qed.

Lemma absent_none tokens index (types : list TokenType) :
  _safe_get tokens index = None -> ~ at_cursor tokens index types.
Proof. intros Ht (t' & Ht' & _). congruence. Qed.

Lemma is_semicolon_false t : is_semicolon t = false <-> token_type t <> SEMICOLON.
Proof.
  unfold is_semicolon. split.
  - intros H Heq. rewrite Heq in H. discriminate H.
  - intros H. destruct (TokenType_eqb (token_type t) SEMICOLON) eqn:He; [|reflexivity].
    apply TokenType_eqb_eq in He. contradiction.
Qed.

Lemma is_semicolon_true t : is_semicolon t = true <-> token_type t = SEMICOLON.
Proof. apply TokenType_eqb_eq. Qed.

Lemma plain_not_semicolon tokens :
  plain tokens -> Forall (fun t => is_semicolon t = false) tokens.
Proof.
  intros H. eapply Forall_impl; [exact H|]. intros t. apply is_semicolon_false.
Qed.

(** A sequence without a terminator is a single chunk, itself. *)
Lemma split_chunks_plain raw_tokens :
  plain raw_tokens -> split_chunks raw_tokens = [raw_tokens].
Proof.
  intros H. apply plain_not_semicolon in H.
  apply (fold_split_plain raw_tokens [] [] H).
Qed.

(** ** C10: termination *)

(** C10.  [parse] answers on every finite token sequence once the depth
    allows sixteen calls per token, and with more depth the answer is the
    same; [_match] moves the cursor by exactly one when it succeeds and not
    at all when it fails; no production moves the cursor left, and each
    answers at a depth linear in the tokens to the right of the cursor; a
    turn of a [while self._match(...)] loop (the comma loop of [_parse_csv],
    the operator loop of [_parse_tokens], the WHEN loop of [_parse_case]) and
    the recursions of [_parse_unary], [_parse_union] into [_parse_select] and
    [_parse_join] start one token to the right of a consumed token. *)
Theorem parse_terminates :
  (forall opts raw_tokens fuel,
      16 * length raw_tokens + 2 <= fuel ->
      parse opts fuel raw_tokens <> OutOfFuel /\
      forall extra, parse opts (fuel + extra) raw_tokens = parse opts fuel raw_tokens)
  /\ (forall types tokens index,
         ((index < Z.of_nat (length tokens))%Z /\
          _match types tokens index = Ok (true, (index + 1)%Z))
         \/ _match types tokens index = Ok (false, index))
  /\ (forall fns fuel p this tokens index a index',
         method (parser_at fns fuel) p this tokens index = Ok (a, index') ->
         (index <= index')%Z)
  /\ (forall fns fuel p this tokens index,
         16 * remaining tokens index + rank p <= fuel ->
         method (parser_at fns fuel) p this tokens index <> OutOfFuel)
  /\ (forall (St : Type) fuel types (body : St -> M St) s tokens index,
         while_match (S fuel) types body s tokens index = Ok (s, index)
         \/ ((index < Z.of_nat (length tokens))%Z /\
             while_match (S fuel) types body s tokens index =
               (let* s' := body s in while_match fuel types body s') tokens (index + 1)%Z))
  /\ (forall self tokens index,
         ((index < Z.of_nat (length tokens))%Z /\
          _parse_unary self tokens index =
            (let* this := parse_unary self in ret (Not this)) tokens (index + 1)%Z)
         \/ ((index < Z.of_nat (length tokens))%Z /\
             _parse_unary self tokens index =
               (let* this := parse_unary self in ret (Neg this)) tokens (index + 1)%Z)
         \/ _parse_unary self tokens index = parse_special self tokens index)
  /\ (forall self this tokens index,
         _parse_union self this tokens index = Ok (this, index)
         \/ ((index < Z.of_nat (length tokens))%Z /\
             _parse_union self this tokens index =
               (let* m := _match [ALL] in
                let* expression := parse_select self in
                ret (Union this expression (negb m))) tokens (index + 1)%Z))
  /\ (forall self this tokens index,
         exists side kind index1,
           (index <= index1)%Z /\
           (_parse_join self this tokens index = Ok (this, index1)
            \/ ((index1 < Z.of_nat (length tokens))%Z /\
                _parse_join self this tokens index =
                  (let* expression := parse_table self in
                   let* m := _match [ON] in
                   let* on := (if m then parse_expression self else ret PyNone) in
                   parse_join self (Join expression this (pyval side) (pyval kind) on))
                    tokens (index1 + 1)%Z))).
Proof.
  repeat apply conj.
  - intros opts raw_tokens fuel Hfuel.
    pose proof (parse_answers opts fuel raw_tokens Hfuel) as Hans.
    split; [exact Hans|]. intros extra. apply parse_stable; [reflexivity|exact Hans].
  - intros types tokens index.
    destruct (_match_cases types tokens index) as [(_ & Hlt & H)|(_ & H)]; [left|right]; auto.
  - intros fns fuel p this tokens index a index' H.
    apply method_never_left in H. unfold advanced in H. lia.
  - intros fns fuel p this tokens index. apply method_answers.
  - intros St fuel types body s tokens index. simpl.
    destruct (_match_cases types tokens index) as [(_ & Hlt & H)|(_ & H)].
    + right. split; [exact Hlt|]. rewrite (bind_ok _ _ _ _ _ _ H). reflexivity.
    + left. rewrite (bind_ok _ _ _ _ _ _ H). reflexivity.
  - intros self tokens index. unfold _parse_unary.
    destruct (_match_cases [NOT] tokens index) as [(_ & Hlt & H)|(_ & H)];
      rewrite (bind_ok _ _ _ _ _ _ H).
    + left. split; [exact Hlt|reflexivity].
    + right.
      destruct (_match_cases [DASH] tokens index) as [(_ & Hlt & H')|(_ & H')];
        rewrite (bind_ok _ _ _ _ _ _ H').
      * left. split; [exact Hlt|reflexivity].
      * right. reflexivity.
  - intros self this tokens index. unfold _parse_union.
    destruct (_match_cases [UNION] tokens index) as [(_ & Hlt & H)|(_ & H)];
      rewrite (bind_ok _ _ _ _ _ _ H).
    + right. split; [exact Hlt|reflexivity].
    + left. reflexivity.
  - intros self this tokens index. unfold _parse_join.
    assert (Hside : exists side index0,
               (index <= index0)%Z /\
               forall B (k : option Token -> M B),
                 (let* m := _match [LEFT; RIGHT; FULL] in
                  let* side := (if m then _prev else ret None) in k side) tokens index
                 = k side tokens index0).
    { destruct (_match_cases [LEFT; RIGHT; FULL] tokens index) as [(_ & _ & H)|(_ & H)].
      - exists (_safe_get tokens index), (index + 1)%Z. split; [lia|]. intros B k.
        rewrite (bind_ok _ _ _ _ _ _ H). rewrite (bind_ok _ _ _ _ _ _ (_prev_after _ _)).
        reflexivity.
      - exists None, index. split; [lia|]. intros B k.
        rewrite (bind_ok _ _ _ _ _ _ H). reflexivity. }
    destruct Hside as (side & index0 & Hle0 & Hside). rewrite Hside.
    assert (Hkind : exists kind index1,
               (index0 <= index1)%Z /\
               forall B (k : option Token -> M B),
                 (let* m := _match [INNER; OUTER; CROSS] in
                  let* kind := (if m then _prev else ret None) in k kind) tokens index0
                 = k kind tokens index1).
    { destruct (_match_cases [INNER; OUTER; CROSS] tokens index0) as [(_ & _ & H)|(_ & H)].
      - exists (_safe_get tokens index0), (index0 + 1)%Z. split; [lia|]. intros B k.
        rewrite (bind_ok _ _ _ _ _ _ H). rewrite (bind_ok _ _ _ _ _ _ (_prev_after _ _)).
        reflexivity.
      - exists None, index0. split; [lia|]. intros B k.
        rewrite (bind_ok _ _ _ _ _ _ H). reflexivity. }
    destruct Hkind as (kind & index1 & Hle1 & Hkind). rewrite Hkind.
    exists side, kind, index1. split; [lia|].
    destruct (_match_cases [JOIN] tokens index1) as [(_ & Hlt & H)|(_ & H)];
      rewrite (bind_ok _ _ _ _ _ _ H).
    + right. split; [exact Hlt|reflexivity].
    + left. reflexivity.
Qed.

Lemma parse_terminates_witness :
  parse ∅ 34 select_a <> OutOfFuel /\
  parse ∅ (34 + 7) select_a = parse ∅ 34 select_a /\
  parse_primary (parser_at ∅ 18) select_a 1%Z <> OutOfFuel.
Proof.
  destruct parse_terminates as (Hparse & _ & _ & Hmethod & _).
  destruct (Hparse ∅ select_a 34) as (Hans & Hstable); [simpl; lia|].
  split; [exact Hans|]. split; [apply Hstable|].
  apply (Hmethod ∅ 18 P_primary PyNone select_a 1%Z). vm_compute. lia.
Defined.

(** An answer computed at a depth holds at every greater depth. *)
Ltac at_depth :=
  intros; apply parse_stable; [vm_compute; reflexivity|discriminate].

(** ** C3: the cursor must reach the end of every chunk *)

Lemma parse_chunks_app self before rest expressions :
  parse_chunks self (before ++ rest) expressions =
    match parse_chunks self before expressions with
    | Ok es => parse_chunks self rest es
    | Raise e => Raise e
    | OutOfFuel => OutOfFuel
    end.
Proof.
  revert expressions. induction before as [|tokens before IH]; intros expressions; simpl;
    [reflexivity|].
  destruct (parse_statement self tokens (-1 + 1)%Z) as [[e index]| |]; try reflexivity.
  destruct (index <? Z.of_nat (length tokens))%Z; [reflexivity|apply IH].
Qed.

Lemma parse_chunks_Ok fns fuel chunks expressions es :
  parse_chunks (parser_at fns fuel) chunks expressions = Ok es ->
  exists es',
    es = expressions ++ es' /\
    Forall2 (fun chunk e =>
               parse_statement (parser_at fns fuel) chunk 0%Z
               = Ok (e, Z.of_nat (length chunk)))
            chunks es'.
Proof.
  revert expressions. induction chunks as [|tokens chunks IH]; intros expressions; simpl.
  - intros [= <-]. exists []. rewrite app_nil_r. split; [reflexivity|constructor].
  - destruct (parse_statement (parser_at fns fuel) tokens (-1 + 1)%Z)
      as [[e index]| |] eqn:Hs; try discriminate.
    destruct (index <? Z.of_nat (length tokens))%Z eqn:Hlt; [discriminate|].
    intros H. destruct (IH _ H) as (es' & -> & Hall).
    exists (e :: es'). rewrite <- app_assoc. split; [reflexivity|].
    constructor; [|exact Hall].
    pose proof (parse_statement_within _ _ _ _ _ Hs) as Hin.
    change (-1 + 1)%Z with 0%Z in Hs. rewrite Hs. do 2 f_equal. lia.
Qed.

(** C3.  [parse] returns a list only when the dispatcher left the cursor at
    the end of every chunk; when the chunks before one parsed and the
    dispatcher leaves a token of that chunk unconsumed, [parse] raises the
    error that names the token under the cursor, and when the dispatcher
    raises there, [parse] raises the same error: an error comes with no
    results. *)
Theorem parse_consumes_every_chunk opts fuel raw_tokens :
  let self := parser_at (opts ∪ FUNCTIONS) fuel in
  (forall es,
      parse opts fuel raw_tokens = Ok es ->
      Forall2 (fun chunk e =>
                 parse_statement self chunk 0%Z = Ok (e, Z.of_nat (length chunk)))
              (split_chunks raw_tokens) es)
  /\ (forall before chunk after es e index,
         split_chunks raw_tokens = before ++ chunk :: after ->
         parse_chunks self before [] = Ok es ->
         parse_statement self chunk 0%Z = Ok (e, index) ->
         (index < Z.of_nat (length chunk))%Z ->
         exists t,
           chunk !! Z.to_nat index = Some t /\
           parse opts fuel raw_tokens =
             Raise (ValueError "Invalid expression {self._curr}" (Some (Tok t))))
  /\ (forall before chunk after es err,
         split_chunks raw_tokens = before ++ chunk :: after ->
         parse_chunks self before [] = Ok es ->
         parse_statement self chunk 0%Z = Raise err ->
         parse opts fuel raw_tokens = Raise err).
Proof.
  intros self. repeat apply conj.
  - intros es H. apply parse_chunks_Ok in H. destruct H as (es' & -> & Hall). exact Hall.
  - intros before chunk after es e index Hsplit Hbefore Hs Hlt.
    pose proof (parse_statement_within _ _ _ _ _ Hs) as Hin.
    destruct (chunk !! Z.to_nat index) as [t|] eqn:Ht.
    + exists t. split; [reflexivity|].
      unfold parse. fold self. rewrite Hsplit, parse_chunks_app, Hbefore. simpl.
      change (-1 + 1)%Z with 0%Z. rewrite Hs.
      apply Z.ltb_lt in Hlt. rewrite Hlt.
      rewrite _safe_get_nonneg by lia. rewrite Ht. reflexivity.
    + apply lookup_ge_None in Ht. lia.
  - intros before chunk after es err Hsplit Hbefore Hs.
    unfold parse. fold self. rewrite Hsplit, parse_chunks_app, Hbefore. simpl.
    change (-1 + 1)%Z with 0%Z. rewrite Hs. reflexivity.
Qed.

Lemma parse_consumes_every_chunk_witness :
  parse_statement (parser_at (∅ ∪ FUNCTIONS) 40) select_a 0%Z
    = Ok (Select [col_ "a"], 2%Z)
  /\ parse ∅ 40 select_a_paren
     = Raise (ValueError "Invalid expression {self._curr}" (Some (Tok (tk R_PAREN ")"))))
  /\ parse ∅ 40 select_a_group = Raise (ValueError "Expecting BY" None).
Proof.
  repeat apply conj.
  - destruct (parse_consumes_every_chunk ∅ 40 select_a) as (H & _).
    specialize (H [Select [col_ "a"]]).
    assert (Hp : parse ∅ 40 select_a = Ok [Select [col_ "a"]]) by (vm_compute; reflexivity).
    specialize (H Hp). change (split_chunks select_a) with [select_a] in H.
    apply Forall2_cons_1 in H. destruct H as (H & _). exact H.
  - destruct (parse_consumes_every_chunk ∅ 40 select_a_paren) as (_ & H & _).
    destruct (H [] select_a_paren [] [] (Select [col_ "a"]) 2%Z) as (t & Ht & Hr).
    + vm_compute. reflexivity.
    + reflexivity.
    + vm_compute. reflexivity.
    + vm_compute. reflexivity.
    + vm_compute in Ht. injection Ht as <-. exact Hr.
  - destruct (parse_consumes_every_chunk ∅ 40 select_a_group) as (_ & _ & H).
    apply (H [] select_a_group [] []).
    + vm_compute. reflexivity.
    + reflexivity.
    + vm_compute. reflexivity.
Defined.

(** ** C1: where the splitter puts a terminator *)

Lemma _safe_get_head t rest : _safe_get (t :: rest) 0%Z = Some t.
Proof. reflexivity. Qed.

Lemma parse_chunks_semicolon_headed fns fuel chunk rest expressions es :
  semicolon_headed chunk ->
  parse_chunks (parser_at fns fuel) (chunk :: rest) expressions <> Ok es.
Proof.
  intros (t & r & -> & Hty). simpl. change (-1 + 1)%Z with 0%Z.
  destruct fuel as [|[|fuel]].
  - discriminate.
  - cbn [parser_at parse_statement]. unfold _parse_statement.
    rewrite (bind_ok _ _ _ _ false 0%Z).
    + discriminate.
    + rewrite _match_spec, _safe_get_head, Hty. reflexivity.
  - cbn [parser_at parse_statement]. unfold _parse_statement.
    rewrite (bind_ok _ _ _ _ false 0%Z).
    + cbn [negb parser_at parse_select]. unfold _parse_select.
      rewrite (bind_ok _ _ _ _ false 0%Z).
      * discriminate.
      * rewrite _match_spec, _safe_get_head, Hty. reflexivity.
    + rewrite _match_spec, _safe_get_head, Hty. reflexivity.
Qed.

Lemma parse_chunks_after_semicolon fns fuel first rest expressions es :
  rest <> [] -> Forall semicolon_headed rest ->
  parse_chunks (parser_at fns fuel) (first :: rest) expressions <> Ok es.
Proof.
  intros Hne Hall. destruct rest as [|chunk rest]; [congruence|].
  apply Forall_inv in Hall.
  change (first :: chunk :: rest) with ([first] ++ chunk :: rest).
  rewrite parse_chunks_app.
  destruct (parse_chunks (parser_at fns fuel) [first] expressions); try discriminate.
  apply parse_chunks_semicolon_headed, Hall.
Qed.

(** C1.  On a token sequence with a terminator, the splitter keeps the tokens
    in order but opens the new chunk before it stores the terminator: every
    chunk after the first begins with the terminator that should have closed
    the chunk before it.  No production consumes a terminator, so [parse]
    returns no list at any depth, and raises once the depth suffices. *)
Theorem parse_semicolon_fails opts fuel raw_tokens :
  (exists t, t ∈ raw_tokens /\ token_type t = SEMICOLON) ->
  concat (split_chunks raw_tokens) = raw_tokens
  /\ 1 < length (split_chunks raw_tokens)
  /\ Forall semicolon_headed (tail (split_chunks raw_tokens))
  /\ (forall es, parse opts fuel raw_tokens <> Ok es)
  /\ (16 * length raw_tokens + 2 <= fuel -> exists e, parse opts fuel raw_tokens = Raise e).
Proof.
  intros (t & Hin & Hty).
  assert (Hlen : 1 < length (split_chunks raw_tokens)).
  { rewrite split_chunks_length.
    assert (Hf : t ∈ filter (fun t => is_semicolon t = true) raw_tokens).
    { apply list_elem_of_filter. split; [|exact Hin].
      unfold is_semicolon. rewrite Hty. reflexivity. }
    destruct (filter _ raw_tokens); [inversion Hf|simpl; lia]. }
  assert (Hnot : forall es, parse opts fuel raw_tokens <> Ok es).
  { intros es. unfold parse.
    pose proof (split_chunks_tail raw_tokens) as Htail.
    destruct (split_chunks raw_tokens) as [|first rest]; [simpl in Hlen; lia|].
    apply parse_chunks_after_semicolon; [|exact Htail].
    destruct rest; [simpl in Hlen; lia|discriminate]. }
  repeat apply conj; [apply split_chunks_concat|exact Hlen|apply split_chunks_tail|exact Hnot|].
  intros Hfuel. pose proof (parse_answers opts fuel raw_tokens Hfuel) as Hans.
  destruct (parse opts fuel raw_tokens) as [es|e|] eqn:Hp.
  - exfalso. apply (Hnot es). reflexivity.
  - exists e. reflexivity.
  - congruence.
Qed.

Lemma parse_semicolon_fails_witness :
  split_chunks select_a_semicolon_select_b
    = [select_a; [tk SEMICOLON ";"; tk SELECT "SELECT"; var "b"]]
  /\ (forall es, parse ∅ 100 select_a_semicolon_select_b <> Ok es)
  /\ parse ∅ 100 select_a_semicolon_select_b
     = Raise (ValueError "Invalid expression {self._curr}"
                (Some (Tok (tk SEMICOLON ";")))).
Proof.
  destruct (parse_semicolon_fails ∅ 100 select_a_semicolon_select_b)
    as (_ & _ & _ & Hnot & _).
  - exists (tk SEMICOLON ";"). split; [|reflexivity].
    unfold select_a_semicolon_select_b, select_a. elem.
  - split; [reflexivity|]. split; [exact Hnot|]. vm_compute. reflexivity.
Defined.

(** ** C2: a join side or kind keyword without JOIN *)

(** C2.  When a side keyword is under the cursor and neither a kind keyword
    nor JOIN follows it, [_parse_join] returns the node it was given with the
    cursor past the side keyword: the keyword is consumed and left out, and
    [SELECT a FROM t LEFT] parses to the tree of [SELECT a FROM t]. *)
Theorem join_side_without_join_is_dropped :
  (forall self this tokens index,
      at_cursor tokens index [LEFT; RIGHT; FULL] ->
      ~ at_cursor tokens (index + 1) [INNER; OUTER; CROSS] ->
      ~ at_cursor tokens (index + 1) [JOIN] ->
      _parse_join self this tokens index = Ok (this, (index + 1)%Z))
  /\ (forall fuel,
         parse ∅ (40 + fuel) (select_a_from_t ++ [tk LEFT "LEFT"])
         = Ok [From (tbl "t") (Select [col_ "a"])])
  /\ (forall fuel,
         parse ∅ (40 + fuel) select_a_from_t
         = Ok [From (tbl "t") (Select [col_ "a"])]).
Proof.
  repeat apply conj; [|at_depth|at_depth].
  intros self this tokens index Hside Hkind Hjoin. unfold _parse_join.
  rewrite (bind_ok _ _ _ _ _ _ (_match_hit _ _ _ Hside)).
  rewrite (bind_ok _ _ _ _ _ _ (_prev_after _ _)).
  rewrite (bind_ok _ _ _ _ _ _ (_match_miss _ _ _ Hkind)).
  unfold bind at 1. cbn [ret].
  rewrite (bind_ok _ _ _ _ _ _ (_match_miss _ _ _ Hjoin)).
  reflexivity.
Qed.

Lemma join_side_without_join_is_dropped_witness :
  _parse_join (parser_at FUNCTIONS 40) (tbl "t") (select_a_from_t ++ [tk LEFT "LEFT"]) 4%Z
  = Ok (tbl "t", 5%Z).
Proof.
  destruct join_side_without_join_is_dropped as (H & _).
  apply (H (parser_at FUNCTIONS 40) (tbl "t") (select_a_from_t ++ [tk LEFT "LEFT"]) 4%Z).
  - exists (tk LEFT "LEFT"). split; [reflexivity|type_in].
  - intros (t & Ht & _). vm_compute in Ht. discriminate Ht.
  - intros (t & Ht & _). vm_compute in Ht. discriminate Ht.
Defined.

(** ** C6: binary operators associate to the left *)

Lemma op_token_type_inj e e' : op_token_type e = op_token_type e' -> e = e'.
Proof. destruct e, e'; simpl; intros H; try reflexivity; discriminate H. Qed.

Lemma dict_get_set k v d k' :
  dict_get (dict_set k v d) k' = if TokenType_eqb k' k then Some v else dict_get d k'.
Proof.
  induction d as [|[k1 v1] d IH]; simpl; [reflexivity|].
  destruct (TokenType_eqb k k1) eqn:Hk; simpl.
  - apply TokenType_eqb_eq in Hk. subst k1.
    destruct (TokenType_eqb k' k); reflexivity.
  - rewrite IH. destruct (TokenType_eqb k' k1) eqn:Hk1; [|reflexivity].
    apply TokenType_eqb_eq in Hk1. subst k1.
    destruct (TokenType_eqb k' k) eqn:Hk'; [|reflexivity].
    apply TokenType_eqb_eq in Hk'. subst k'. rewrite TokenType_eqb_refl in Hk. discriminate.
Qed.

Lemma dict_keys d k :
  existsb (TokenType_eqb k) (map fst d) =
    match dict_get d k with Some _ => true | None => false end.
Proof.
  induction d as [|[k1 v1] d IH]; simpl; [reflexivity|].
  destruct (TokenType_eqb k k1); [reflexivity|exact IH].
Qed.

(** The dict of a tier holds exactly the classes of the tier, each under its
    own token type. *)
Lemma fold_dict_get expressions :
  forall d k e,
    dict_get (fold_left (fun d e => dict_set (op_token_type e) e d) expressions d) k = Some e
    <-> (e ∈ expressions /\ op_token_type e = k)
        \/ ((forall e', e' ∈ expressions -> op_token_type e' <> k) /\ dict_get d k = Some e).
Proof.
  induction expressions as [|e0 expressions IH]; intros d k e; simpl.
  - split.
    + intros H. right. split; [|exact H]. intros e' He'. inversion He'.
    + intros [[He _]|[_ H]]; [inversion He|exact H].
  - rewrite IH, dict_get_set. split.
    + intros [[He Hk]|[Hno Hd]].
      * left. split; [right; exact He|exact Hk].
      * destruct (TokenType_eqb k (op_token_type e0)) eqn:Hk0.
        -- injection Hd as <-. apply TokenType_eqb_eq in Hk0.
           left. split; [left|symmetry; exact Hk0].
        -- right. split; [|exact Hd].
           intros e' He'. apply elem_of_cons in He'. destruct He' as [->|He']; [|apply Hno, He'].
           intros Heq. rewrite <- Heq, TokenType_eqb_refl in Hk0. discriminate.
    + intros [[He Hk]|[Hno Hd]].
      * destruct (decide (e ∈ expressions)) as [Hin|Hnin].
        -- left. split; [exact Hin|exact Hk].
        -- apply elem_of_cons in He. destruct He as [->|He]; [|contradiction].
           right. split.
           ++ intros e' He' Hk'. apply Hnin.
              assert (e' = e0) by (apply op_token_type_inj; congruence). subst e'. exact He'.
           ++ rewrite <- Hk, TokenType_eqb_refl. reflexivity.
      * right. split.
        -- intros e' He'. apply Hno. right. exact He'.
        -- destruct (TokenType_eqb k (op_token_type e0)) eqn:Hk0; [|exact Hd].
           apply TokenType_eqb_eq in Hk0. exfalso. apply (Hno e0); [left|symmetry; exact Hk0].
Qed.

Lemma by_token_type_get expressions e :
  e ∈ expressions -> dict_get (by_token_type expressions) (op_token_type e) = Some e.
Proof. intros He. apply fold_dict_get. left. split; [exact He|reflexivity]. Qed.

Lemma by_token_type_keys expressions tokens index :
  at_cursor tokens index (map fst (by_token_type expressions))
  <-> at_cursor tokens index (map op_token_type expressions).
Proof.
  assert (Hk : forall k, k ∈ map fst (by_token_type expressions)
                         <-> k ∈ map op_token_type expressions).
  { intros k. rewrite <- existsb_TokenType, dict_keys. rewrite list_elem_of_fmap. split.
    - destruct (dict_get (by_token_type expressions) k) as [e|] eqn:Hg; [|discriminate].
      intros _. apply fold_dict_get in Hg. destruct Hg as [[He Hty]|[_ Hg]]; [|discriminate].
      exists e. split; [symmetry; exact Hty|exact He].
    - intros (e & -> & He). rewrite (by_token_type_get _ _ He). reflexivity. }
  split; intros (t & Ht & Hin); exists t; (split; [exact Ht|apply Hk, Hin]).
Qed.

Lemma while_match_chain parse expressions tokens index steps index' :
  Chain parse expressions tokens index steps index' ->
  forall fuel this,
    length steps < fuel ->
    while_match fuel (map fst (by_token_type expressions))
      (fun this =>
         let* prev := _prev in
         match prev with
         | None => raise (AttributeError "token_type")
         | Some prev =>
           match dict_get (by_token_type expressions) (token_type prev) with
           | None => raise (KeyError (token_type prev))
           | Some e => let* expression := parse in ret (Binary e this expression)
           end
         end)
      this tokens index
    = Ok (left_nested this steps, index').
Proof.
  induction 1 as [index Hno|index t e rhs index1 steps index2 Ht He Hty Hrhs Hchain IH];
    intros fuel this Hfuel; (destruct fuel as [|fuel]; [simpl in Hfuel; lia|]); simpl.
  - rewrite (bind_ok _ _ _ _ false index); [reflexivity|].
    apply _match_miss. rewrite by_token_type_keys. exact Hno.
  - rewrite (bind_ok _ _ _ _ true (index + 1)%Z).
    + rewrite (bind_ok _ _ _ _ (Binary e this rhs) index1).
      * apply IH. simpl in Hfuel. lia.
      * rewrite (bind_ok _ _ _ _ _ _ (_prev_after _ _)). rewrite Ht, Hty.
        rewrite (by_token_type_get _ _ He).
        rewrite (bind_ok _ _ _ _ _ _ Hrhs). reflexivity.
    + apply _match_hit. rewrite by_token_type_keys. exists t. split; [exact Ht|].
      rewrite Hty. apply list_elem_of_fmap. exists e. split; [reflexivity|exact He].
Qed.

(** C6.  Whatever the operand parser and the operator classes of a tier are,
    [_parse_tokens] returns the left-nested tree of the chain it reads; the
    five binary tiers are [_parse_tokens] at their operand parser and
    classes; [a - b - c] parses as [(a - b) - c] and not as [a - (b - c)],
    and so does a chain of each other tier. *)
Theorem binary_chains_are_left_associative :
  (forall fuel parse expressions tokens index first index1 steps index2,
      parse tokens index = Ok (first, index1) ->
      Chain parse expressions tokens index1 steps index2 ->
      length steps < fuel ->
      _parse_tokens fuel parse expressions tokens index
      = Ok (left_nested first steps, index2))
  /\ (forall a e1 b e2 c,
         left_nested a [(e1, b); (e2, c)] = Binary e2 (Binary e1 a b) c)
  /\ (forall self,
         _parse_conjunction self
         = _parse_tokens (depth self) (parse_equality self) [And; Or]
         /\ _parse_equality self
            = _parse_tokens (depth self) (parse_comparison self) [EQ_; NEQ_; Is]
         /\ _parse_comparison self
            = _parse_tokens (depth self) (parse_range self) [GT_; GTE_; LT_; LTE_]
         /\ _parse_term self
            = _parse_tokens (depth self) (parse_factor self) [Minus; Plus]
         /\ _parse_factor self
            = _parse_tokens (depth self) (parse_unary self) [Slash; Star])
  /\ (forall fuel,
         parse ∅ (40 + fuel) (binary_chain "a" DASH "b" DASH "c")
         = Ok [Select [Binary Minus (Binary Minus (col_ "a") (col_ "b")) (col_ "c")]]
         /\ parse ∅ (40 + fuel) (binary_chain "a" DASH "b" DASH "c")
            <> Ok [Select [Binary Minus (col_ "a") (Binary Minus (col_ "b") (col_ "c"))]])
  /\ (forall e1 e2 fuel,
         (e1 ∈ [And; Or] /\ e2 ∈ [And; Or])
         \/ (e1 ∈ [EQ_; NEQ_; Is] /\ e2 ∈ [EQ_; NEQ_; Is])
         \/ (e1 ∈ [GT_; GTE_; LT_; LTE_] /\ e2 ∈ [GT_; GTE_; LT_; LTE_])
         \/ (e1 ∈ [Minus; Plus] /\ e2 ∈ [Minus; Plus])
         \/ (e1 ∈ [Slash; Star] /\ e2 ∈ [Slash; Star]) ->
         parse ∅ (40 + fuel)
           (binary_chain "a" (op_token_type e1) "b" (op_token_type e2) "c")
         = Ok [Select [Binary e2 (Binary e1 (col_ "a") (col_ "b")) (col_ "c")]]).
Proof.
  repeat apply conj.
  - intros fuel parse expressions tokens index first index1 steps index2 Hfirst Hchain Hfuel.
    unfold _parse_tokens. rewrite (bind_ok _ _ _ _ _ _ Hfirst). cbv zeta.
    apply while_match_chain; assumption.
  - reflexivity.
  - intros self. repeat split.
  - intros fuel.
    assert (H : parse ∅ (40 + fuel) (binary_chain "a" DASH "b" DASH "c")
                = Ok [Select [Binary Minus (Binary Minus (col_ "a") (col_ "b")) (col_ "c")]])
      by at_depth.
    split; [exact H|]. rewrite H. discriminate.
  - intros e1 e2 fuel Htier.
    repeat rewrite elem_of_cons in Htier. setoid_rewrite elem_of_nil in Htier.
    destruct e1, e2; try (exfalso; clear -Htier; intuition congruence); at_depth.
Qed.

Lemma binary_chains_are_left_associative_witness :
  _parse_tokens 3 (_parse_column (parser_at FUNCTIONS 2)) [Minus; Plus]
    (binary_chain "a" DASH "b" DASH "c") 1%Z
  = Ok (Binary Minus (Binary Minus (col_ "a") (col_ "b")) (col_ "c"), 6%Z)
  /\ parse ∅ 40 (binary_chain "a" EQ "b" NEQ "c")
     = Ok [Select [Binary NEQ_ (Binary EQ_ (col_ "a") (col_ "b")) (col_ "c")]].
Proof.
  destruct binary_chains_are_left_associative as (Hgen & _ & _ & _ & Htiers).
  split.
  - apply (Hgen 3 _ [Minus; Plus] _ 1%Z (col_ "a") 2%Z
             [(Minus, col_ "b"); (Minus, col_ "c")] 6%Z).
    + vm_compute. reflexivity.
    + eapply (Chain_step _ _ _ 2%Z (tk DASH "op") Minus (col_ "b") 4%Z);
        [reflexivity|elem|reflexivity|vm_compute; reflexivity|].
      eapply (Chain_step _ _ _ 4%Z (tk DASH "op") Minus (col_ "c") 6%Z);
        [reflexivity|elem|reflexivity|vm_compute; reflexivity|].
      apply Chain_end. intros (t & Ht & _). vm_compute in Ht. discriminate Ht.
    + simpl. lia.
  - apply (Htiers EQ_ NEQ_ 0). right. left. split; elem.
Defined.

(** ** C7: JOIN chains nest to the left *)

(** C7.  With JOIN under the cursor, [_parse_join] reads a table and calls
    itself on the Join node whose [this] is that table and whose [expression]
    is the node it was given; so [FROM a JOIN b JOIN c] yields a Join whose
    [this] is the table [c] and whose [expression] is the Join of [b] onto
    the FROM over [a]. *)
Theorem join_chains_are_left_nested :
  (forall self this tokens index,
      at_cursor tokens index [JOIN] ->
      _parse_join self this tokens index
      = (let* expression := parse_table self in
         let* m := _match [ON] in
         let* on := (if m then parse_expression self else ret PyNone) in
         parse_join self (Join expression this PyNone PyNone on))
          tokens (index + 1)%Z)
  /\ (forall fuel,
         parse ∅ (40 + fuel) from_a_join_b_join_c
         = Ok [Join (tbl "c")
                 (Join (tbl "b") (From (tbl "a") (Select [col_ "x"]))
                    PyNone PyNone PyNone)
                 PyNone PyNone PyNone]).
Proof.
  split; [|at_depth].
  intros self this tokens index Hjoin. unfold _parse_join.
  assert (Hside : ~ at_cursor tokens index [LEFT; RIGHT; FULL]).
  { destruct Hjoin as (t & Ht & Hty). intros (t' & Ht' & Hty').
    rewrite Ht in Ht'. injection Ht' as <-.
    apply existsb_TokenType in Hty, Hty'. destruct (token_type t); discriminate. }
  assert (Hkind : ~ at_cursor tokens index [INNER; OUTER; CROSS]).
  { destruct Hjoin as (t & Ht & Hty). intros (t' & Ht' & Hty').
    rewrite Ht in Ht'. injection Ht' as <-.
    apply existsb_TokenType in Hty, Hty'. destruct (token_type t); discriminate. }
  rewrite (bind_ok _ _ _ _ _ _ (_match_miss _ _ _ Hside)).
  unfold bind at 1. cbn [ret].
  rewrite (bind_ok _ _ _ _ _ _ (_match_miss _ _ _ Hkind)).
  unfold bind at 1. cbn [ret].
  rewrite (bind_ok _ _ _ _ _ _ (_match_hit _ _ _ Hjoin)).
  reflexivity.
Qed.

Lemma join_chains_are_left_nested_witness :
  _parse_join (parser_at FUNCTIONS 40) (From (tbl "a") (Select [col_ "x"]))
    from_a_join_b_join_c 4%Z
  = Ok (Join (tbl "c")
          (Join (tbl "b") (From (tbl "a") (Select [col_ "x"])) PyNone PyNone PyNone)
          PyNone PyNone PyNone, 8%Z).
Proof.
  destruct join_chains_are_left_nested as (H & _).
  rewrite (H (parser_at FUNCTIONS 40) _ from_a_join_b_join_c 4%Z).
  - vm_compute. reflexivity.
  - exists (tk JOIN "JOIN"). split; [reflexivity|type_in].
Defined.

(** ** C5: function calls *)

(** C5.  With a name under the cursor and an opening parenthesis after it:
    a quoted name raises whatever the registry holds; an unquoted name of
    ASCII characters is uppercased and looked up, a name the registry lacks
    raises the error that carries the name token, and a registered name has
    its builder applied to the comma-separated expressions that follow.
    [SUM(x)], in either case of letters, is the Sum node over the column [x];
    [NOTAFUNC(x)] and a quoted name fail. *)
Theorem function_call_dispatch :
  (forall self tokens index name,
      _safe_get tokens index = Some name ->
      at_cursor tokens (index + 1) [L_PAREN] ->
      (token_type name = IDENTIFIER ->
       _parse_column self tokens index = Raise (ValueError "Unexpected (" None))
      /\ (token_type name = VAR ->
          ascii_text (text name) = true ->
          functions self !! upper (text name) = None ->
          _parse_column self tokens index
          = Raise (ValueError "Unrecognized function name {this}" (Some (Tok name))))
      /\ (token_type name = VAR ->
          ascii_text (text name) = true ->
          forall builder,
            functions self !! upper (text name) = Some builder ->
            _parse_column self tokens index
            = (let* args := _parse_csv (depth self) (parse_expression self) in
               let* function := lift (builder args) in
               let* m := _match [R_PAREN] in
               if negb m
               then raise (ValueError "Expected ) after function {this}" (Some (Tok name)))
               else ret function) tokens (index + 1 + 1)%Z))
  /\ (forall fuel,
         parse ∅ (40 + fuel) (call_of (var "SUM") "x")
         = Ok [Select [Func Sum (col_ "x")]])
  /\ (forall fuel,
         parse ∅ (40 + fuel) (call_of (var "sum") "x")
         = Ok [Select [Func Sum (col_ "x")]])
  /\ (forall fuel,
         parse ∅ (40 + fuel) (call_of (var "NOTAFUNC") "x")
         = Raise (ValueError "Unrecognized function name {this}"
                    (Some (Tok (var "NOTAFUNC")))))
  /\ (forall opts fuel,
         parse opts (40 + fuel) (call_of (tk IDENTIFIER "quoted_name") "x")
         = Raise (ValueError "Unexpected (" None))
  /\ (forall opts fuel,
         parse opts (40 + fuel) (call_of (tk IDENTIFIER "SUM") "x")
         = Raise (ValueError "Unexpected (" None)).
Proof.
  split; [|repeat apply conj; at_depth].
  intros self tokens index name Hname Hparen.
  assert (Hcol : token_type name = VAR \/ token_type name = IDENTIFIER ->
             _parse_column self tokens index
             = (if TokenType_eqb (token_type name) IDENTIFIER
                then raise (ValueError "Unexpected (" None)
                else
                  match functions self !! upper (text name) with
                  | None =>
                    raise (ValueError "Unrecognized function name {this}" (Some (Tok name)))
                  | Some function =>
                    let* args := _parse_csv (depth self) (parse_expression self) in
                    let* function := lift (function args) in
                    let* m := _match [R_PAREN] in
                    if negb m
                    then raise (ValueError "Expected ) after function {this}"
                                  (Some (Tok name)))
                    else ret function
                  end) tokens (index + 1 + 1)%Z).
  { intros Hty. unfold _parse_column.
    rewrite (bind_ok _ _ _ _ true (index + 1)%Z).
    2:{ apply _match_hit. exists name. split; [exact Hname|].
        destruct Hty as [-> | ->]; type_in. }
    cbn [negb]. rewrite (bind_ok _ _ _ _ _ _ (_prev_after _ _)).
    rewrite (bind_ok _ _ _ _ _ _ (_match_hit _ _ _ Hparen)).
    rewrite Hname. reflexivity. }
  repeat apply conj.
  - intros Hty. rewrite Hcol by (right; exact Hty). rewrite Hty. reflexivity.
  - intros Hty _ Hnone. rewrite Hcol by (left; exact Hty). rewrite Hty, Hnone. reflexivity.
  - intros Hty _ builder Hsome. rewrite Hcol by (left; exact Hty).
    rewrite Hty, Hsome. reflexivity.
Qed.

Lemma function_call_dispatch_witness :
  _parse_column (parser_at FUNCTIONS 40) (call_of (tk IDENTIFIER "SUM") "x") 1%Z
  = Raise (ValueError "Unexpected (" None)
  /\ _parse_column (parser_at FUNCTIONS 40) (call_of (var "NOTAFUNC") "x") 1%Z
     = Raise (ValueError "Unrecognized function name {this}" (Some (Tok (var "NOTAFUNC"))))
  /\ _parse_column (parser_at FUNCTIONS 40) (call_of (var "sum") "x") 1%Z
     = Ok (Func Sum (col_ "x"), 5%Z).
Proof.
  destruct function_call_dispatch as (Hgen & _).
  repeat apply conj.
  - destruct (Hgen (parser_at FUNCTIONS 40) (call_of (tk IDENTIFIER "SUM") "x") 1%Z
                (tk IDENTIFIER "SUM")) as (Hq & _).
    + reflexivity.
    + exists (tk L_PAREN "("). split; [reflexivity|type_in].
    + apply Hq. reflexivity.
  - destruct (Hgen (parser_at FUNCTIONS 40) (call_of (var "NOTAFUNC") "x") 1%Z
                (var "NOTAFUNC")) as (_ & Hu & _).
    + reflexivity.
    + exists (tk L_PAREN "("). split; [reflexivity|type_in].
    + apply Hu; [reflexivity|reflexivity|vm_compute; reflexivity].
  - destruct (Hgen (parser_at FUNCTIONS 40) (call_of (var "sum") "x") 1%Z
                (var "sum")) as (_ & _ & Hb).
    + reflexivity.
    + exists (tk L_PAREN "("). split; [reflexivity|type_in].
    + rewrite (Hb eq_refl eq_refl (build1 Sum)); [|vm_compute; reflexivity].
      vm_compute. reflexivity.
Defined.

(** ** C8: CAST takes a type keyword *)

(** C8, as the code has it.  [_parse_cast] returns a node exactly on an
    opening parenthesis, what [_parse_conjunction] reads, AS, a token whose
    type is one of the thirteen type keywords and a closing parenthesis, and
    the node is the Cast of what was read to that token, whatever the operand
    is; without the opening parenthesis, the AS, the type keyword or the
    closing parenthesis it raises the error of the missing part, and after
    AS a token of another type, or none, raises the type error.
    [CAST(x AS t)] parses to the Cast to the token [t] for each of the
    thirteen keywords, and raises the type error for every other token type,
    FOOBAR (an unquoted name) among them.  The operand may be missing:
    [_parse_conjunction] reads nothing and returns None, and the Cast is of
    None. *)
Theorem cast_requires_a_type_token :
  TYPE_TOKENS = [BOOLEAN; TINYINT; SMALLINT; INT; BIGINT; FLOAT; DOUBLE; DECIMAL;
                 CHAR; VARCHAR; TEXT; BINARY; JSON]
  /\ (forall self tokens index e index',
         _parse_cast self tokens index = Ok (e, index') ->
         exists this index1 ty,
           at_cursor tokens index [L_PAREN]
           /\ parse_conjunction self tokens (index + 1)%Z = Ok (this, index1)
           /\ at_cursor tokens index1 [ALIAS]
           /\ _safe_get tokens (index1 + 1)%Z = Some ty
           /\ token_type ty ∈ TYPE_TOKENS
           /\ at_cursor tokens (index1 + 1 + 1)%Z [R_PAREN]
           /\ e = Cast this (Tok ty)
           /\ index' = (index1 + 1 + 1 + 1)%Z)
  /\ (forall self tokens index this index1 ty,
         at_cursor tokens index [L_PAREN] ->
         parse_conjunction self tokens (index + 1)%Z = Ok (this, index1) ->
         at_cursor tokens index1 [ALIAS] ->
         _safe_get tokens (index1 + 1)%Z = Some ty ->
         token_type ty ∈ TYPE_TOKENS ->
         at_cursor tokens (index1 + 1 + 1)%Z [R_PAREN] ->
         _parse_cast self tokens index = Ok (Cast this (Tok ty), (index1 + 1 + 1 + 1)%Z))
  /\ (forall self tokens index this index1,
         at_cursor tokens index [L_PAREN] ->
         parse_conjunction self tokens (index + 1)%Z = Ok (this, index1) ->
         at_cursor tokens index1 [ALIAS] ->
         ~ at_cursor tokens (index1 + 1)%Z TYPE_TOKENS ->
         _parse_cast self tokens index = Raise (ValueError "Expected type after CAST" None))
  /\ (forall self tokens index,
         (absent tokens index [L_PAREN] ->
          _parse_cast self tokens index = Raise (ValueError "Expected ( after CAST" None))
         /\ (forall this index1,
                at_cursor tokens index [L_PAREN] ->
                parse_conjunction self tokens (index + 1)%Z = Ok (this, index1) ->
                absent tokens index1 [ALIAS] ->
                _parse_cast self tokens index
                = Raise (ValueError "Expected AS after CAST" None))
         /\ (forall this index1,
                at_cursor tokens index [L_PAREN] ->
                parse_conjunction self tokens (index + 1)%Z = Ok (this, index1) ->
                at_cursor tokens index1 [ALIAS] ->
                at_cursor tokens (index1 + 1)%Z TYPE_TOKENS ->
                absent tokens (index1 + 1 + 1)%Z [R_PAREN] ->
                _parse_cast self tokens index
                = Raise (ValueError "Expected ) after CAST" None)))
  /\ (forall ty txt fuel,
         ty ∈ TYPE_TOKENS ->
         parse ∅ (40 + fuel) (cast_to (tk ty txt))
         = Ok [Select [Cast (col_ "x") (Tok (tk ty txt))]])
  /\ (forall ty txt fuel,
         ty ∉ TYPE_TOKENS ->
         parse ∅ (40 + fuel) (cast_to (tk ty txt))
         = Raise (ValueError "Expected type after CAST" None))
  /\ (forall fuel,
         parse ∅ (40 + fuel) (cast_to (tk INT "INT"))
         = Ok [Select [Cast (col_ "x") (Tok (tk INT "INT"))]])
  /\ (forall fuel,
         parse ∅ (40 + fuel) (cast_to (var "FOOBAR"))
         = Raise (ValueError "Expected type after CAST" None))
  /\ (forall ty txt fuel,
         ty ∈ TYPE_TOKENS ->
         parse ∅ (40 + fuel) (cast_nothing_to (tk ty txt))
         = Ok [Select [Cast PyNone (Tok (tk ty txt))]]).
Proof.
  split; [reflexivity|]. split; [|split; [|split; [|split; [|split; [|split; [|split;
    [|split]]]]]]].
  - intros self tokens index e index'. unfold _parse_cast.
    destruct (_match_cases [L_PAREN] tokens index) as [(Hlp & _ & H)|(_ & H)];
      rewrite (bind_ok _ _ _ _ _ _ H); cbn [negb]; [|discriminate].
    unfold bind at 1.
    destruct (parse_conjunction self tokens (index + 1)%Z) as [[this index1]| |] eqn:Hconj;
      try discriminate.
    destruct (_match_cases [ALIAS] tokens index1) as [(Has & _ & H1)|(_ & H1)];
      rewrite (bind_ok _ _ _ _ _ _ H1); cbn [negb]; [|discriminate].
    destruct (_match_cases TYPE_TOKENS tokens (index1 + 1)%Z) as [(Hty & _ & H2)|(_ & H2)];
      rewrite (bind_ok _ _ _ _ _ _ H2); cbn [negb]; [|discriminate].
    rewrite (bind_ok _ _ _ _ _ _ (_prev_after _ _)).
    destruct (_match_cases [R_PAREN] tokens (index1 + 1 + 1)%Z) as [(Hrp & _ & H3)|(_ & H3)];
      rewrite (bind_ok _ _ _ _ _ _ H3); cbn [negb]; [|discriminate].
    intros [= <- <-]. destruct Hty as (ty & Hty & Hin).
    exists this, index1, ty. rewrite Hty. repeat split; assumption.
  - intros self tokens index this index1 ty Hlp Hconj Has Hty Hin Hrp.
    assert (Htype : at_cursor tokens (index1 + 1) TYPE_TOKENS)
      by (exists ty; split; assumption).
    unfold _parse_cast.
    rewrite (bind_ok _ _ _ _ _ _ (_match_hit _ _ _ Hlp)). cbn [negb].
    rewrite (bind_ok _ _ _ _ _ _ Hconj).
    rewrite (bind_ok _ _ _ _ _ _ (_match_hit _ _ _ Has)). cbn [negb].
    rewrite (bind_ok _ _ _ _ _ _ (_match_hit _ _ _ Htype)). cbn [negb].
    rewrite (bind_ok _ _ _ _ _ _ (_prev_after _ _)).
    rewrite (bind_ok _ _ _ _ _ _ (_match_hit _ _ _ Hrp)). cbn [negb].
    rewrite Hty. reflexivity.
  - intros self tokens index this index1 Hlp Hconj Has Hno. unfold _parse_cast.
    rewrite (bind_ok _ _ _ _ _ _ (_match_hit _ _ _ Hlp)). cbn [negb].
    rewrite (bind_ok _ _ _ _ _ _ Hconj).
    rewrite (bind_ok _ _ _ _ _ _ (_match_hit _ _ _ Has)). cbn [negb].
    rewrite (bind_ok _ _ _ _ _ _ (_match_miss _ _ _ Hno)). reflexivity.
  - intros self tokens index. unfold absent. split; [|split].
    + intros Hno. unfold _parse_cast.
      rewrite (bind_ok _ _ _ _ _ _ (_match_miss _ _ _ Hno)). reflexivity.
    + intros this index1 Hlp Hconj Hno. unfold _parse_cast.
      rewrite (bind_ok _ _ _ _ _ _ (_match_hit _ _ _ Hlp)). cbn [negb].
      rewrite (bind_ok _ _ _ _ _ _ Hconj).
      rewrite (bind_ok _ _ _ _ _ _ (_match_miss _ _ _ Hno)). reflexivity.
    + intros this index1 Hlp Hconj Has Hty Hno. unfold _parse_cast.
      rewrite (bind_ok _ _ _ _ _ _ (_match_hit _ _ _ Hlp)). cbn [negb].
      rewrite (bind_ok _ _ _ _ _ _ Hconj).
      rewrite (bind_ok _ _ _ _ _ _ (_match_hit _ _ _ Has)). cbn [negb].
      rewrite (bind_ok _ _ _ _ _ _ (_match_hit _ _ _ Hty)). cbn [negb].
      rewrite (bind_ok _ _ _ _ _ _ (_prev_after _ _)).
      rewrite (bind_ok _ _ _ _ _ _ (_match_miss _ _ _ Hno)). reflexivity.
  - intros ty txt fuel Hin. apply existsb_TokenType in Hin.
    destruct ty; try discriminate Hin; at_depth.
  - intros ty txt fuel Hnin.
    destruct ty; try (exfalso; apply Hnin; type_in); at_depth.
  - at_depth.
  - at_depth.
  - intros ty txt fuel Hin. apply existsb_TokenType in Hin.
    destruct ty; try discriminate Hin; at_depth.
Qed.

Lemma cast_requires_a_type_token_witness :
  _parse_cast (parser_at FUNCTIONS 40) (cast_to (var "FOOBAR")) 2%Z
  = Raise (ValueError "Expected type after CAST" None)
  /\ (exists this index1 ty,
         parse_conjunction (parser_at FUNCTIONS 40) (cast_to (tk INT "INT")) (2 + 1)%Z
         = Ok (this, index1)
         /\ _safe_get (cast_to (tk INT "INT")) (index1 + 1)%Z = Some ty
         /\ token_type ty ∈ TYPE_TOKENS)
  /\ _parse_cast (parser_at FUNCTIONS 40)
       [tk L_PAREN "("; tk NUMBER "1"; tk PLUS "+"; var "y"; tk ALIAS "AS";
        tk DOUBLE "double"; tk R_PAREN ")"] 0%Z
     = Ok (Cast (Binary Plus (Tok (tk NUMBER "1")) (col_ "y")) (Tok (tk DOUBLE "double")),
           (4 + 1 + 1 + 1)%Z)
  /\ _parse_cast (parser_at FUNCTIONS 40) (cast_to (tk INT "INT")) 3%Z
     = Raise (ValueError "Expected ( after CAST" None)
  /\ parse ∅ 40 (cast_to (tk JSON "json")) = Ok [Select [Cast (col_ "x") (Tok (tk JSON "json"))]]
  /\ parse ∅ 40 (cast_to (tk STAR "*")) = Raise (ValueError "Expected type after CAST" None)
  /\ parse ∅ 40 (cast_nothing_to (tk TEXT "text"))
     = Ok [Select [Cast PyNone (Tok (tk TEXT "text"))]].
Proof.
  destruct cast_requires_a_type_token
    as (_ & Hok & Hgood & Hbad & Hmiss & Hty & Hnty & _ & _ & Hnone).
  repeat apply conj.
  - apply (Hbad (parser_at FUNCTIONS 40) (cast_to (var "FOOBAR")) 2%Z (col_ "x") 4%Z).
    + exists (tk L_PAREN "("). split; [reflexivity|type_in].
    + vm_compute. reflexivity.
    + exists (tk ALIAS "AS"). split; [reflexivity|type_in].
    + intros (t & Ht & Hin). vm_compute in Ht. injection Ht as <-.
      apply existsb_TokenType in Hin. discriminate Hin.
  - destruct (Hok (parser_at FUNCTIONS 40) (cast_to (tk INT "INT")) 2%Z
                (Cast (col_ "x") (Tok (tk INT "INT"))) 7%Z)
      as (this & index1 & ty & _ & Hc & _ & Hg & Hin & _).
    + vm_compute. reflexivity.
    + exists this, index1, ty. repeat split; assumption.
  - apply (Hgood (parser_at FUNCTIONS 40)).
    + exists (tk L_PAREN "("). split; [reflexivity|type_in].
    + vm_compute. reflexivity.
    + exists (tk ALIAS "AS"). split; [reflexivity|type_in].
    + reflexivity.
    + type_in.
    + exists (tk R_PAREN ")"). split; [reflexivity|type_in].
  - destruct (Hmiss (parser_at FUNCTIONS 40) (cast_to (tk INT "INT")) 3%Z) as (H & _).
    apply H. intros (t & Ht & Hin). vm_compute in Ht. injection Ht as <-.
    apply existsb_TokenType in Hin. discriminate Hin.
  - apply (Hty JSON "json" 0). type_in.
  - apply (Hnty STAR "*" 0). type_not_in.
  - apply (Hnone TEXT "text" 0). type_in.
Defined.

(** The claim as written fails on a CAST without an operand: it is not of
    the form [( expr AS type )] and parses, to the Cast of None. *)
Lemma cast_without_operand_parses :
  parse ∅ 40 (cast_nothing_to (tk INT "INT"))
  = Ok [Select [Cast PyNone (Tok (tk INT "INT"))]].
Proof. vm_compute. reflexivity. Qed.

(** ** C9: a registered function called with no argument *)

Lemma while_match_invariant {St} (Inv : St -> Prop) types (body : St -> M St) tokens :
  (forall s index s' index', Inv s -> body s tokens index = Ok (s', index') -> Inv s') ->
  forall fuel s index s' index',
    Inv s -> while_match fuel types body s tokens index = Ok (s', index') -> Inv s'.
Proof.
  intros Hbody. induction fuel as [|fuel IH]; intros s index s' index' Hs; simpl;
    [discriminate|].
  unfold bind at 1. destruct (_match types tokens index) as [[[|] index1]| |];
    try discriminate.
  - unfold bind at 1. destruct (body s tokens index1) as [[s1 index2]| |] eqn:Hb;
      try discriminate.
    apply IH. eapply Hbody; eassumption.
  - intros [= <- <-]. exact Hs.
Qed.

(** C9, as the code has it.  [_parse_csv] returns at least one element, and
    [_parse_column] answers [None] without moving when the token under the
    cursor is no name; so each built-in function but IF, called with no
    argument, has its builder applied to [[None]] and the call parses: to the
    node with [this = None], or for COALESCE to the node over [[None]].  The
    builder of IF reads [args[1]], and [IF()] raises IndexError. *)
Theorem empty_call_of_builtin :
  (forall fuel parse tokens index items index',
      _parse_csv fuel parse tokens index = Ok (items, index') -> 0 < length items)
  /\ (forall self tokens index,
         ~ at_cursor tokens index [VAR; IDENTIFIER] ->
         _parse_column self tokens index = Ok (PyNone, index))
  /\ (forall name builder fuel,
         FUNCTIONS !! name = Some builder ->
         name <> "IF" ->
         exists node,
           builder [PyNone] = inr node
           /\ parse ∅ (40 + fuel) (empty_call name) = Ok [Select [node]]
           /\ (node = Coalesce [PyNone] \/ exists f, node = Func f PyNone))
  /\ (forall fuel,
         parse ∅ (40 + fuel) (empty_call "SUM") = Ok [Select [Func Sum PyNone]]
         /\ parse ∅ (40 + fuel) (empty_call "ROW_NUMBER")
            = Ok [Select [Func RowNumber PyNone]])
  /\ (forall fuel,
         FUNCTIONS !! "IF" = Some build_if
         /\ parse ∅ (40 + fuel) (empty_call "IF")
            = Raise (IndexError "list index out of range")).
Proof.
  repeat apply conj.
  - intros fuel parse tokens index items index'. unfold _parse_csv.
    unfold bind at 1. destruct (parse tokens index) as [[first index1]| |]; try discriminate.
    apply (while_match_invariant (fun items => 0 < length items)); [|simpl; lia].
    intros s i s' i' Hs. unfold bind.
    destruct (parse tokens i) as [[item i1]| |]; try discriminate.
    intros [= <- <-]. rewrite length_app. lia.
  - intros self tokens index Hno. unfold _parse_column.
    rewrite (bind_ok _ _ _ _ _ _ (_match_miss _ _ _ Hno)). reflexivity.
  - intros name builder fuel Hlookup Hnot.
    apply elem_of_list_to_map_2 in Hlookup.
    repeat (apply elem_of_cons in Hlookup; destruct Hlookup as [[= -> ->]|Hlookup]);
      [..|inversion Hlookup]; try congruence;
      (eexists; split; [reflexivity|split; [at_depth|]]);
      first [left; reflexivity|right; eexists; reflexivity].
  - intros fuel. split; at_depth.
  - intros fuel. split; [reflexivity|at_depth].
Qed.

Lemma empty_call_of_builtin_witness :
  (exists node,
      build1 Max [PyNone] = inr node
      /\ parse ∅ 40 (empty_call "MAX") = Ok [Select [node]]
      /\ (node = Coalesce [PyNone] \/ exists f, node = Func f PyNone))
  /\ _parse_column (parser_at FUNCTIONS 40) (empty_call "MAX") 3%Z = Ok (PyNone, 3%Z)
  /\ 0 < length [col_ "a"].
Proof.
  destruct empty_call_of_builtin as (Hcsv & Hcol & Hcall & _).
  repeat apply conj.
  - apply (Hcall "MAX" (build1 Max) 0); [reflexivity|discriminate].
  - apply Hcol. intros (t & Ht & Hin). vm_compute in Ht. injection Ht as <-.
    apply existsb_TokenType in Hin. discriminate Hin.
  - apply (Hcsv 3 (_parse_column (parser_at FUNCTIONS 2)) select_a 1%Z [col_ "a"] 2%Z).
    vm_compute. reflexivity.
Defined.

(** The claim as written fails for IF: the call with no argument raises. *)
Lemma empty_call_of_if_raises :
  FUNCTIONS !! "IF" = Some build_if
  /\ parse ∅ 40 (empty_call "IF") = Raise (IndexError "list index out of range").
Proof. split; [reflexivity|vm_compute; reflexivity]. Qed.

(** ** C4: the order of the clauses of a SELECT *)




(** A stage whose keyword is not under the cursor. *)
Lemma stage_skips self c this tokens index :
  absent tokens index (keywords c) ->
  stage_body self c this tokens index = Ok (this, index).
Proof.
  unfold absent. intros H. destruct c; cbn [stage_body keywords] in *.
  - unfold _parse_from. rewrite (bind_ok _ _ _ _ _ _ (_match_miss _ _ _ H)). reflexivity.
  - unfold _parse_join.
    assert (Hside : ~ at_cursor tokens index [LEFT; RIGHT; FULL]).
    { intros (t & Ht & Hin). apply H. exists t. split; [exact Ht|].
      apply existsb_TokenType. apply existsb_TokenType in Hin.
      destruct (token_type t); try discriminate Hin; reflexivity. }
    assert (Hkind : ~ at_cursor tokens index [INNER; OUTER; CROSS]).
    { intros (t & Ht & Hin). apply H. exists t. split; [exact Ht|].
      apply existsb_TokenType. apply existsb_TokenType in Hin.
      destruct (token_type t); try discriminate Hin; reflexivity. }
    assert (Hjoin : ~ at_cursor tokens index [JOIN]).
    { intros (t & Ht & Hin). apply H. exists t. split; [exact Ht|].
      apply existsb_TokenType. apply existsb_TokenType in Hin.
      destruct (token_type t); try discriminate Hin; reflexivity. }
    rewrite (bind_ok _ _ _ _ _ _ (_match_miss _ _ _ Hside)). unfold bind at 1. cbn [ret].
    rewrite (bind_ok _ _ _ _ _ _ (_match_miss _ _ _ Hkind)). unfold bind at 1. cbn [ret].
    rewrite (bind_ok _ _ _ _ _ _ (_match_miss _ _ _ Hjoin)). reflexivity.
  - unfold _parse_where. rewrite (bind_ok _ _ _ _ _ _ (_match_miss _ _ _ H)). reflexivity.
  - unfold _parse_group. rewrite (bind_ok _ _ _ _ _ _ (_match_miss _ _ _ H)). reflexivity.
  - unfold _parse_having. rewrite (bind_ok _ _ _ _ _ _ (_match_miss _ _ _ H)). reflexivity.
  - unfold _parse_order. rewrite (bind_ok _ _ _ _ _ _ (_match_miss _ _ _ H)). reflexivity.
  - unfold _parse_union. rewrite (bind_ok _ _ _ _ _ _ (_match_miss _ _ _ H)). reflexivity.
Qed.

(** A stage whose clause is written at the cursor. *)
Lemma stage_takes self tokens c this index e index1 :
  ClauseAt self tokens c this index e index1 ->
  stage_body self c this tokens index = Ok (e, index1).
Proof.
  intros H. destruct H; cbn [stage_body].
  - unfold _parse_from. rewrite (bind_ok _ _ _ _ _ _ (_match_hit _ _ _ H)). cbn [negb].
    rewrite (bind_ok _ _ _ _ _ _ H0). reflexivity.
  - unfold _parse_join. rewrite (bind_ok _ _ _ _ _ _ H).
    rewrite (bind_ok _ _ _ _ (if side then _safe_get tokens (index1 - 1)%Z else None) index1)
      by (destruct side; reflexivity).
    rewrite (bind_ok _ _ _ _ _ _ H0).
    rewrite (bind_ok _ _ _ _ (if kind then _safe_get tokens (index2 - 1)%Z else None) index2)
      by (destruct kind; reflexivity).
    rewrite (bind_ok _ _ _ _ _ _ (_match_hit _ _ _ H1)).
    rewrite (bind_ok _ _ _ _ _ _ H2). rewrite (bind_ok _ _ _ _ _ _ H3).
    rewrite (bind_ok _ _ _ _ _ _ H4). exact H5.
  - unfold _parse_where. rewrite (bind_ok _ _ _ _ _ _ (_match_hit _ _ _ H)). cbn [negb].
    rewrite (bind_ok _ _ _ _ _ _ H0). reflexivity.
  - unfold _parse_group. rewrite (bind_ok _ _ _ _ _ _ (_match_hit _ _ _ H)). cbn [negb].
    rewrite (bind_ok _ _ _ _ _ _ (_match_hit _ _ _ H0)). cbn [negb].
    rewrite (bind_ok _ _ _ _ _ _ H1). reflexivity.
  - unfold _parse_having. rewrite (bind_ok _ _ _ _ _ _ (_match_hit _ _ _ H)). cbn [negb].
    rewrite (bind_ok _ _ _ _ _ _ H0). reflexivity.
  - unfold _parse_order. rewrite (bind_ok _ _ _ _ _ _ (_match_hit _ _ _ H)). cbn [negb].
    rewrite (bind_ok _ _ _ _ _ _ (_match_hit _ _ _ H0)). cbn [negb].
    rewrite (bind_ok _ _ _ _ _ _ H1). rewrite (bind_ok _ _ _ _ _ _ H2). reflexivity.
  - unfold _parse_union. rewrite (bind_ok _ _ _ _ _ _ (_match_hit _ _ _ H)). cbn [negb].
    rewrite (bind_ok _ _ _ _ _ _ H0). cbv zeta.
    rewrite (bind_ok _ _ _ _ _ _ H1). reflexivity.
Qed.

Lemma stage_method_S fns n c :
  stage_method (parser_at fns (S n)) c = stage_body (parser_at fns n) c.
Proof. destruct c; reflexivity. Qed.

(** The stages ahead, over clauses written in their order. *)
Lemma run_stages_clauses fns n tokens cs this index cs' e index' :
  Clauses (parser_at fns n) tokens cs this index cs' e index' ->
  (forall c, c ∈ cs' -> absent tokens index' (keywords c)) ->
  run_stages (parser_at fns (S n)) cs this tokens index = Ok (e, index').
Proof.
  intros H. induction H as [cs this index|c cs this index cs' e index' Hno _ IH
                            |c cs this index this1 index1 cs' e index' Hat _ IH];
    intros Hrest.
  - induction cs as [|c cs IHcs]; [reflexivity|].
    cbn [run_stages]. rewrite stage_method_S.
    rewrite (bind_ok _ _ _ _ _ _ (stage_skips _ c this tokens index (Hrest c ltac:(left)))).
    apply IHcs. intros c' Hc'. apply Hrest. right. exact Hc'.
  - cbn [run_stages]. rewrite stage_method_S.
    rewrite (bind_ok _ _ _ _ _ _ (stage_skips _ c this tokens index Hno)).
    apply IH, Hrest.
  - cbn [run_stages]. rewrite stage_method_S.
    rewrite (bind_ok _ _ _ _ _ _ (stage_takes _ _ _ _ _ _ _ Hat)).
    apply IH, Hrest.
Qed.

(** [_parse_select] on SELECT, a list and clauses written in order. *)
Lemma _parse_select_clauses fns n tokens index expressions index0 cs' e index' :
  at_cursor tokens index [SELECT] ->
  _parse_csv (S n) (parse_expression (parser_at fns (S n))) tokens (index + 1)%Z
  = Ok (expressions, index0) ->
  Clauses (parser_at fns n) tokens pipeline (Select expressions) index0 cs' e index' ->
  (forall c, c ∈ cs' -> absent tokens index' (keywords c)) ->
  _parse_select (parser_at fns (S n)) tokens index = Ok (e, index').
Proof.
  intros Hselect Hcsv Hclauses Hrest.
  pose proof (run_stages_clauses _ _ _ _ _ _ _ _ _ Hclauses Hrest) as Hrun.
  unfold _parse_select. rewrite (bind_ok _ _ _ _ _ _ (_match_hit _ _ _ Hselect)).
  cbn [negb]. rewrite depth_parser_at. rewrite (bind_ok _ _ _ _ _ _ Hcsv). cbv zeta.
  exact Hrun.
Qed.

(** [parse] on one statement that begins with SELECT. *)
Lemma parse_of_select opts n tokens e index' :
  plain tokens ->
  at_cursor tokens 0 [SELECT] ->
  _parse_select (parser_at (opts ∪ FUNCTIONS) (S n)) tokens 0%Z = Ok (e, index') ->
  (index' = Z.of_nat (length tokens) -> parse opts (3 + n) tokens = Ok [e])
  /\ (forall t,
         _safe_get tokens index' = Some t ->
         parse opts (3 + n) tokens
         = Raise (ValueError "Invalid expression {self._curr}" (Some (Tok t)))).
Proof.
  intros Hplain Hselect Hsel.
  assert (Hwith : ~ at_cursor tokens 0 [WITH]).
  { intros (t & Ht & Hin). destruct Hselect as (t' & Ht' & Hin').
    rewrite Ht in Ht'. injection Ht' as <-.
    apply existsb_TokenType in Hin. apply existsb_TokenType in Hin'.
    destruct (token_type t); discriminate. }
  assert (Hstmt : parse_statement (parser_at (opts ∪ FUNCTIONS) (3 + n)) tokens 0%Z
                  = Ok (e, index')).
  { change (3 + n) with (S (S (S n))). cbn [parser_at parse_statement].
    unfold _parse_statement.
    rewrite (bind_ok _ _ _ _ _ _ (_match_miss _ _ _ Hwith)). cbn [negb parse_select].
    exact Hsel. }
  assert (H0 : (0 <= index')%Z).
  { pose proof (method_never_left _ _ P_statement PyNone _ _ _ _ Hstmt) as Hadv.
    unfold advanced in Hadv. lia. }
  assert (Hparse : parse opts (3 + n) tokens
                   = if (index' <? Z.of_nat (length tokens))%Z
                     then Raise (ValueError "Invalid expression {self._curr}"
                                   (Some (pyval (_safe_get tokens index'))))
                     else Ok [e]).
  { unfold parse. rewrite (split_chunks_plain _ Hplain). cbn [parse_chunks].
    change (-1 + 1)%Z with 0%Z. rewrite Hstmt. reflexivity. }
  split.
  - intros ->. rewrite Hparse, Z.ltb_irrefl. reflexivity.
  - intros t Ht. rewrite Hparse, Ht.
    rewrite _safe_get_nonneg in Ht by exact H0. apply lookup_lt_Some in Ht.
    destruct (Z.ltb_spec index' (Z.of_nat (length tokens))); [reflexivity|lia].
Qed.





(** * Further properties of the parser *)

(** ** The cursor *)

(** X2.  [_safe_get] answers [None] exactly outside the range from
    [-len] to [len - 1]; inside it a negative index counts from the end of
    the chunk, so that [_prev] at the start of a chunk that is not empty is
    its last token, not [None]. *)
Theorem _safe_get_bounds tokens index :
  (_safe_get tokens index = None
   <-> (index < - Z.of_nat (length tokens) \/ Z.of_nat (length tokens) <= index)%Z)
  /\ ((0 <= index)%Z -> _safe_get tokens index = tokens !! Z.to_nat index)
  /\ ((index < 0)%Z -> (- Z.of_nat (length tokens) <= index)%Z ->
      _safe_get tokens index = tokens !! (length tokens - Z.to_nat (- index)))
  /\ (tokens <> [] -> _prev tokens 0%Z = Ok (last tokens, 0%Z)).
Proof.
  split; [|split; [|split]].
  - unfold _safe_get. destruct (0 <=? index)%Z eqn:H0.
    + rewrite lookup_ge_None. lia.
    + destruct (- Z.of_nat (length tokens) <=? index)%Z eqn:H1.
      * rewrite lookup_ge_None. lia.
      * split; [lia|reflexivity].
  - apply _safe_get_nonneg.
  - intros Hneg Hlow. unfold _safe_get.
    destruct (0 <=? index)%Z eqn:H0; [lia|].
    destruct (- Z.of_nat (length tokens) <=? index)%Z eqn:H1; [|lia].
    f_equal. lia.
  - intros Hne. unfold _prev. do 2 f_equal. change (0 - 1)%Z with (-1)%Z.
    unfold _safe_get. change (0 <=? -1)%Z with false. cbv iota.
    destruct (Z.leb_spec (- Z.of_nat (length tokens)) (-1)) as [H|H].
    + rewrite last_lookup. f_equal. lia.
    + destruct tokens; [congruence|simpl in H; lia].
Qed.

Lemma _safe_get_bounds_witness :
  _safe_get select_a (-1)%Z = Some (var "a")
  /\ _safe_get select_a 1%Z = Some (var "a")
  /\ _prev select_a 0%Z = Ok (Some (var "a"), 0%Z).
Proof.
  destruct (_safe_get_bounds select_a (-1)%Z) as (_ & _ & Hneg & Hprev).
  destruct (_safe_get_bounds select_a 1%Z) as (_ & Hpos & _).
  repeat apply conj.
  - rewrite Hneg; [reflexivity|lia|simpl; lia].
  - rewrite Hpos; [reflexivity|lia].
  - rewrite Hprev; [reflexivity|discriminate].
Defined.

(** X3.  After a successful [_match] the cursor is one further and [_prev]
    is the token that matched, of one of the given types; at or past the end
    of the chunk [_match] fails for every list of types and stays. *)
Theorem _match_then_prev types tokens index :
  (forall index',
      _match types tokens index = Ok (true, index') ->
      index' = (index + 1)%Z
      /\ exists t,
           _safe_get tokens index = Some t
           /\ token_type t ∈ types
           /\ _prev tokens index' = Ok (Some t, index'))
  /\ ((Z.of_nat (length tokens) <= index)%Z ->
      _match types tokens index = Ok (false, index)).
Proof.
  split.
  - intros index' H.
    destruct (_match_cases types tokens index) as [((t & Ht & Hin) & _ & Hm)|(_ & Hm)];
      rewrite Hm in H; [|discriminate].
    injection H as <-. split; [reflexivity|].
    exists t. repeat split; [exact Ht|exact Hin|].
    rewrite _prev_after, Ht. reflexivity.
  - intros Hend. apply _match_miss. apply absent_none.
    rewrite _safe_get_nonneg by lia. apply lookup_ge_None. lia.
Qed.

Lemma _match_then_prev_witness :
  _prev select_a 1%Z = Ok (Some (tk SELECT "SELECT"), 1%Z)
  /\ _match [SELECT; VAR] select_a 2%Z = Ok (false, 2%Z).
Proof.
  destruct (_match_then_prev [SELECT; VAR] select_a 0%Z) as (Hhit & _).
  destruct (_match_then_prev [SELECT; VAR] select_a 2%Z) as (_ & Hend).
  split.
  - destruct (Hhit 1%Z) as (_ & t & Ht & _ & Hp); [reflexivity|].
    injection Ht as <-. exact Hp.
  - apply Hend. simpl. lia.
Defined.

(** X4.  A production that starts within the chunk leaves the cursor within
    the chunk and not before where it started: the cursor is never moved
    back and never past the end. *)
Theorem productions_stay_in_chunk fns fuel p this tokens index a index' :
  (0 <= index <= Z.of_nat (length tokens))%Z ->
  method (parser_at fns fuel) p this tokens index = Ok (a, index') ->
  (index <= index' <= Z.of_nat (length tokens))%Z.
Proof.
  intros Hin H. apply method_never_left in H. unfold advanced in H. lia.
Qed.

Lemma productions_stay_in_chunk_witness :
  (1 <= 2 <= Z.of_nat (length select_a))%Z.
Proof.
  apply (productions_stay_in_chunk FUNCTIONS 20 P_expression PyNone select_a 1%Z
           (col_ "a") 2%Z).
  - simpl. lia.
  - vm_compute. reflexivity.
Defined.

(** ** The splitter and the entry point *)

(** The chunks while the first loop of [parse] runs: the first holds no
    terminator, each other holds one, at its head. *)
Lemma fold_split_shape raw :
  forall init last,
    match init with
    | [] => plain last
    | first :: init' =>
      plain first /\ Forall terminator_then_plain init' /\ terminator_then_plain last
    end ->
    exists first rest,
      fold_left split_token raw (init ++ [last]) = first :: rest
      /\ plain first /\ Forall terminator_then_plain rest.
Proof.
  induction raw as [|t raw IH]; intros init last Hshape; simpl.
  - destruct init as [|first init'].
    + exists last, []. repeat split; [exact Hshape|constructor].
    + destruct Hshape as (Hf & Hi & Hl). exists first, (init' ++ [last]).
      repeat split; [exact Hf|]. apply Forall_app. split; [exact Hi|].
      constructor; [exact Hl|constructor].
  - rewrite split_token_snoc. destruct (is_semicolon t) eqn:Ht.
    + replace (init ++ [last; [t]]) with ((init ++ [last]) ++ [[t]])
        by (rewrite <- app_assoc; reflexivity).
      apply IH. apply is_semicolon_true in Ht.
      assert (Hnew : terminator_then_plain [t])
        by (exists t, []; repeat split; [exact Ht|constructor]).
      destruct init as [|first init']; simpl.
      * repeat split; [exact Hshape|constructor|exact Hnew].
      * destruct Hshape as (Hf & Hi & Hl). repeat split; [exact Hf| |exact Hnew].
        apply Forall_app. split; [exact Hi|]. constructor; [exact Hl|constructor].
    + apply IH. apply is_semicolon_false in Ht.
      destruct init as [|first init'].
      * apply Forall_app. split; [exact Hshape|]. constructor; [exact Ht|constructor].
      * destruct Hshape as (Hf & Hi & (t0 & r & -> & Ht0 & Hr)).
        repeat split; [exact Hf|exact Hi|].
        exists t0, (r ++ [t]). repeat split; [exact Ht0|].
        apply Forall_app. split; [exact Hr|]. constructor; [exact Ht|constructor].
Qed.

(** X5.  The splitter keeps every token, in order; it makes one chunk more
    than there are terminators; the first chunk holds no terminator and each
    other chunk holds exactly one, as its first token. *)
Theorem split_chunks_shape raw_tokens :
  concat (split_chunks raw_tokens) = raw_tokens
  /\ length (split_chunks raw_tokens)
     = 1 + length (filter (fun t => is_semicolon t = true) raw_tokens)
  /\ exists first rest,
       split_chunks raw_tokens = first :: rest
       /\ plain first /\ Forall terminator_then_plain rest.
Proof.
  split; [apply split_chunks_concat|]. split; [apply split_chunks_length|].
  apply (fold_split_shape raw_tokens [] []). constructor.
Qed.

Lemma plain_or_semicolon raw_tokens :
  plain raw_tokens \/ exists t, t ∈ raw_tokens /\ token_type t = SEMICOLON.
Proof.
  induction raw_tokens as [|t raw [IH|(t' & Hin & Hty)]].
  - left. constructor.
  - destruct (is_semicolon t) eqn:Ht.
    + right. exists t. split; [left|apply is_semicolon_true, Ht].
    + left. constructor; [apply is_semicolon_false, Ht|exact IH].
  - right. exists t'. split; [right; exact Hin|exact Hty].
Qed.

(** X6.  Whenever [parse] returns, the input held no terminator and the
    result is one root: what the dispatcher made of the whole input, with
    the cursor at its end. *)
Theorem parse_returns_one_root opts fuel raw_tokens es :
  parse opts fuel raw_tokens = Ok es ->
  plain raw_tokens
  /\ exists e,
       es = [e]
       /\ parse_statement (parser_at (opts ∪ FUNCTIONS) fuel) raw_tokens 0%Z
          = Ok (e, Z.of_nat (length raw_tokens)).
Proof.
  intros H.
  assert (Hplain : plain raw_tokens).
  { destruct (plain_or_semicolon raw_tokens) as [Hp|(t & Hin & Hty)]; [exact Hp|].
    exfalso. unfold parse in H.
    pose proof (split_chunks_tail raw_tokens) as Htail.
    pose proof (split_chunks_length raw_tokens) as Hlen.
    assert (Hf : t ∈ filter (fun t => is_semicolon t = true) raw_tokens).
    { apply list_elem_of_filter. split; [apply is_semicolon_true, Hty|exact Hin]. }
    destruct (split_chunks raw_tokens) as [|first rest]; [discriminate Hlen|].
    refine (parse_chunks_after_semicolon _ _ first rest [] es _ Htail H).
    intros ->. simpl in Hlen.
    destruct (filter _ raw_tokens); [inversion Hf|discriminate Hlen]. }
  split; [exact Hplain|].
  unfold parse in H. rewrite (split_chunks_plain _ Hplain) in H.
  apply parse_chunks_Ok in H. destruct H as (es' & -> & Hall).
  apply Forall2_cons_inv_l in Hall. destruct Hall as (e & es'' & He & Hnil & ->).
  apply Forall2_nil_inv_l in Hnil. subst es''.
  exists e. split; [reflexivity|exact He].
Qed.

Lemma parse_returns_one_root_witness :
  plain select_a_from_t
  /\ exists e,
       [From (tbl "t") (Select [col_ "a"])] = [e]
       /\ parse_statement (parser_at (∅ ∪ FUNCTIONS) 40) select_a_from_t 0%Z
          = Ok (e, Z.of_nat (length select_a_from_t)).
Proof.
  apply (parse_returns_one_root ∅ 40 select_a_from_t). vm_compute. reflexivity.
Defined.

(** The dispatcher on a chunk that begins with neither WITH nor SELECT. *)
Lemma parse_statement_no_select fns fuel tokens :
  ~ at_cursor tokens 0 [WITH] -> ~ at_cursor tokens 0 [SELECT] ->
  parse_statement (parser_at fns (2 + fuel)) tokens 0%Z = Ok (PyNone, 0%Z).
Proof.
  intros Hwith Hselect. cbn [Nat.add parser_at parse_statement]. unfold _parse_statement.
  rewrite (bind_ok _ _ _ _ _ _ (_match_miss _ _ _ Hwith)). cbn [negb parse_select].
  unfold _parse_select.
  rewrite (bind_ok _ _ _ _ _ _ (_match_miss _ _ _ Hselect)). reflexivity.
Qed.

(** The loop only extends the last chunk or adds one: the chunks before the
    last stay as they are, and the last keeps what it holds. *)
Lemma fold_split_frozen raw :
  forall init last,
    exists extra more,
      fold_left split_token raw (init ++ [last]) = init ++ (last ++ extra) :: more.
Proof.
  induction raw as [|t raw IH]; intros init last; simpl.
  - exists [], []. rewrite app_nil_r. reflexivity.
  - rewrite split_token_snoc. destruct (is_semicolon t).
    + replace (init ++ [last; [t]]) with ((init ++ [last]) ++ [[t]])
        by (rewrite <- app_assoc; reflexivity).
      destruct (IH (init ++ [last]) [t]) as (extra & more & ->).
      exists [], (([t] ++ extra) :: more). rewrite app_nil_r, <- app_assoc. reflexivity.
    + destruct (IH init (last ++ [t])) as (extra & more & ->).
      exists ([t] ++ extra), more. rewrite app_assoc. reflexivity.
Qed.

(** X7.  The dispatcher makes [None] of a chunk that begins with neither
    WITH nor SELECT and consumes nothing: the empty input parses to the
    one-element list [[None]], and an input whose first token is neither
    raises the error that names this token, whatever follows it. *)
Theorem parse_without_select opts fuel :
  parse opts (2 + fuel) [] = Ok [PyNone]
  /\ forall t rest,
       token_type t <> WITH -> token_type t <> SELECT ->
       parse opts (2 + fuel) (t :: rest)
       = Raise (ValueError "Invalid expression {self._curr}" (Some (Tok t))).
Proof.
  split.
  - unfold parse. change (split_chunks []) with [[] : list Token]. cbn [parse_chunks].
    change (-1 + 1)%Z with 0%Z.
    rewrite (parse_statement_no_select _ fuel []); [reflexivity| |];
      apply absent_none; reflexivity.
  - intros t rest Hwith Hselect.
    assert (Hno : forall (tail : list Token) ty, token_type t <> ty ->
                    ~ at_cursor (t :: tail) 0 [ty]).
    { intros tail ty Hty (t' & Ht' & Hin). injection Ht' as <-.
      apply elem_of_cons in Hin. destruct Hin as [Hin|Hin]; [contradiction|inversion Hin]. }
    assert (Hstmt : forall extra,
               parse_statement (parser_at (opts ∪ FUNCTIONS) (2 + fuel)) (t :: extra) 0%Z
               = Ok (PyNone, 0%Z)).
    { intros extra. apply parse_statement_no_select; apply Hno; assumption. }
    unfold parse, split_chunks. simpl fold_left. unfold split_token at 2.
    destruct (TokenType_eqb (token_type t) SEMICOLON) eqn:Hsemi.
    + change (append_last ([[]] ++ [[]]) t) with ([[]] ++ [[t]]).
      destruct (fold_split_frozen rest [[]] [t]) as (extra & more & ->).
      cbn [app parse_chunks]. change (-1 + 1)%Z with 0%Z.
      rewrite (parse_statement_no_select _ fuel []); [|apply absent_none; reflexivity..].
      change (0 <? Z.of_nat (length (@nil Token)))%Z with false. cbv iota.
      rewrite Hstmt. reflexivity.
    + change (append_last [[]] t) with ([] ++ [[t]]).
      destruct (fold_split_frozen rest [] [t]) as (extra & more & ->).
      cbn [app parse_chunks]. change (-1 + 1)%Z with 0%Z.
      rewrite Hstmt. reflexivity.
Qed.

Lemma parse_without_select_witness :
  parse ∅ 2 (tk FROM "FROM" :: select_a)
  = Raise (ValueError "Invalid expression {self._curr}" (Some (Tok (tk FROM "FROM")))).
Proof.
  destruct (parse_without_select ∅ 0) as (_ & H).
  apply (H (tk FROM "FROM") select_a); discriminate.
Defined.

(** ** The exceptions of the parser *)

Lemma raises_only_ret {A} E (a : A) : raises_only E (ret a).
Proof. intros tokens index e H. discriminate H. Qed.

Lemma raises_only_raise {A} (E : Error -> Prop) e : E e -> raises_only E (@raise A e).
Proof. intros He tokens index e' [= <-]. exact He. Qed.

Lemma raises_only_out_of_fuel {A} E : raises_only E (@out_of_fuel A).
Proof. intros tokens index e H. discriminate H. Qed.

Lemma raises_only_match E types : raises_only E (_match types).
Proof. intros tokens index e. rewrite _match_spec. destruct (_safe_get tokens index) as [t|]; [destruct (existsb _ types)|]; discriminate. Qed.

Lemma raises_only_prev E : raises_only E _prev.
Proof. intros tokens index e H. discriminate H. Qed.

Lemma raises_only_bind {A B} E (c : M A) (k : A -> M B) :
  raises_only E c -> (forall a, raises_only E (k a)) -> raises_only E (bind c k).
Proof.
  intros Hc Hk tokens index e. unfold bind.
  destruct (c tokens index) as [[a index']| |] eqn:H.
  - apply Hk.
  - intros [= <-]. eapply Hc, H.
  - discriminate.
Qed.

Lemma raises_only_at_bind {A B} E (c : M A) (k : A -> M B) tokens index :
  raises_only_at E c tokens index ->
  (forall a index', c tokens index = Ok (a, index') -> raises_only_at E (k a) tokens index') ->
  raises_only_at E (bind c k) tokens index.
Proof.
  intros Hc Hk e. unfold bind.
  destruct (c tokens index) as [[a index']| |] eqn:H.
  - apply Hk. reflexivity.
  - intros [= <-]. apply Hc. exact H.
  - discriminate.
Qed.

Lemma raises_only_at_of {A} E (c : M A) tokens index :
  raises_only E c -> raises_only_at E c tokens index.
Proof. intros H e. apply H. Qed.

Lemma raises_only_while_match {St} E types (body : St -> M St) :
  (forall s, raises_only E (body s)) ->
  forall fuel s, raises_only E (while_match fuel types body s).
Proof.
  intros Hbody. induction fuel as [|fuel IH]; intros s; simpl.
  - apply raises_only_out_of_fuel.
  - apply raises_only_bind; [apply raises_only_match|]. intros [|]; [|apply raises_only_ret].
    apply raises_only_bind; [apply Hbody|]. intros s'. apply IH.
Qed.

Lemma raises_only_parse_csv E fuel (parse : M Expr) :
  raises_only E parse -> raises_only E (_parse_csv fuel parse).
Proof.
  intros Hp. unfold _parse_csv. apply raises_only_bind; [exact Hp|]. intros first.
  apply raises_only_while_match. intros items.
  apply raises_only_bind; [exact Hp|]. intros item. apply raises_only_ret.
Qed.

Lemma raises_only_parse_alias E this : raises_only E (_parse_alias this).
Proof.
  unfold _parse_alias. apply raises_only_bind; [apply raises_only_match|]. intros _.
  apply raises_only_bind; [apply raises_only_match|]. intros [|]; [|apply raises_only_ret].
  apply raises_only_bind; [apply raises_only_prev|]. intros to. apply raises_only_ret.
Qed.

(** In the operator loop the token that matched is there and its type is a
    key of the dict: the loop raises what the operand parser raises. *)
Lemma raises_only_parse_tokens E fuel (parse : M Expr) expressions :
  raises_only E parse -> raises_only E (_parse_tokens fuel parse expressions).
Proof.
  intros Hp. unfold _parse_tokens. apply raises_only_bind; [exact Hp|]. intros this.
  cbv zeta. revert this. induction fuel as [|fuel IH]; intros this; simpl.
  - apply raises_only_out_of_fuel.
  - intros tokens index.
    apply raises_only_at_bind; [intros e; apply raises_only_match|].
    intros m index' Hm.
    destruct (_match_cases (map fst (by_token_type expressions)) tokens index)
      as [((t & Ht & Hin) & _ & Hhit)|(_ & Hmiss)].
    + rewrite Hhit in Hm. injection Hm as <- <-.
      apply raises_only_at_bind.
      * apply raises_only_at_bind; [intros e H; discriminate H|].
        intros prev index' Hprev. rewrite _prev_after in Hprev. injection Hprev as <- <-.
        rewrite Ht. apply existsb_TokenType in Hin. rewrite dict_keys in Hin.
        destruct (dict_get (by_token_type expressions) (token_type t)); [|discriminate Hin].
        intros e. apply raises_only_bind; [exact Hp|]. intros rhs. apply raises_only_ret.
      * intros this' index' _ e. apply IH.
    + rewrite Hmiss in Hm. injection Hm as <- <-. intros e H. discriminate H.
Qed.

Section Exceptions.

Variable E : Error -> Prop.
Hypothesis HValueError : forall msg arg, E (ValueError msg arg).
Variable self : Parser.
Hypothesis Hquiet : Quiet E self.

Ltac quiet :=
  lazymatch goal with
  | |- raises_only _ (bind _ _) => apply raises_only_bind; [quiet|intros ?; quiet]
  | |- raises_only _ (if ?m then _ else _) => destruct m; quiet
  | |- raises_only _ (let x := _ in _) => cbv zeta; quiet
  | |- raises_only _ (ret _) => apply raises_only_ret
  | |- raises_only _ (raise (ValueError _ _)) => apply raises_only_raise, HValueError
  | |- raises_only _ (_match _) => apply raises_only_match
  | |- raises_only _ _prev => apply raises_only_prev
  | |- raises_only _ (_parse_alias _) => apply raises_only_parse_alias
  | |- raises_only _ (_parse_csv _ _) => apply raises_only_parse_csv; quiet
  | |- raises_only _ (_parse_tokens _ _ _) => apply raises_only_parse_tokens; quiet
  | |- raises_only _ (while_match _ _ _ _) =>
    apply raises_only_while_match; intros ?; quiet
  | |- _ =>
    first
      [ apply (quiet_statement E self Hquiet)
      | apply (quiet_cte E self Hquiet)
      | apply (quiet_select E self Hquiet)
      | apply (quiet_from E self Hquiet)
      | apply (quiet_join E self Hquiet)
      | apply (quiet_table E self Hquiet)
      | apply (quiet_where E self Hquiet)
      | apply (quiet_group E self Hquiet)
      | apply (quiet_having E self Hquiet)
      | apply (quiet_order E self Hquiet)
      | apply (quiet_union E self Hquiet)
      | apply (quiet_expression E self Hquiet)
      | apply (quiet_conjunction E self Hquiet)
      | apply (quiet_equality E self Hquiet)
      | apply (quiet_comparison E self Hquiet)
      | apply (quiet_range E self Hquiet)
      | apply (quiet_term E self Hquiet)
      | apply (quiet_factor E self Hquiet)
      | apply (quiet_unary E self Hquiet)
      | apply (quiet_special E self Hquiet)
      | apply (quiet_case E self Hquiet)
      | apply (quiet_count E self Hquiet)
      | apply (quiet_cast E self Hquiet)
      | apply (quiet_primary E self Hquiet)
      | apply (quiet_column E self Hquiet)
      | apply (quiet_brackets E self Hquiet)
      | apply (quiet_window E self Hquiet)
      ]
  end.

Lemma _parse_statement_quiet : raises_only E (_parse_statement self).
Proof. unfold _parse_statement. quiet. Qed.

Lemma _parse_cte_quiet : raises_only E (_parse_cte self).
Proof. unfold _parse_cte. quiet. Qed.

Lemma _parse_select_quiet : raises_only E (_parse_select self).
Proof. unfold _parse_select. quiet. Qed.

Lemma _parse_from_quiet this : raises_only E (_parse_from self this).
Proof. unfold _parse_from. quiet. Qed.

Lemma _parse_join_quiet this : raises_only E (_parse_join self this).
Proof. unfold _parse_join. quiet. Qed.

Lemma _parse_table_quiet : raises_only E (_parse_table self).
Proof. unfold _parse_table. quiet. Qed.

Lemma _parse_where_quiet this : raises_only E (_parse_where self this).
Proof. unfold _parse_where. quiet. Qed.

Lemma _parse_group_quiet this : raises_only E (_parse_group self this).
Proof. unfold _parse_group. quiet. Qed.

Lemma _parse_having_quiet this : raises_only E (_parse_having self this).
Proof. unfold _parse_having. quiet. Qed.

Lemma _parse_order_quiet this : raises_only E (_parse_order self this).
Proof. unfold _parse_order. quiet. Qed.

Lemma _parse_union_quiet this : raises_only E (_parse_union self this).
Proof. unfold _parse_union. quiet. Qed.

Lemma _parse_expression_quiet : raises_only E (_parse_expression self).
Proof. unfold _parse_expression. quiet. Qed.

Lemma _parse_conjunction_quiet : raises_only E (_parse_conjunction self).
Proof. unfold _parse_conjunction. quiet. Qed.

Lemma _parse_equality_quiet : raises_only E (_parse_equality self).
Proof. unfold _parse_equality. quiet. Qed.

Lemma _parse_comparison_quiet : raises_only E (_parse_comparison self).
Proof. unfold _parse_comparison. quiet. Qed.

Lemma _parse_range_quiet : raises_only E (_parse_range self).
Proof. unfold _parse_range. quiet. Qed.

Lemma _parse_term_quiet : raises_only E (_parse_term self).
Proof. unfold _parse_term. quiet. Qed.

Lemma _parse_factor_quiet : raises_only E (_parse_factor self).
Proof. unfold _parse_factor. quiet. Qed.

Lemma _parse_unary_quiet : raises_only E (_parse_unary self).
Proof. unfold _parse_unary. quiet. Qed.

Lemma _parse_special_quiet : raises_only E (_parse_special self).
Proof. unfold _parse_special. quiet. Qed.

Lemma _parse_case_quiet : raises_only E (_parse_case self).
Proof. unfold _parse_case. quiet. Qed.

Lemma _parse_count_quiet : raises_only E (_parse_count self).
Proof. unfold _parse_count. quiet. Qed.

Lemma _parse_cast_quiet : raises_only E (_parse_cast self).
Proof. unfold _parse_cast. quiet. Qed.

Lemma _parse_primary_quiet : raises_only E (_parse_primary self).
Proof. unfold _parse_primary. quiet. Qed.

Lemma _parse_brackets_quiet this : raises_only E (_parse_brackets self this).
Proof. unfold _parse_brackets. quiet. Qed.

Lemma _parse_window_quiet this : raises_only E (_parse_window self this).
Proof. unfold _parse_window. quiet. Qed.

(** In [_parse_column] the name token read back by [_prev] is there, and a
    builder raises what the registry allows. *)
Lemma _parse_column_quiet : raises_only E (_parse_column self).
Proof.
  intros tokens index. unfold _parse_column.
  apply raises_only_at_bind; [intros e; apply raises_only_match|].
  intros m index' Hm.
  destruct (_match_cases [VAR; IDENTIFIER] tokens index)
    as [((t & Ht & _) & _ & Hhit)|(_ & Hmiss)].
  - rewrite Hhit in Hm. injection Hm as <- <-. cbn [negb].
    apply raises_only_at_bind; [intros e H; discriminate H|].
    intros prev index' Hprev. rewrite _prev_after in Hprev. injection Hprev as <- <-.
    rewrite Ht. cbn [pyval].
    apply raises_only_at_of.
    apply raises_only_bind; [apply raises_only_match|]. intros [|].
    + destruct (TokenType_eqb (token_type t) IDENTIFIER);
        [apply raises_only_raise, HValueError|].
      destruct (functions self !! upper (text t)) as [function|] eqn:Hf;
        [|apply raises_only_raise, HValueError].
      apply raises_only_bind; [quiet|]. intros args.
      apply raises_only_bind.
      * destruct (function args) as [err|node] eqn:Hb.
        -- apply raises_only_raise.
           eapply (quiet_functions E self Hquiet); eassumption.
        -- apply raises_only_ret.
      * intros node. quiet.
    + quiet.
  - rewrite Hmiss in Hm. injection Hm as <- <-. intros e H. discriminate H.
Qed.

End Exceptions.

Lemma functions_parser_at fns fuel : functions (parser_at fns fuel) = fns.
Proof. destruct fuel; reflexivity. Qed.

Lemma parser_at_quiet E fns fuel :
  (forall msg arg, E (ValueError msg arg)) ->
  builders_raise_only E fns ->
  Quiet E (parser_at fns fuel).
Proof.
  intros HV Hb. induction fuel as [|fuel IH].
  - split; [exact Hb|..]; cbn [parser_at parse_statement parse_cte parse_select parse_from parse_join parse_table parse_where parse_group parse_having parse_order parse_union parse_expression parse_conjunction parse_equality parse_comparison parse_range parse_term parse_factor parse_unary parse_special parse_case parse_count parse_cast parse_primary parse_column parse_brackets parse_window];
      first [apply raises_only_out_of_fuel|intros this; apply raises_only_out_of_fuel].
  - split; [exact Hb|..];
      cbn [parser_at parse_statement parse_cte parse_select parse_from parse_join parse_table parse_where parse_group parse_having parse_order parse_union parse_expression parse_conjunction parse_equality parse_comparison parse_range parse_term parse_factor parse_unary parse_special parse_case parse_count parse_cast parse_primary parse_column parse_brackets parse_window].

    + apply _parse_statement_quiet; assumption.
    + apply _parse_cte_quiet; assumption.
    + apply _parse_select_quiet; assumption.
    + intros this; apply _parse_from_quiet; assumption.
    + intros this; apply _parse_join_quiet; assumption.
    + apply _parse_table_quiet; assumption.
    + intros this; apply _parse_where_quiet; assumption.
    + intros this; apply _parse_group_quiet; assumption.
    + intros this; apply _parse_having_quiet; assumption.
    + intros this; apply _parse_order_quiet; assumption.
    + intros this; apply _parse_union_quiet; assumption.
    + apply _parse_expression_quiet; assumption.
    + apply _parse_conjunction_quiet; assumption.
    + apply _parse_equality_quiet; assumption.
    + apply _parse_comparison_quiet; assumption.
    + apply _parse_range_quiet; assumption.
    + apply _parse_term_quiet; assumption.
    + apply _parse_factor_quiet; assumption.
    + apply _parse_unary_quiet; assumption.
    + apply _parse_special_quiet; assumption.
    + apply _parse_case_quiet; assumption.
    + apply _parse_count_quiet; assumption.
    + apply _parse_cast_quiet; assumption.
    + apply _parse_primary_quiet; assumption.
    + apply _parse_column_quiet; assumption.
    + intros this; apply _parse_brackets_quiet; assumption.
    + intros this; apply _parse_window_quiet; assumption.
Qed.

Lemma parse_chunks_raises E self chunks expressions e :
  (forall msg arg, E (ValueError msg arg)) ->
  raises_only E (parse_statement self) ->
  parse_chunks self chunks expressions = Raise e -> E e.
Proof.
  intros HV Hs. revert expressions.
  induction chunks as [|tokens chunks IH]; intros expressions; simpl; [discriminate|].
  destruct (parse_statement self tokens (-1 + 1)%Z) as [[node index]| |] eqn:Hp.
  - destruct (index <? Z.of_nat (length tokens))%Z; [|apply IH].
    intros [= <-]. apply HV.
  - intros [= <-]. eapply Hs, Hp.
  - discriminate.
Qed.

Lemma builtin_builders_raise_only :
  builders_raise_only (fun e => e = IndexError "list index out of range") FUNCTIONS.
Proof.
  intros name builder args e Hlookup Hb.
  assert (Hget : forall i x, getitem args i = inl x ->
                             x = IndexError "list index out of range").
  { intros i x. unfold getitem. destruct (args !! i); [discriminate|]. intros [= <-].
    reflexivity. }
  assert (H1 : forall f, build1 f args = inl e -> e = IndexError "list index out of range").
  { intros f. unfold build1. destruct (getitem args 0) eqn:H0; [|discriminate].
    intros [= <-]. eapply Hget, H0. }
  apply elem_of_list_to_map_2 in Hlookup.
  repeat (apply elem_of_cons in Hlookup; destruct Hlookup as [[= -> ->]|Hlookup]);
    [..|inversion Hlookup]; try (eapply H1, Hb); try (cbv beta in Hb; discriminate Hb).
  unfold build_if in Hb.
  destruct (getitem args 0) eqn:H0; [injection Hb as <-; eapply Hget, H0|].
  destruct (getitem args 1) eqn:H1'; [injection Hb as <-; eapply Hget, H1'|].
  destruct (getitem args 2) eqn:H2; [injection Hb as <-; eapply Hget, H2|discriminate].
Qed.

(** X8.  The AttributeError of reading [_prev.token_type] or [this.text]
    on None and the KeyError of indexing the operator dict never come out of
    [parse]: the token read back is always there and the operator found by
    [_match] is always a key.  Whenever [parse] raises one of the exceptions
    of the model (the RecursionError of the interpreter on deep nesting is
    not one of them), it is neither of the two unless a builder of the caller
    raised it; with the built-in registry alone it is never one of the
    two. *)
Theorem no_attribute_or_key_error :
  (forall opts fuel raw_tokens e,
      builders_raise_only not_lookup_error opts ->
      parse opts fuel raw_tokens = Raise e -> not_lookup_error e)
  /\ (forall fuel raw_tokens e,
         parse ∅ fuel raw_tokens = Raise e -> not_lookup_error e).
Proof.
  assert (Hgen : forall opts fuel raw_tokens e,
             builders_raise_only not_lookup_error opts ->
             parse opts fuel raw_tokens = Raise e -> not_lookup_error e).
  { intros opts fuel raw_tokens e Hopts. unfold parse.
    assert (HV : forall msg arg, not_lookup_error (ValueError msg arg))
      by (intros; exact I).
    assert (Hb : builders_raise_only not_lookup_error (opts ∪ FUNCTIONS)).
    { intros name builder args err Hlookup Hb.
      apply lookup_union_Some_raw in Hlookup. destruct Hlookup as [Hin|(_ & Hin)].
      - eapply Hopts; eassumption.
      - rewrite (builtin_builders_raise_only name builder args err Hin Hb). exact I. }
    apply parse_chunks_raises; [exact HV|].
    apply (quiet_statement not_lookup_error _ (parser_at_quiet _ _ fuel HV Hb)). }
  split; [exact Hgen|].
  intros fuel raw_tokens e. apply Hgen.
  intros name builder args err Hlookup. rewrite lookup_empty in Hlookup.
  discriminate Hlookup.
Qed.

Lemma no_attribute_or_key_error_witness :
  not_lookup_error (IndexError "list index out of range").
Proof.
  destruct no_attribute_or_key_error as (_ & H).
  apply (H 40 (empty_call "IF")). vm_compute. reflexivity.
Defined.

(** ** Productions, by the tokens under the cursor *)

Ltac hit H := rewrite (bind_ok _ _ _ _ _ _ (_match_hit _ _ _ H)); cbn [negb].
Ltac miss H := rewrite (bind_ok _ _ _ _ _ _ (_match_miss _ _ _ H)); cbn [negb].
Ltac prev := rewrite (bind_ok _ _ _ _ _ _ (_prev_after _ _)).
Ltac got H := rewrite (bind_ok _ _ _ _ _ _ H).

(** A token of one type is of no other. *)
Lemma at_cursor_absent tokens index (types types' : list TokenType) :
  at_cursor tokens index types ->
  forallb (fun ty => negb (existsb (TokenType_eqb ty) types')) types = true ->
  ~ at_cursor tokens index types'.
Proof.
  intros (t & Ht & Hin) Hdisj (t' & Ht' & Hin'). rewrite Ht in Ht'. injection Ht' as <-.
  rewrite forallb_forall in Hdisj. apply list_elem_of_In in Hin.
  specialize (Hdisj _ Hin). apply existsb_TokenType in Hin'. rewrite Hin' in Hdisj.
  discriminate Hdisj.
Qed.

(** Absent from a list, absent from a part of it. *)
Lemma absent_weaken tokens index (types types' : list TokenType) :
  ~ at_cursor tokens index types' ->
  forallb (fun ty => existsb (TokenType_eqb ty) types') types = true ->
  ~ at_cursor tokens index types.
Proof.
  intros Hno Hsub (t & Ht & Hin). apply Hno. exists t. split; [exact Ht|].
  rewrite forallb_forall in Hsub. apply list_elem_of_In in Hin.
  apply existsb_TokenType. apply (Hsub _ Hin).
Qed.

(** X9.  [_parse_alias] takes a name under the cursor as the alias, with or
    without AS before it; an AS that no name follows is consumed and the
    node comes back as it was; with neither, nothing moves. *)
Theorem alias_forms this tokens index :
  (forall name,
      at_cursor tokens index [ALIAS] ->
      _safe_get tokens (index + 1)%Z = Some name ->
      token_type name ∈ [IDENTIFIER; VAR] ->
      _parse_alias this tokens index = Ok (Alias this (Tok name), (index + 1 + 1)%Z))
  /\ (forall name,
         _safe_get tokens index = Some name ->
         token_type name ∈ [IDENTIFIER; VAR] ->
         _parse_alias this tokens index = Ok (Alias this (Tok name), (index + 1)%Z))
  /\ (at_cursor tokens index [ALIAS] ->
      absent tokens (index + 1)%Z [IDENTIFIER; VAR] ->
      _parse_alias this tokens index = Ok (this, (index + 1)%Z))
  /\ (absent tokens index [ALIAS] ->
      absent tokens index [IDENTIFIER; VAR] ->
      _parse_alias this tokens index = Ok (this, index)).
Proof.
  unfold absent. repeat apply conj.
  - intros name Has Hname Hty. unfold _parse_alias. hit Has.
    assert (Hat : at_cursor tokens (index + 1) [IDENTIFIER; VAR])
      by (exists name; split; assumption).
    hit Hat. prev. rewrite Hname. reflexivity.
  - intros name Hname Hty. unfold _parse_alias.
    assert (Hat : at_cursor tokens index [IDENTIFIER; VAR])
      by (exists name; split; assumption).
    assert (Hno : ~ at_cursor tokens index [ALIAS])
      by (apply (at_cursor_absent _ _ _ _ Hat); reflexivity).
    miss Hno. hit Hat. prev. rewrite Hname. reflexivity.
  - intros Has Hno. unfold _parse_alias. hit Has. miss Hno. reflexivity.
  - intros Hno1 Hno2. unfold _parse_alias. miss Hno1. miss Hno2. reflexivity.
Qed.

Lemma alias_forms_witness :
  _parse_alias (col_ "a") [var "a"; tk ALIAS "AS"; var "b"] 1%Z
  = Ok (Alias (col_ "a") (Tok (var "b")), 3%Z)
  /\ _parse_alias (col_ "a") [var "a"; var "b"] 1%Z
     = Ok (Alias (col_ "a") (Tok (var "b")), 2%Z)
  /\ _parse_alias (col_ "a") [var "a"; tk ALIAS "AS"; tk FROM "FROM"] 1%Z
     = Ok (col_ "a", 2%Z)
  /\ _parse_alias (col_ "a") [var "a"; tk FROM "FROM"] 1%Z = Ok (col_ "a", 1%Z).
Proof.
  repeat apply conj.
  - destruct (alias_forms (col_ "a") [var "a"; tk ALIAS "AS"; var "b"] 1%Z) as (H & _).
    apply (H (var "b")); [exists (tk ALIAS "AS"); split; [reflexivity|type_in]
                         |reflexivity|type_in].
  - destruct (alias_forms (col_ "a") [var "a"; var "b"] 1%Z) as (_ & H & _).
    apply (H (var "b")); [reflexivity|type_in].
  - destruct (alias_forms (col_ "a") [var "a"; tk ALIAS "AS"; tk FROM "FROM"] 1%Z)
      as (_ & _ & H & _).
    apply H; [exists (tk ALIAS "AS"); split; [reflexivity|type_in]|].
    eapply absent_token; reflexivity.
  - destruct (alias_forms (col_ "a") [var "a"; tk FROM "FROM"] 1%Z) as (_ & _ & _ & H).
    apply H; eapply absent_token; reflexivity.
Defined.

(** X10.  GROUP and ORDER must be followed by BY, and PARTITION in a window
    too: otherwise the production raises.  After ORDER BY and its list, a
    DESC is consumed and sets [desc]; without it [desc] is false. *)
Theorem by_is_required self this tokens index :
  (at_cursor tokens index [GROUP] -> absent tokens (index + 1)%Z [BY] ->
   _parse_group self this tokens index = Raise (ValueError "Expecting BY" None))
  /\ (at_cursor tokens index [ORDER] -> absent tokens (index + 1)%Z [BY] ->
      _parse_order self this tokens index = Raise (ValueError "Expecting BY" None))
  /\ (at_cursor tokens index [OVER] -> at_cursor tokens (index + 1)%Z [L_PAREN] ->
      at_cursor tokens (index + 1 + 1)%Z [PARTITION] ->
      absent tokens (index + 1 + 1 + 1)%Z [BY] ->
      _parse_window self this tokens index
      = Raise (ValueError "Expecting BY after PARTITION" None))
  /\ (forall expressions index1,
         at_cursor tokens index [ORDER] -> at_cursor tokens (index + 1)%Z [BY] ->
         _parse_csv (depth self) (parse_primary self) tokens (index + 1 + 1)%Z
         = Ok (expressions, index1) ->
         (at_cursor tokens index1 [DESC] ->
          _parse_order self this tokens index
          = Ok (Order this expressions true, (index1 + 1)%Z))
         /\ (absent tokens index1 [DESC] ->
             _parse_order self this tokens index
             = Ok (Order this expressions false, index1))).
Proof.
  unfold absent. split; [|split; [|split]].
  - intros Hg Hno. unfold _parse_group. hit Hg. miss Hno. reflexivity.
  - intros Ho Hno. unfold _parse_order. hit Ho. miss Hno. reflexivity.
  - intros Ho Hp Hpart Hno. unfold _parse_window. hit Ho. hit Hp. hit Hpart.
    unfold bind at 1. unfold bind at 1. rewrite (_match_miss _ _ _ Hno). reflexivity.
  - intros expressions index1 Ho Hby Hcsv. split; intros Hdesc.
    + unfold _parse_order. hit Ho. hit Hby. got Hcsv. hit Hdesc. reflexivity.
    + unfold _parse_order. hit Ho. hit Hby. got Hcsv. miss Hdesc. reflexivity.
Qed.

Lemma by_is_required_witness :
  _parse_group (parser_at FUNCTIONS 20) PyNone [tk GROUP "GROUP"; var "y"] 0%Z
  = Raise (ValueError "Expecting BY" None)
  /\ _parse_order (parser_at FUNCTIONS 20) PyNone order_by_w_desc 0%Z
     = Ok (Order PyNone [col_ "w"] true, 4%Z).
Proof.
  split.
  - destruct (by_is_required (parser_at FUNCTIONS 20) PyNone
                [tk GROUP "GROUP"; var "y"] 0%Z) as (H & _).
    apply H; [exists (tk GROUP "GROUP"); split; [reflexivity|type_in]|].
    eapply absent_token; reflexivity.
  - destruct (by_is_required (parser_at FUNCTIONS 20) PyNone order_by_w_desc 0%Z)
      as (_ & _ & _ & H).
    destruct (H [col_ "w"] 3%Z) as (Hd & _).
    + exists (tk ORDER "ORDER"). split; [reflexivity|type_in].
    + exists (tk BY "BY"). split; [reflexivity|type_in].
    + vm_compute. reflexivity.
    + apply Hd. exists (tk DESC "DESC"). split; [reflexivity|type_in].
Defined.

(** X11.  After UNION, an ALL is consumed and makes the union not distinct;
    without ALL it is distinct.  The right operand is a whole SELECT, with
    its own clauses and unions. *)
Theorem union_distinct self this tokens index :
  at_cursor tokens index [UNION] ->
  (forall expression index1,
      at_cursor tokens (index + 1)%Z [ALL] ->
      parse_select self tokens (index + 1 + 1)%Z = Ok (expression, index1) ->
      _parse_union self this tokens index = Ok (Union this expression false, index1))
  /\ (forall expression index1,
         absent tokens (index + 1)%Z [ALL] ->
         parse_select self tokens (index + 1)%Z = Ok (expression, index1) ->
         _parse_union self this tokens index = Ok (Union this expression true, index1)).
Proof.
  intros Hu. split.
  - intros expression index1 Hall Hsel. unfold _parse_union. hit Hu. hit Hall.
    cbv zeta. got Hsel. reflexivity.
  - intros expression index1 Hall Hsel. unfold _parse_union. hit Hu. miss Hall.
    cbv zeta. got Hsel. reflexivity.
Qed.

Lemma union_distinct_witness :
  _parse_union (parser_at FUNCTIONS 40) (Select [col_ "a"]) a_union_all_b_union_c 2%Z
  = Ok (Union (Select [col_ "a"])
          (Union (Select [col_ "b"]) (Select [col_ "c"]) true) false, 9%Z).
Proof.
  destruct (union_distinct (parser_at FUNCTIONS 40) (Select [col_ "a"])
              a_union_all_b_union_c 2%Z) as (H & _).
  - exists (tk UNION "UNION"). split; [reflexivity|type_in].
  - apply H; [exists (tk ALL "ALL"); split; [reflexivity|type_in]|].
    vm_compute. reflexivity.
Defined.

(** X12.  After BETWEEN come two primaries; an AND between them is consumed
    when it is there and not asked for when it is not: both forms give the
    same Between node over the two bounds. *)
Theorem between_and_is_optional self tokens index this index1 low index2 :
  parse_term self tokens index = Ok (this, index1) ->
  at_cursor tokens index1 [BETWEEN] ->
  parse_primary self tokens (index1 + 1)%Z = Ok (low, index2) ->
  (forall high index3,
      at_cursor tokens index2 [AND] ->
      parse_primary self tokens (index2 + 1)%Z = Ok (high, index3) ->
      _parse_range self tokens index = Ok (Between this low high, index3))
  /\ (forall high index3,
         absent tokens index2 [AND] ->
         parse_primary self tokens index2 = Ok (high, index3) ->
         _parse_range self tokens index = Ok (Between this low high, index3)).
Proof.
  intros Hterm Hb Hlow.
  assert (Hin : ~ at_cursor tokens index1 [IN])
    by (apply (at_cursor_absent _ _ _ _ Hb); reflexivity).
  split.
  - intros high index3 Hand Hhigh. unfold _parse_range. got Hterm. miss Hin. hit Hb.
    got Hlow. hit Hand. got Hhigh. reflexivity.
  - intros high index3 Hand Hhigh. unfold _parse_range. got Hterm. miss Hin. hit Hb.
    got Hlow. miss Hand. got Hhigh. reflexivity.
Qed.

Lemma between_and_is_optional_witness :
  _parse_range (parser_at FUNCTIONS 20) x_between_1_and_10 0%Z
  = Ok (Between (col_ "x") (Tok (tk NUMBER "1")) (Tok (tk NUMBER "10")), 5%Z)
  /\ _parse_range (parser_at FUNCTIONS 20) x_between_1_10 0%Z
     = Ok (Between (col_ "x") (Tok (tk NUMBER "1")) (Tok (tk NUMBER "10")), 4%Z).
Proof.
  split.
  - destruct (between_and_is_optional (parser_at FUNCTIONS 20) x_between_1_and_10 0%Z
                (col_ "x") 1%Z (Tok (tk NUMBER "1")) 3%Z) as (H & _).
    + vm_compute. reflexivity.
    + exists (tk BETWEEN "BETWEEN"). split; [reflexivity|type_in].
    + vm_compute. reflexivity.
    + apply H; [exists (tk AND "AND"); split; [reflexivity|type_in]|].
      vm_compute. reflexivity.
  - destruct (between_and_is_optional (parser_at FUNCTIONS 20) x_between_1_10 0%Z
                (col_ "x") 1%Z (Tok (tk NUMBER "1")) 3%Z) as (_ & H).
    + vm_compute. reflexivity.
    + exists (tk BETWEEN "BETWEEN"). split; [reflexivity|type_in].
    + vm_compute. reflexivity.
    + apply H; [eapply absent_token; reflexivity|].
      vm_compute. reflexivity.
Defined.

(** X13.  A column is a name with up to two qualifiers before it: [c],
    [t.c] and [d.t.c]; a part after a dot may be a star; a dot that no
    name or star follows raises.  A third dot is left under the cursor. *)
Theorem column_qualifiers self tokens index first :
  _safe_get tokens index = Some first ->
  token_type first ∈ [VAR; IDENTIFIER] ->
  absent tokens (index + 1)%Z [L_PAREN] ->
  (absent tokens (index + 1)%Z [DOT] ->
   _parse_column self tokens index
   = parse_brackets self (Column (Tok first) PyNone PyNone) tokens (index + 1)%Z)
  /\ (at_cursor tokens (index + 1)%Z [DOT] ->
      absent tokens (index + 1 + 1)%Z COLUMN_TOKENS ->
      _parse_column self tokens index = Raise (ValueError "Expected column name" None))
  /\ (forall second,
         at_cursor tokens (index + 1)%Z [DOT] ->
         _safe_get tokens (index + 1 + 1)%Z = Some second ->
         token_type second ∈ COLUMN_TOKENS ->
         (absent tokens (index + 1 + 1 + 1)%Z [DOT] ->
          _parse_column self tokens index
          = parse_brackets self (Column (Tok second) PyNone (Tok first))
              tokens (index + 1 + 1 + 1)%Z)
         /\ (at_cursor tokens (index + 1 + 1 + 1)%Z [DOT] ->
             absent tokens (index + 1 + 1 + 1 + 1)%Z COLUMN_TOKENS ->
             _parse_column self tokens index
             = Raise (ValueError "Expected column name" None))
         /\ (forall third,
                at_cursor tokens (index + 1 + 1 + 1)%Z [DOT] ->
                _safe_get tokens (index + 1 + 1 + 1 + 1)%Z = Some third ->
                token_type third ∈ COLUMN_TOKENS ->
                _parse_column self tokens index
                = parse_brackets self (Column (Tok third) (Tok first) (Tok second))
                    tokens (index + 1 + 1 + 1 + 1 + 1)%Z)).
Proof.
  intros Hfirst Hty Hparen. unfold absent in *.
  assert (Hname : at_cursor tokens index [VAR; IDENTIFIER])
    by (exists first; split; assumption).
  assert (Hstart : forall (k : option Token -> M Expr),
             (let* m := _match [VAR; IDENTIFIER] in
              if negb m then ret PyNone
              else let* this := _prev in k this) tokens index
             = k (Some first) tokens (index + 1)%Z).
  { intros k. hit Hname. prev. rewrite Hfirst. reflexivity. }
  split; [|split].
  - intros Hdot. unfold _parse_column. rewrite Hstart. miss Hparen. miss Hdot. reflexivity.
  - intros Hdot Hno. unfold _parse_column. rewrite Hstart. miss Hparen. hit Hdot.
    cbv zeta. miss Hno. reflexivity.
  - intros second Hdot Hsecond Hty2.
    assert (Hat2 : at_cursor tokens (index + 1 + 1) COLUMN_TOKENS)
      by (exists second; split; assumption).
    split; [|split].
    + intros Hdot2. unfold _parse_column. rewrite Hstart. miss Hparen. hit Hdot.
      cbv zeta. hit Hat2. prev. rewrite Hsecond. miss Hdot2. reflexivity.
    + intros Hdot2 Hno. unfold _parse_column. rewrite Hstart. miss Hparen. hit Hdot.
      cbv zeta. hit Hat2. prev. rewrite Hsecond. hit Hdot2. cbv zeta. miss Hno.
      reflexivity.
    + intros third Hdot2 Hthird Hty3.
      assert (Hat3 : at_cursor tokens (index + 1 + 1 + 1 + 1) COLUMN_TOKENS)
        by (exists third; split; assumption).
      unfold _parse_column. rewrite Hstart. miss Hparen. hit Hdot.
      cbv zeta. hit Hat2. prev. rewrite Hsecond. hit Hdot2. cbv zeta. hit Hat3.
      prev. rewrite Hthird. reflexivity.
Qed.

Lemma column_qualifiers_witness :
  _parse_column (parser_at FUNCTIONS 20) (dotted "d" "t" "c" []) 1%Z
  = Ok (Column (Tok (var "c")) (Tok (var "d")) (Tok (var "t")), 6%Z)
  /\ _parse_column (parser_at FUNCTIONS 20) [var "t"; tk DOT "."; tk STAR "*"] 0%Z
     = Ok (Column (Tok (tk STAR "*")) PyNone (Tok (var "t")), 3%Z)
  /\ _parse_column (parser_at FUNCTIONS 20) [var "t"; tk DOT "."] 0%Z
     = Raise (ValueError "Expected column name" None).
Proof.
  repeat apply conj.
  - destruct (column_qualifiers (parser_at FUNCTIONS 20) (dotted "d" "t" "c" []) 1%Z
                (var "d")) as (_ & _ & H);
      [reflexivity|type_in|eapply absent_token; reflexivity|].
    destruct (H (var "t")) as (_ & _ & H3);
      [exists (tk DOT "."); split; [reflexivity|type_in]|reflexivity|type_in|].
    rewrite (H3 (var "c"));
      [|exists (tk DOT "."); split; [reflexivity|type_in]|reflexivity|type_in].
    vm_compute. reflexivity.
  - destruct (column_qualifiers (parser_at FUNCTIONS 20)
                [var "t"; tk DOT "."; tk STAR "*"] 0%Z (var "t")) as (_ & _ & H);
      [reflexivity|type_in|eapply absent_token; reflexivity|].
    destruct (H (tk STAR "*")) as (H2 & _);
      [exists (tk DOT "."); split; [reflexivity|type_in]|reflexivity|type_in|].
    rewrite H2; [|apply absent_none; reflexivity].
    vm_compute. reflexivity.
  - destruct (column_qualifiers (parser_at FUNCTIONS 20) [var "t"; tk DOT "."] 0%Z
                (var "t")) as (_ & H & _);
      [reflexivity|type_in|eapply absent_token; reflexivity|].
    apply H; [exists (tk DOT "."); split; [reflexivity|type_in]|].
    apply absent_none. reflexivity.
Defined.

(** X14.  A name with three qualifiers is not read whole: whatever the four
    names are, the column ends before the third dot and [parse] raises for
    the dot left over. *)
Theorem three_qualifiers_fail opts a b c d fuel :
  parse opts (40 + fuel) (dotted a b c [tk DOT "."; var d])
  = Raise (ValueError "Invalid expression {self._curr}" (Some (Tok (tk DOT ".")))).
Proof. at_depth. Qed.

(** X15.  What opens must close.  When [_parse_primary] on an opening
    parenthesis, [_parse_brackets] on an opening bracket, [_parse_count] or
    [_parse_case] return a node, the token before the cursor is the closing
    parenthesis, bracket or END, and the node is the Paren, Bracket, Count
    or Case; without the closing token they raise. *)
Theorem closing_token_is_required self tokens index e index' :
  (at_cursor tokens index [L_PAREN] ->
   _parse_primary self tokens index = Ok (e, index') ->
   at_cursor tokens (index' - 1)%Z [R_PAREN] /\ exists this, e = Paren this)
  /\ (forall this,
         at_cursor tokens index [L_BRACKET] ->
         _parse_brackets self this tokens index = Ok (e, index') ->
         at_cursor tokens (index' - 1)%Z [R_BRACKET]
         /\ exists expressions, e = Bracket this expressions)
  /\ (_parse_count self tokens index = Ok (e, index') ->
      at_cursor tokens index [L_PAREN]
      /\ at_cursor tokens (index' - 1)%Z [R_PAREN]
      /\ exists this distinct, e = Count this distinct)
  /\ (_parse_case self tokens index = Ok (e, index') ->
      at_cursor tokens (index' - 1)%Z [END]
      /\ exists ifs default, e = Case ifs default).
Proof.
  assert (Hback : forall i types, at_cursor tokens i types ->
                                  at_cursor tokens (i + 1 - 1)%Z types).
  { intros i types H. replace (i + 1 - 1)%Z with i by lia. exact H. }
  split; [|split; [|split]].
  - intros Hp. unfold _parse_primary.
    assert (Hlit : ~ at_cursor tokens index [STRING; NUMBER; STAR; NULL])
      by (apply (at_cursor_absent _ _ _ _ Hp); reflexivity).
    miss Hlit. hit Hp. unfold bind at 1.
    destruct (parse_expression self tokens (index + 1)%Z) as [[this i1]| |];
      try discriminate.
    destruct (_match_cases [R_PAREN] tokens i1) as [(Hat & _ & H)|(_ & H)];
      rewrite (bind_ok _ _ _ _ _ _ H); cbn [negb]; [|discriminate].
    intros [= <- <-]. split; [apply Hback, Hat|]. exists this. reflexivity.
  - intros this Hb. unfold _parse_brackets. hit Hb. unfold bind at 1.
    destruct (_parse_csv (depth self) (parse_primary self) tokens (index + 1)%Z)
      as [[es i1]| |]; try discriminate.
    cbv zeta.
    destruct (_match_cases [R_BRACKET] tokens i1) as [(Hat & _ & H)|(_ & H)];
      rewrite (bind_ok _ _ _ _ _ _ H); cbn [negb]; [|discriminate].
    intros [= <- <-]. split; [apply Hback, Hat|]. exists es. reflexivity.
  - unfold _parse_count.
    destruct (_match_cases [L_PAREN] tokens index) as [(Hlp & _ & H)|(_ & H)];
      rewrite (bind_ok _ _ _ _ _ _ H); cbn [negb]; [|discriminate].
    unfold bind at 1.
    destruct (_match [DISTINCT] tokens (index + 1)%Z) as [[distinct i1]| |];
      try discriminate.
    unfold bind at 1.
    destruct (parse_conjunction self tokens i1) as [[this i2]| |]; try discriminate.
    destruct (_match_cases [R_PAREN] tokens i2) as [(Hat & _ & H2)|(_ & H2)];
      rewrite (bind_ok _ _ _ _ _ _ H2); cbn [negb]; [|discriminate].
    intros [= <- <-]. split; [exact Hlp|]. split; [apply Hback, Hat|].
    exists this, distinct. reflexivity.
  - unfold _parse_case. unfold bind at 1.
    destruct (while_match (depth self) [WHEN] _ [] tokens index) as [[ifs i1]| |];
      try discriminate.
    unfold bind at 1.
    destruct (_match [ELSE] tokens i1) as [[m i2]| |]; try discriminate.
    unfold bind at 1.
    destruct ((if m then parse_expression self else ret PyNone) tokens i2)
      as [[default i3]| |]; try discriminate.
    destruct (_match_cases [END] tokens i3) as [(Hat & _ & H)|(_ & H)];
      rewrite (bind_ok _ _ _ _ _ _ H); cbn [negb]; [|discriminate].
    intros [= <- <-]. split; [apply Hback, Hat|]. exists ifs, default. reflexivity.
Qed.

Lemma closing_token_is_required_witness :
  at_cursor count_distinct_x 0 [L_PAREN]
  /\ at_cursor count_distinct_x (4 - 1)%Z [R_PAREN]
  /\ exists this distinct, Count (col_ "x") true = Count this distinct.
Proof.
  destruct (closing_token_is_required (parser_at FUNCTIONS 20) count_distinct_x 0%Z
              (Count (col_ "x") true) 4%Z) as (_ & _ & H & _).
  apply H. vm_compute. reflexivity.
Defined.

(** ** Whole statements *)

Lemma suffix_at_cons tokens index t rest :
  suffix_at tokens index (t :: rest) ->
  _safe_get tokens index = Some t /\ suffix_at tokens (index + 1)%Z rest.
Proof.
  intros (H0 & Hd). split.
  - rewrite _safe_get_nonneg by exact H0.
    pose proof (lookup_drop tokens (Z.to_nat index) 0) as Hl.
    rewrite Hd, Nat.add_0_r in Hl. symmetry. exact Hl.
  - split; [lia|]. replace (Z.to_nat (index + 1)) with (Z.to_nat index + 1) by lia.
    rewrite <- drop_drop, Hd. reflexivity.
Qed.

Lemma suffix_at_nil tokens index :
  suffix_at tokens index [] -> _safe_get tokens index = None.
Proof.
  intros (H0 & Hd). rewrite _safe_get_nonneg by exact H0.
  apply lookup_ge_None. apply (f_equal (@length _)) in Hd. rewrite length_drop in Hd.
  simpl in Hd. lia.
Qed.

(** A bound method of the parser at a depth is its production over the parser
    one level down. *)
Lemma parse_statement_S fns n : parse_statement (parser_at fns (S n)) = _parse_statement (parser_at fns n).
Proof. reflexivity. Qed.

Lemma parse_cte_S fns n : parse_cte (parser_at fns (S n)) = _parse_cte (parser_at fns n).
Proof. reflexivity. Qed.

Lemma parse_select_S fns n : parse_select (parser_at fns (S n)) = _parse_select (parser_at fns n).
Proof. reflexivity. Qed.

Lemma parse_from_S fns n : parse_from (parser_at fns (S n)) = _parse_from (parser_at fns n).
Proof. reflexivity. Qed.

Lemma parse_join_S fns n : parse_join (parser_at fns (S n)) = _parse_join (parser_at fns n).
Proof. reflexivity. Qed.

Lemma parse_table_S fns n : parse_table (parser_at fns (S n)) = _parse_table (parser_at fns n).
Proof. reflexivity. Qed.

Lemma parse_where_S fns n : parse_where (parser_at fns (S n)) = _parse_where (parser_at fns n).
Proof. reflexivity. Qed.

Lemma parse_group_S fns n : parse_group (parser_at fns (S n)) = _parse_group (parser_at fns n).
Proof. reflexivity. Qed.

Lemma parse_having_S fns n : parse_having (parser_at fns (S n)) = _parse_having (parser_at fns n).
Proof. reflexivity. Qed.

Lemma parse_order_S fns n : parse_order (parser_at fns (S n)) = _parse_order (parser_at fns n).
Proof. reflexivity. Qed.

Lemma parse_union_S fns n : parse_union (parser_at fns (S n)) = _parse_union (parser_at fns n).
Proof. reflexivity. Qed.

Lemma parse_expression_S fns n : parse_expression (parser_at fns (S n)) = _parse_expression (parser_at fns n).
Proof. reflexivity. Qed.

Lemma parse_conjunction_S fns n : parse_conjunction (parser_at fns (S n)) = _parse_conjunction (parser_at fns n).
Proof. reflexivity. Qed.

Lemma parse_equality_S fns n : parse_equality (parser_at fns (S n)) = _parse_equality (parser_at fns n).
Proof. reflexivity. Qed.

Lemma parse_comparison_S fns n : parse_comparison (parser_at fns (S n)) = _parse_comparison (parser_at fns n).
Proof. reflexivity. Qed.

Lemma parse_range_S fns n : parse_range (parser_at fns (S n)) = _parse_range (parser_at fns n).
Proof. reflexivity. Qed.

Lemma parse_term_S fns n : parse_term (parser_at fns (S n)) = _parse_term (parser_at fns n).
Proof. reflexivity. Qed.

Lemma parse_factor_S fns n : parse_factor (parser_at fns (S n)) = _parse_factor (parser_at fns n).
Proof. reflexivity. Qed.

Lemma parse_unary_S fns n : parse_unary (parser_at fns (S n)) = _parse_unary (parser_at fns n).
Proof. reflexivity. Qed.

Lemma parse_special_S fns n : parse_special (parser_at fns (S n)) = _parse_special (parser_at fns n).
Proof. reflexivity. Qed.

Lemma parse_case_S fns n : parse_case (parser_at fns (S n)) = _parse_case (parser_at fns n).
Proof. reflexivity. Qed.

Lemma parse_count_S fns n : parse_count (parser_at fns (S n)) = _parse_count (parser_at fns n).
Proof. reflexivity. Qed.

Lemma parse_cast_S fns n : parse_cast (parser_at fns (S n)) = _parse_cast (parser_at fns n).
Proof. reflexivity. Qed.

Lemma parse_primary_S fns n : parse_primary (parser_at fns (S n)) = _parse_primary (parser_at fns n).
Proof. reflexivity. Qed.

Lemma parse_column_S fns n : parse_column (parser_at fns (S n)) = _parse_column (parser_at fns n).
Proof. reflexivity. Qed.

Lemma parse_brackets_S fns n : parse_brackets (parser_at fns (S n)) = _parse_brackets (parser_at fns n).
Proof. reflexivity. Qed.

Lemma parse_window_S fns n : parse_window (parser_at fns (S n)) = _parse_window (parser_at fns n).
Proof. reflexivity. Qed.

Ltac enter :=
  cbn [Nat.add];
  rewrite ?depth_parser_at, ?parse_statement_S,
    ?parse_cte_S,
    ?parse_select_S,
    ?parse_from_S,
    ?parse_join_S,
    ?parse_table_S,
    ?parse_where_S,
    ?parse_group_S,
    ?parse_having_S,
    ?parse_order_S,
    ?parse_union_S,
    ?parse_expression_S,
    ?parse_conjunction_S,
    ?parse_equality_S,
    ?parse_comparison_S,
    ?parse_range_S,
    ?parse_term_S,
    ?parse_factor_S,
    ?parse_unary_S,
    ?parse_special_S,
    ?parse_case_S,
    ?parse_count_S,
    ?parse_cast_S,
    ?parse_primary_S,
    ?parse_column_S,
    ?parse_brackets_S,
    ?parse_window_S.

Lemma name_is_not tokens index t (types : list TokenType) :
  _safe_get tokens index = Some t ->
  token_type t ∈ [VAR; IDENTIFIER] ->
  forallb (fun ty => negb (existsb (TokenType_eqb ty) types)) [VAR; IDENTIFIER] = true ->
  ~ at_cursor tokens index types.
Proof.
  intros Ht Hty. apply at_cursor_absent. exists t. split; assumption.
Qed.

(** A bare name, read from the unary level down. *)
Lemma name_unary fns k tokens index t :
  _safe_get tokens index = Some t ->
  token_type t ∈ [VAR; IDENTIFIER] ->
  ~ at_cursor tokens (index + 1) [L_PAREN; DOT; L_BRACKET] ->
  parse_unary (parser_at fns (5 + k)) tokens index = Ok (column_of t, (index + 1)%Z).
Proof.
  intros Ht Hty Hnext.
  assert (Hno : forall types,
             forallb (fun ty => negb (existsb (TokenType_eqb ty) types)) [VAR; IDENTIFIER]
             = true -> ~ at_cursor tokens index types)
    by (intros types; apply (name_is_not _ _ _ _ Ht Hty)).
  assert (Hnext' : forall types,
             forallb (fun ty => existsb (TokenType_eqb ty) [L_PAREN; DOT; L_BRACKET]) types
             = true -> ~ at_cursor tokens (index + 1) types)
    by (intros types; apply (absent_weaken _ _ _ _ Hnext)).
  enter. unfold _parse_unary.
  miss (Hno [NOT] eq_refl). miss (Hno [DASH] eq_refl).
  enter. unfold _parse_special.
  miss (Hno [CAST] eq_refl). miss (Hno [CASE] eq_refl). miss (Hno [COUNT] eq_refl).
  enter. unfold _parse_primary.
  miss (Hno [STRING; NUMBER; STAR; NULL] eq_refl). miss (Hno [L_PAREN] eq_refl).
  enter. unfold _parse_column.
  assert (Hat : at_cursor tokens index [VAR; IDENTIFIER]) by (exists t; split; assumption).
  hit Hat. prev. miss (Hnext' [L_PAREN] eq_refl). miss (Hnext' [DOT] eq_refl).
  rewrite Ht. enter. unfold _parse_brackets. miss (Hnext' [L_BRACKET] eq_refl).
  reflexivity.
Qed.

Lemma _parse_tokens_single fuel parse expressions tokens index e index1 :
  parse tokens index = Ok (e, index1) ->
  ~ at_cursor tokens index1 (map op_token_type expressions) ->
  _parse_tokens (S fuel) parse expressions tokens index = Ok (e, index1).
Proof.
  intros Hp Hno. unfold _parse_tokens. got Hp. cbv zeta. simpl while_match.
  assert (Hno' : ~ at_cursor tokens index1 (map fst (by_token_type expressions)))
    by (rewrite by_token_type_keys; exact Hno).
  miss Hno'. reflexivity.
Qed.

(** An operand that nothing continues, read from the expression level. *)
Lemma expression_of_unary fns d tokens index e index1 :
  parse_unary (parser_at fns d) tokens index = Ok (e, index1) ->
  ~ at_cursor tokens index1 CONTINUING ->
  forall extra,
    parse_expression (parser_at fns (d + 7 + extra)) tokens index = Ok (e, index1).
Proof.
  intros Hu Hstop extra.
  assert (Hd : exists d', d = S d').
  { destruct d as [|d']; [discriminate Hu|]. exists d'. reflexivity. }
  destruct Hd as (d' & ->).
  assert (Hno : forall types,
             forallb (fun ty => existsb (TokenType_eqb ty) CONTINUING) types = true ->
             ~ at_cursor tokens index1 types)
    by (intros types; apply (absent_weaken _ _ _ _ Hstop)).
  assert (Hc : parse_conjunction (parser_at fns (S (S (S (S (S (S (S d'))))))))
                 tokens index = Ok (e, index1)).
  { enter. unfold _parse_conjunction. enter.
    apply _parse_tokens_single; [|apply Hno; reflexivity].
    unfold _parse_equality. enter.
    apply _parse_tokens_single; [|apply Hno; reflexivity].
    unfold _parse_comparison. enter.
    apply _parse_tokens_single; [|apply Hno; reflexivity].
    unfold _parse_range. enter.
    rewrite (bind_ok _ _ _ _ e index1).
    - miss (Hno [IN] eq_refl). miss (Hno [BETWEEN] eq_refl). reflexivity.
    - unfold _parse_term. enter.
      apply _parse_tokens_single; [|apply Hno; reflexivity].
      unfold _parse_factor. enter.
      apply _parse_tokens_single; [|apply Hno; reflexivity].
      exact Hu. }
  assert (H7 : parse_expression (parser_at fns (S d' + 7)) tokens index = Ok (e, index1)).
  { replace (S d' + 7) with (S (S (S (S (S (S (S (S d')))))))) by lia.
    rewrite parse_expression_S. unfold _parse_expression. got Hc.
    assert (Hw : parse_window (parser_at fns (S (S (S (S (S (S (S d'))))))))  e
                   tokens index1 = Ok (e, index1)).
    { rewrite parse_window_S. unfold _parse_window. miss (Hno [OVER] eq_refl).
      reflexivity. }
    got Hw. unfold _parse_alias. miss (Hno [ALIAS] eq_refl). miss (Hno [IDENTIFIER; VAR] eq_refl).
    reflexivity. }
  destruct (method_deeper fns (S d' + 7) (S d' + 7 + extra) P_expression PyNone
              ltac:(lia) tokens index) as [Hoof|Heq]; cbn [method] in *.
  - rewrite H7 in Hoof. discriminate Hoof.
  - rewrite <- Heq. exact H7.
Qed.

Lemma bind_ret_same {A} (c : M A) tokens index :
  (let* x := c in ret x) tokens index = c tokens index.
Proof. unfold bind, ret. destruct (c tokens index) as [[a i]| |]; reflexivity. Qed.

Lemma bind_bind_ret {A B C} (c : M A) (f : A -> B) (g : B -> C) tokens index :
  (let* y := (let* x := c in ret (f x)) in ret (g y)) tokens index
  = (let* x := c in ret (g (f x))) tokens index.
Proof. unfold bind, ret. destruct (c tokens index) as [[a i]| |]; reflexivity. Qed.

Lemma types_at_cons tokens index ty (types : list TokenType) :
  types_at tokens index (ty :: types) ->
  at_cursor tokens index [ty] /\ types_at tokens (index + 1) types.
Proof.
  intros H. split.
  - specialize (H 0 ty eq_refl). rewrite Z.add_0_r in H. exact H.
  - intros i ty' Hi. specialize (H (S i) ty' Hi).
    replace (index + 1 + Z.of_nat i)%Z with (index + Z.of_nat (S i))%Z by lia. exact H.
Qed.

(** X16. Prefix operators nest one call deep per token.  Over a run of
    [NOT] and [-] tokens, with one level of call depth for each of them
    beyond the depth [k] left to the operand, the outcome of [_parse_unary]
    is the outcome of the operand at depth [k]: a node it returns is wrapped
    in one [Not] or [Neg] node per token, the first token outermost, what it
    raises is raised, and when it runs out of depth so does the run.  The
    depth a run takes grows with its length: the interpreter's recursion
    limit bounds the runs that parse. *)
Theorem prefix_operators_nest fns k (ops : list TokenType) tokens index :
  Forall (fun ty => ty ∈ [NOT; DASH]) ops ->
  types_at tokens index ops ->
  parse_unary (parser_at fns (length ops + k)) tokens index
  = (let* this := parse_unary (parser_at fns k) in ret (prefixed ops this))
      tokens (index + Z.of_nat (length ops))%Z.
Proof.
  intros Hops. revert index.
  induction Hops as [|ty ops Hty Hops IH]; intros index Hat.
  - cbn [length Nat.add prefixed fold_right]. rewrite Z.add_0_r, bind_ret_same. reflexivity.
  - apply types_at_cons in Hat as (Hhead & Hrest). specialize (IH _ Hrest).
    cbn [length Nat.add]. rewrite parse_unary_S. unfold _parse_unary.
    replace (index + Z.of_nat (S (length ops)))%Z
      with (index + 1 + Z.of_nat (length ops))%Z by lia.
    assert (Hcase : ty = NOT \/ ty = DASH).
    { apply list_elem_of_In in Hty. simpl in Hty. intuition. }
    destruct Hcase as [-> | ->].
    + hit Hhead. unfold bind at 1. rewrite IH.
      unfold bind, ret.
      destruct (parse_unary (parser_at fns k) tokens (index + 1 + Z.of_nat (length ops))%Z)
        as [[a i]| |]; reflexivity.
    + assert (Hnot : ~ at_cursor tokens index [NOT])
        by (apply (at_cursor_absent _ _ _ _ Hhead); reflexivity).
      miss Hnot. hit Hhead. unfold bind at 1. rewrite IH.
      unfold bind, ret.
      destruct (parse_unary (parser_at fns k) tokens (index + 1 + Z.of_nat (length ops))%Z)
        as [[a i]| |]; reflexivity.
Qed.

Lemma prefix_operators_nest_witness :
  parse_unary (parser_at FUNCTIONS (length [NOT; DASH; DASH] + 5))
    [tk NOT "NOT"; tk DASH "-"; tk DASH "-"; var "a"] 0%Z
  = Ok (Not (Neg (Neg (col_ "a"))), 4%Z).
Proof.
  rewrite (prefix_operators_nest FUNCTIONS 5 [NOT; DASH; DASH]).
  - vm_compute. reflexivity.
  - repeat constructor; elem.
  - intros i ty Hi. destruct i as [|[|[|i]]]; simpl in Hi; try discriminate Hi;
      injection Hi as <-; eexists; (split; [vm_compute; reflexivity|elem]).
Defined.

Lemma bind_ret_l {A B} (a : A) (k : A -> M B) tokens index :
  bind (ret a) k tokens index = k a tokens index.
Proof. reflexivity. Qed.

(** A bare name that a comma or the end of the chunk follows. *)
Lemma name_expression fns d tokens index t :
  12 <= d ->
  _safe_get tokens index = Some t ->
  token_type t ∈ [VAR; IDENTIFIER] ->
  ~ at_cursor tokens (index + 1) (L_PAREN :: DOT :: L_BRACKET :: CONTINUING) ->
  parse_expression (parser_at fns d) tokens index = Ok (column_of t, (index + 1)%Z).
Proof.
  intros Hd Ht Hty Hnext.
  replace d with (5 + 0 + 7 + (d - 12)) by lia.
  apply expression_of_unary.
  - apply name_unary; [exact Ht|exact Hty|].
    apply (absent_weaken _ _ _ _ Hnext). reflexivity.
  - apply (absent_weaken _ _ _ _ Hnext). reflexivity.
Qed.

Lemma comma_or_end tokens index (rest : list Token) (types : list TokenType) :
  suffix_at tokens index (concat (map (fun t => [tk COMMA ","; t]) rest)) ->
  existsb (TokenType_eqb COMMA) types = false ->
  ~ at_cursor tokens index types.
Proof.
  intros Hs Hty. destruct rest as [|t rest].
  - apply absent_none. apply suffix_at_nil. exact Hs.
  - apply suffix_at_cons in Hs as (Hc & _).
    apply (absent_token _ _ _ _ Hc). exact Hty.
Qed.

(** The loop of [_parse_csv] over [, name , name ...] to the end of the chunk. *)
Lemma names_loop fns d tokens :
  12 <= d ->
  forall rest fuel index items,
    Forall (fun t => token_type t ∈ [VAR; IDENTIFIER]) rest ->
    suffix_at tokens index (concat (map (fun t => [tk COMMA ","; t]) rest)) ->
    length rest < fuel ->
    while_match fuel [COMMA]
      (fun items => let* item := parse_expression (parser_at fns d) in ret (items ++ [item]))
      items tokens index
    = Ok (items ++ map column_of rest, (index + 2 * Z.of_nat (length rest))%Z).
Proof.
  intros Hd rest. induction rest as [|t rest IH]; intros fuel index items Hall Hs Hfuel;
    (destruct fuel as [|fuel]; [simpl in Hfuel; lia|]); cbn [while_match].
  - assert (Hend : ~ at_cursor tokens index [COMMA])
      by (apply absent_none, suffix_at_nil, Hs).
    miss Hend. cbn [map length]. rewrite app_nil_r, Z.add_0_r. reflexivity.
  - cbn [map concat app] in Hs.
    apply suffix_at_cons in Hs as (Hc & Hs). apply suffix_at_cons in Hs as (Ht & Hs).
    replace (index + 1 + 1)%Z with (index + 2)%Z in Hs by lia.
    apply Forall_cons in Hall as (Hty & Hall).
    assert (Hcomma : at_cursor tokens index [COMMA])
      by (apply (at_cursor_token _ _ _ _ Hc); reflexivity).
    hit Hcomma.
    assert (He : parse_expression (parser_at fns d) tokens (index + 1)%Z
                 = Ok (column_of t, (index + 2)%Z)).
    { replace (index + 2)%Z with (index + 1 + 1)%Z by lia.
      apply name_expression; [exact Hd|exact Ht|exact Hty|].
      replace (index + 1 + 1)%Z with (index + 2)%Z by lia.
      apply (comma_or_end _ _ rest _ Hs). reflexivity. }
    unfold bind at 1. unfold bind at 1. rewrite He. cbn [ret].
    rewrite (IH fuel (index + 2)%Z (items ++ [column_of t]) Hall Hs)
      by (simpl in Hfuel; lia).
    cbn [map length]. rewrite <- app_assoc. f_equal. f_equal. lia.
Qed.

(** A statement that is a list of names. *)
Lemma select_names fns d first rest :
  12 <= d -> length rest < d ->
  Forall (fun t => token_type t ∈ [VAR; IDENTIFIER]) (first :: rest) ->
  parse_statement (parser_at fns (S (S d)))
    (tk SELECT "SELECT" :: comma_separated first rest) 0%Z
  = Ok (Select (map column_of (first :: rest)),
        Z.of_nat (length (tk SELECT "SELECT" :: comma_separated first rest))).
Proof.
  intros Hd Hlen Hall. apply Forall_cons in Hall as (Hty & Hall).
  set (tokens := tk SELECT "SELECT" :: comma_separated first rest).
  assert (Hs : suffix_at tokens 2 (concat (map (fun t => [tk COMMA ","; t]) rest)))
    by (split; [lia|reflexivity]).
  assert (Hlast : Z.of_nat (length tokens) = (2 + 2 * Z.of_nat (length rest))%Z).
  { unfold tokens, comma_separated. cbn [length].
    assert (Hc : length (concat (map (fun t => [tk COMMA ","; t]) rest))
                 = 2 * length rest)
      by (clear; induction rest as [|t rest IH]; simpl; lia).
    rewrite Hc. lia. }
  assert (Hend : forall types, ~ at_cursor tokens (2 + 2 * Z.of_nat (length rest)) types).
  { intros types. apply absent_none. rewrite <- Hlast.
    rewrite _safe_get_nonneg by lia. apply lookup_ge_None. lia. }
  assert (Hselect : _safe_get tokens 0 = Some (tk SELECT "SELECT")) by reflexivity.
  assert (Hfirst : _safe_get tokens 1 = Some first) by reflexivity.
  rewrite parse_statement_S. unfold _parse_statement.
  miss (absent_token _ _ _ [WITH] Hselect eq_refl).
  rewrite parse_select_S. unfold _parse_select.
  hit (at_cursor_token _ _ _ [SELECT] Hselect eq_refl).
  rewrite depth_parser_at. change (0 + 1)%Z with 1%Z.
  assert (Hcsv : _parse_csv d (parse_expression (parser_at fns d)) tokens 1%Z
                 = Ok (map column_of (first :: rest),
                       (2 + 2 * Z.of_nat (length rest))%Z)).
  { unfold _parse_csv.
    assert (He : parse_expression (parser_at fns d) tokens 1%Z
                 = Ok (column_of first, 2%Z)).
    { apply (name_expression fns d tokens 1 first Hd Hfirst Hty).
      apply (comma_or_end _ _ rest _ Hs). reflexivity. }
    got He. apply (names_loop fns d tokens Hd rest d 2 [column_of first] Hall Hs Hlen). }
  got Hcsv. cbv zeta.
  destruct d as [|d']; [lia|].
  assert (Hfrom : forall this, parse_from (parser_at fns (S d')) this tokens
                    (2 + 2 * Z.of_nat (length rest))%Z
                  = Ok (this, (2 + 2 * Z.of_nat (length rest))%Z)).
  { intros this. rewrite parse_from_S. unfold _parse_from. miss (Hend [FROM]).
    reflexivity. }
  assert (Hjoin : forall this, parse_join (parser_at fns (S d')) this tokens
                    (2 + 2 * Z.of_nat (length rest))%Z
                  = Ok (this, (2 + 2 * Z.of_nat (length rest))%Z)).
  { intros this. rewrite parse_join_S. unfold _parse_join.
    miss (Hend [LEFT; RIGHT; FULL]). rewrite bind_ret_l.
    miss (Hend [INNER; OUTER; CROSS]). rewrite bind_ret_l.
    miss (Hend [JOIN]). reflexivity. }
  assert (Hwhere : forall this, parse_where (parser_at fns (S d')) this tokens
                    (2 + 2 * Z.of_nat (length rest))%Z
                  = Ok (this, (2 + 2 * Z.of_nat (length rest))%Z)).
  { intros this. rewrite parse_where_S. unfold _parse_where. miss (Hend [WHERE]).
    reflexivity. }
  assert (Hgroup : forall this, parse_group (parser_at fns (S d')) this tokens
                    (2 + 2 * Z.of_nat (length rest))%Z
                  = Ok (this, (2 + 2 * Z.of_nat (length rest))%Z)).
  { intros this. rewrite parse_group_S. unfold _parse_group. miss (Hend [GROUP]).
    reflexivity. }
  assert (Hhaving : forall this, parse_having (parser_at fns (S d')) this tokens
                    (2 + 2 * Z.of_nat (length rest))%Z
                  = Ok (this, (2 + 2 * Z.of_nat (length rest))%Z)).
  { intros this. rewrite parse_having_S. unfold _parse_having. miss (Hend [HAVING]).
    reflexivity. }
  assert (Horder : forall this, parse_order (parser_at fns (S d')) this tokens
                    (2 + 2 * Z.of_nat (length rest))%Z
                  = Ok (this, (2 + 2 * Z.of_nat (length rest))%Z)).
  { intros this. rewrite parse_order_S. unfold _parse_order. miss (Hend [ORDER]).
    reflexivity. }
  assert (Hunion : forall this, parse_union (parser_at fns (S d')) this tokens
                    (2 + 2 * Z.of_nat (length rest))%Z
                  = Ok (this, (2 + 2 * Z.of_nat (length rest))%Z)).
  { intros this. rewrite parse_union_S. unfold _parse_union. miss (Hend [UNION]).
    reflexivity. }
  got (Hfrom (Select (map column_of (first :: rest)))).
  got (Hjoin (Select (map column_of (first :: rest)))).
  got (Hwhere (Select (map column_of (first :: rest)))).
  got (Hgroup (Select (map column_of (first :: rest)))).
  got (Hhaving (Select (map column_of (first :: rest)))).
  got (Horder (Select (map column_of (first :: rest)))).
  got (Hunion (Select (map column_of (first :: rest)))).
  rewrite Hlast. reflexivity.
Qed.

(** The second loop of [parse] over one chunk that the dispatcher reads to
    its end. *)
Lemma parse_one_chunk opts fuel raw_tokens e :
  plain raw_tokens ->
  parse_statement (parser_at (opts ∪ FUNCTIONS) fuel) raw_tokens 0%Z
  = Ok (e, Z.of_nat (length raw_tokens)) ->
  parse opts fuel raw_tokens = Ok [e].
Proof.
  intros Hplain He. unfold parse.
  rewrite (split_chunks_plain _ Hplain).
  cbn [parse_chunks]. change (-1 + 1)%Z with 0%Z. rewrite He, Z.ltb_irrefl. reflexivity.
Qed.

(** X17. [SELECT] and names between commas: the result is one [Select] node
    whose expressions are the columns of the names, in order, however many
    they are. *)
Theorem select_list_of_names opts fuel first rest :
  Forall (fun t => token_type t ∈ [VAR; IDENTIFIER]) (first :: rest) ->
  parse opts (14 + length rest + fuel) (tk SELECT "SELECT" :: comma_separated first rest)
  = Ok [Select (map column_of (first :: rest))].
Proof.
  intros Hall. apply parse_one_chunk.
  - constructor; [discriminate|].
    apply Forall_cons in Hall as (Hty & Hall). constructor.
    + intros Heq. rewrite Heq in Hty. apply list_elem_of_In in Hty. simpl in Hty.
      intuition discriminate.
    + clear Hty. induction Hall as [|t rest Hty Hall IH]; [constructor|].
      cbn [map concat app]. constructor; [discriminate|]. constructor; [|exact IH].
      intros Heq. rewrite Heq in Hty. apply list_elem_of_In in Hty. simpl in Hty.
      intuition discriminate.
  - replace (14 + length rest + fuel) with (S (S (12 + length rest + fuel))) by lia.
    apply select_names; [lia|lia|exact Hall].
Qed.

Lemma select_list_of_names_witness :
  parse ∅ (14 + length [var "b"; tk IDENTIFIER "c"] + 0)
    (tk SELECT "SELECT" :: comma_separated (var "a") [var "b"; tk IDENTIFIER "c"])
  = Ok [Select (map column_of [var "a"; var "b"; tk IDENTIFIER "c"])].
Proof.
  apply (select_list_of_names ∅ 0 (var "a") [var "b"; tk IDENTIFIER "c"]).
  repeat constructor; elem.
Defined.

(** ** The first statement of an input *)

(** The chunk the loop is filling takes the tokens up to the next
    terminator. *)
Lemma fold_split_first raw :
  forall init last,
    exists extra more tail,
      fold_left split_token raw (init ++ [last]) = init ++ (last ++ extra) :: more
      /\ raw = extra ++ tail
      /\ match tail with
         | [] => True
         | t :: _ => token_type t = SEMICOLON
         end.
Proof.
  induction raw as [|t raw IH]; intros init last; simpl.
  - exists [], [], []. rewrite app_nil_r. repeat split.
  - rewrite split_token_snoc. destruct (is_semicolon t) eqn:Ht.
    + replace (init ++ [last; [t]]) with ((init ++ [last]) ++ [[t]])
        by (rewrite <- app_assoc; reflexivity).
      destruct (IH (init ++ [last]) [t]) as (extra & more & tail & -> & _ & _).
      exists [], (([t] ++ extra) :: more), (t :: raw).
      rewrite app_nil_r, <- app_assoc. repeat split. apply is_semicolon_true, Ht.
    + destruct (IH init (last ++ [t])) as (extra & more & tail & -> & -> & Htail).
      exists ([t] ++ extra), more, tail. rewrite app_assoc. repeat split. exact Htail.
Qed.

(** The first chunk is the input up to its first terminator. *)
Lemma first_chunk raw_tokens :
  exists first more tail,
    split_chunks raw_tokens = first :: more
    /\ raw_tokens = first ++ tail
    /\ match tail with
       | [] => True
       | t :: _ => token_type t = SEMICOLON
       end.
Proof.
  destruct (fold_split_first raw_tokens [] []) as (extra & more & tail & H & Hraw & Htail).
  exists extra, more, tail. repeat split; assumption.
Qed.

Lemma first_chunk_head (first tail : list Token) t rest :
  first ++ tail = t :: rest ->
  match tail with
  | [] => True
  | t :: _ => token_type t = SEMICOLON
  end ->
  token_type t <> SEMICOLON ->
  exists first', first = t :: first' /\ first' ++ tail = rest.
Proof.
  intros Happ Htail Ht. destruct first as [|t' first'].
  - simpl in Happ. subst tail. contradiction.
  - injection Happ as -> Hrest. exists first'. split; [reflexivity|exact Hrest].
Qed.

Lemma _safe_get_past_head t (tokens : list Token) index :
  (0 <= index)%Z -> _safe_get (t :: tokens) (index + 1)%Z = _safe_get tokens index.
Proof.
  intros H. rewrite !_safe_get_nonneg by lia.
  replace (Z.to_nat (index + 1)) with (S (Z.to_nat index)) by lia. reflexivity.
Qed.

(** [parse] raises what the dispatcher raises on the first chunk. *)
Lemma parse_first_raises opts fuel raw_tokens first more e :
  split_chunks raw_tokens = first :: more ->
  parse_statement (parser_at (opts ∪ FUNCTIONS) fuel) first 0%Z = Raise e ->
  parse opts fuel raw_tokens = Raise e.
Proof.
  intros Hs He. unfold parse. rewrite Hs. cbn [parse_chunks].
  change (-1 + 1)%Z with 0%Z. rewrite He. reflexivity.
Qed.

(** X18. After [WITH] comes a name and after the name [AS]: when the token
    after [WITH] is no name, or there is none, [parse] raises
    [Expected alias after WITH], and when the token after the name is not
    [AS], or there is none, it raises [Expected AS after WITH], whatever
    follows. *)
Theorem with_requires_name_and_as opts fuel w rest :
  token_type w = WITH ->
  (~ at_cursor rest 0 [IDENTIFIER; VAR] ->
   parse opts (2 + fuel) (w :: rest) = Raise (ValueError "Expected alias after WITH" None))
  /\ (forall n rest',
         rest = n :: rest' ->
         token_type n ∈ [IDENTIFIER; VAR] ->
         ~ at_cursor rest' 0 [ALIAS] ->
         parse opts (2 + fuel) (w :: rest)
         = Raise (ValueError "Expected AS after WITH" None)).
Proof.
  intros Hw.
  destruct (first_chunk (w :: rest)) as (first & more & tail & Hs & Hraw & Htail).
  symmetry in Hraw.
  destruct (first_chunk_head _ _ _ _ Hraw Htail) as (first' & -> & Hrest);
    [rewrite Hw; discriminate|].
  assert (Hwith : at_cursor (w :: first') 0 [WITH]).
  { exists w. split; [reflexivity|]. rewrite Hw. type_in. }
  assert (Hstart :
             parse_statement (parser_at (opts ∪ FUNCTIONS) (2 + fuel)) (w :: first') 0%Z
             = (let* expressions :=
                  _parse_csv (S fuel) (_parse_cte (parser_at (opts ∪ FUNCTIONS) fuel)) in
                let* this := parse_select (parser_at (opts ∪ FUNCTIONS) (S fuel)) in
                ret (CTE this expressions)) (w :: first') (0 + 1)%Z).
  { cbn [Nat.add]. rewrite parse_statement_S. unfold _parse_statement.
    hit Hwith. rewrite depth_parser_at, parse_cte_S. reflexivity. }
  split.
  - intros Hname. apply (parse_first_raises _ _ _ _ _ _ Hs).
    rewrite Hstart. apply bind_raise.
    unfold _parse_csv. apply bind_raise. unfold _parse_cte.
    assert (Hno : ~ at_cursor (w :: first') (0 + 1) [IDENTIFIER; VAR]).
    { intros (t & Ht & Hin). apply Hname. exists t. split; [|exact Hin].
      rewrite (_safe_get_past_head w first' 0) in Ht by lia.
      rewrite _safe_get_nonneg in * by lia. subst rest.
      apply lookup_app_l_Some. exact Ht. }
    miss Hno. reflexivity.
  - intros n rest' -> Hn Has. apply (parse_first_raises _ _ _ _ _ _ Hs).
    destruct (first_chunk_head _ _ _ _ Hrest Htail) as (first'' & -> & Hrest').
    { intros Heq. rewrite Heq in Hn. apply list_elem_of_In in Hn. simpl in Hn.
      intuition discriminate. }
    rewrite Hstart. apply bind_raise.
    unfold _parse_csv. apply bind_raise. unfold _parse_cte.
    assert (Hname : at_cursor (w :: n :: first'') (0 + 1) [IDENTIFIER; VAR]).
    { exists n. split; [reflexivity|exact Hn]. }
    hit Hname. prev.
    assert (Hno : ~ at_cursor (w :: n :: first'') (0 + 1 + 1) [ALIAS]).
    { intros (t & Ht & Hin). apply Has. exists t. split; [|exact Hin].
      rewrite (_safe_get_past_head w (n :: first'') (0 + 1)) in Ht by lia.
      rewrite (_safe_get_past_head n first'' 0) in Ht by lia.
      rewrite _safe_get_nonneg in * by lia. subst rest'.
      apply lookup_app_l_Some. exact Ht. }
    miss Hno. reflexivity.
Qed.

Lemma with_requires_name_and_as_witness :
  parse ∅ (2 + 0) (tk WITH "WITH" :: select_a)
  = Raise (ValueError "Expected alias after WITH" None)
  /\ parse ∅ (2 + 0) (tk WITH "WITH" :: [var "t"; tk L_PAREN "("])
     = Raise (ValueError "Expected AS after WITH" None).
Proof.
  destruct (with_requires_name_and_as ∅ 0 (tk WITH "WITH") select_a eq_refl) as (H1 & _).
  destruct (with_requires_name_and_as ∅ 0 (tk WITH "WITH") [var "t"; tk L_PAREN "("]
              eq_refl) as (_ & H2).
  split.
  - apply H1. eapply absent_token; reflexivity.
  - apply (H2 (var "t") [tk L_PAREN "("] eq_refl); [type_in|].
    eapply absent_token; reflexivity.
Defined.

(** X19. A table is a name or two names about a dot, the first the database;
    a dot that no name follows raises.  A table with no name at all is not
    an error: where no parenthesis, name or dot is under the cursor the
    table has neither name nor database and nothing is consumed. *)
Theorem table_forms self tokens index :
  absent tokens index [L_PAREN] ->
  (forall first,
      _safe_get tokens index = Some first ->
      token_type first ∈ [VAR; IDENTIFIER] ->
      (absent tokens (index + 1)%Z [DOT] ->
       _parse_table self tokens index
       = _parse_alias (Table (Tok first) PyNone) tokens (index + 1)%Z)
      /\ (at_cursor tokens (index + 1)%Z [DOT] ->
          absent tokens (index + 1 + 1)%Z [VAR; IDENTIFIER] ->
          _parse_table self tokens index = Raise (ValueError "Expected table name" None))
      /\ (forall second,
             at_cursor tokens (index + 1)%Z [DOT] ->
             _safe_get tokens (index + 1 + 1)%Z = Some second ->
             token_type second ∈ [VAR; IDENTIFIER] ->
             _parse_table self tokens index
             = _parse_alias (Table (Tok second) (Tok first)) tokens (index + 1 + 1 + 1)%Z))
  /\ (absent tokens index [VAR; IDENTIFIER] ->
      absent tokens index [DOT] ->
      _parse_table self tokens index = _parse_alias (Table PyNone PyNone) tokens index).
Proof.
  unfold absent. intros Hparen. split.
  - intros first Hfirst Hty.
    assert (Hname : at_cursor tokens index [VAR; IDENTIFIER])
      by (exists first; split; assumption).
    assert (Hstart : forall (k : option Token -> M Expr),
               (let* m := _match [VAR; IDENTIFIER] in
                let* table := (if m then _prev else ret None) in k table) tokens index
               = k (Some first) tokens (index + 1)%Z).
    { intros k. hit Hname. prev. rewrite Hfirst. reflexivity. }
    split; [|split].
    + intros Hdot. unfold _parse_table. miss Hparen.
      rewrite (bind_ok _ _ _ _ (Table (Tok first) PyNone) (index + 1)%Z); [reflexivity|].
      rewrite Hstart. miss Hdot. reflexivity.
    + intros Hdot Hno. unfold _parse_table. miss Hparen. apply bind_raise.
      rewrite Hstart. hit Hdot. cbv zeta. miss Hno. reflexivity.
    + intros second Hdot Hsecond Hty2.
      assert (Hat : at_cursor tokens (index + 1 + 1) [VAR; IDENTIFIER])
        by (exists second; split; assumption).
      unfold _parse_table. miss Hparen.
      rewrite (bind_ok _ _ _ _ (Table (Tok second) (Tok first)) (index + 1 + 1 + 1)%Z);
        [reflexivity|].
      rewrite Hstart. hit Hdot. cbv zeta. hit Hat. prev. rewrite Hsecond.
      reflexivity.
  - intros Hname Hdot. unfold _parse_table. miss Hparen.
    rewrite (bind_ok _ _ _ _ (Table PyNone PyNone) index); [reflexivity|].
    miss Hname. rewrite bind_ret_l. miss Hdot. reflexivity.
Qed.

Lemma table_forms_witness :
  _parse_table (parser_at FUNCTIONS 20) [var "d"; tk DOT "."; var "t"] 0%Z
  = Ok (Table (Tok (var "t")) (Tok (var "d")), 3%Z)
  /\ _parse_table (parser_at FUNCTIONS 20) [tk FROM "FROM"] 1%Z
     = Ok (Table PyNone PyNone, 1%Z).
Proof.
  split.
  - destruct (table_forms (parser_at FUNCTIONS 20) [var "d"; tk DOT "."; var "t"] 0%Z)
      as (H & _); [eapply absent_token; reflexivity|].
    destruct (H (var "d")) as (_ & _ & H2); [reflexivity|type_in|].
    rewrite (H2 (var "t"));
      [|exists (tk DOT "."); split; [reflexivity|type_in]|reflexivity|type_in].
    vm_compute. reflexivity.
  - destruct (table_forms (parser_at FUNCTIONS 20) [tk FROM "FROM"] 1%Z) as (_ & H);
      [apply absent_none; reflexivity|].
    rewrite H; [|apply absent_none; reflexivity..].
    vm_compute. reflexivity.
Defined.

(** X20. The list of IN stands in parentheses: after a term and IN, a
    missing opening parenthesis raises, a list that no closing parenthesis
    follows raises, and a closed list gives the In node over the term and
    the items. *)
Theorem in_list_is_parenthesised self tokens index this index1 :
  parse_term self tokens index = Ok (this, index1) ->
  at_cursor tokens index1 [IN] ->
  (absent tokens (index1 + 1)%Z [L_PAREN] ->
   _parse_range self tokens index = Raise (ValueError "Expected ( after IN" None))
  /\ (forall expressions index2,
         at_cursor tokens (index1 + 1)%Z [L_PAREN] ->
         _parse_csv (depth self) (parse_primary self) tokens (index1 + 1 + 1)%Z
         = Ok (expressions, index2) ->
         (absent tokens index2 [R_PAREN] ->
          _parse_range self tokens index = Raise (ValueError "Expected ) after IN" None))
         /\ (at_cursor tokens index2 [R_PAREN] ->
             _parse_range self tokens index = Ok (In this expressions, (index2 + 1)%Z))).
Proof.
  unfold absent. intros Hterm Hin. split.
  - intros Hno. unfold _parse_range. got Hterm. hit Hin. miss Hno. reflexivity.
  - intros expressions index2 Hopen Hcsv. split; intros Hclose.
    + unfold _parse_range. got Hterm. hit Hin. hit Hopen. got Hcsv. miss Hclose.
      reflexivity.
    + unfold _parse_range. got Hterm. hit Hin. hit Hopen. got Hcsv. hit Hclose.
      reflexivity.
Qed.

Lemma in_list_is_parenthesised_witness :
  _parse_range (parser_at FUNCTIONS 20) x_in_1_2 0%Z
  = Ok (In (col_ "x") [Tok (tk NUMBER "1"); Tok (tk NUMBER "2")], 7%Z)
  /\ _parse_range (parser_at FUNCTIONS 20) [var "x"; tk IN "IN"; tk NUMBER "1"] 0%Z
     = Raise (ValueError "Expected ( after IN" None).
Proof.
  split.
  - destruct (in_list_is_parenthesised (parser_at FUNCTIONS 20) x_in_1_2 0%Z
                (col_ "x") 1%Z) as (_ & H).
    + vm_compute. reflexivity.
    + exists (tk IN "IN"). split; [reflexivity|type_in].
    + destruct (H [Tok (tk NUMBER "1"); Tok (tk NUMBER "2")] 6%Z) as (_ & Hok).
      * exists (tk L_PAREN "("). split; [reflexivity|type_in].
      * vm_compute. reflexivity.
      * apply Hok. exists (tk R_PAREN ")"). split; [reflexivity|type_in].
  - destruct (in_list_is_parenthesised (parser_at FUNCTIONS 20)
                [var "x"; tk IN "IN"; tk NUMBER "1"] 0%Z (col_ "x") 1%Z) as (H & _).
    + vm_compute. reflexivity.
    + exists (tk IN "IN"). split; [reflexivity|type_in].
    + apply H. eapply absent_token; reflexivity.
Defined.

(** ** The registry, through [parse] *)

(** An operand that raises, seen from the expression level. *)
Lemma expression_raises_of_unary fns d tokens index err :
  parse_unary (parser_at fns d) tokens index = Raise err ->
  forall extra,
    parse_expression (parser_at fns (d + 7 + extra)) tokens index = Raise err.
Proof.
  intros Hu extra.
  assert (Hd : exists d', d = S d').
  { destruct d as [|d']; [discriminate Hu|]. exists d'. reflexivity. }
  destruct Hd as (d' & ->).
  assert (H7 : parse_expression (parser_at fns (S d' + 7)) tokens index = Raise err).
  { replace (S d' + 7) with (S (S (S (S (S (S (S (S d')))))))) by lia.
    rewrite parse_expression_S. unfold _parse_expression. apply bind_raise.
    rewrite parse_conjunction_S. unfold _parse_conjunction, _parse_tokens. apply bind_raise.
    rewrite parse_equality_S. unfold _parse_equality, _parse_tokens. apply bind_raise.
    rewrite parse_comparison_S. unfold _parse_comparison, _parse_tokens. apply bind_raise.
    rewrite parse_range_S. unfold _parse_range. apply bind_raise.
    rewrite parse_term_S. unfold _parse_term, _parse_tokens. apply bind_raise.
    rewrite parse_factor_S. unfold _parse_factor, _parse_tokens. apply bind_raise.
    exact Hu. }
  destruct (method_deeper fns (S d' + 7) (S d' + 7 + extra) P_expression PyNone
              ltac:(lia) tokens index) as [Hoof|Heq]; cbn [method] in *.
  - rewrite H7 in Hoof. discriminate Hoof.
  - rewrite <- Heq. exact H7.
Qed.

(** A call [name(x)] at the cursor, from the unary level down. *)
Lemma call_unary fns k tokens index name x :
  _safe_get tokens index = Some name ->
  token_type name = VAR ->
  at_cursor tokens (index + 1) [L_PAREN] ->
  _safe_get tokens (index + 1 + 1) = Some x ->
  token_type x ∈ [VAR; IDENTIFIER] ->
  at_cursor tokens (index + 1 + 1 + 1) [R_PAREN] ->
  parse_unary (parser_at fns (16 + k)) tokens index
  = match fns !! upper (text name) with
    | Some builder =>
      match builder [column_of x] with
      | inr e => Ok (e, (index + 1 + 1 + 1 + 1)%Z)
      | inl err => Raise err
      end
    | None =>
      Raise (ValueError "Unrecognized function name {this}" (Some (Tok name)))
    end.
Proof.
  intros Hname Hty Hopen Hx Htyx Hclose.
  assert (Hat : at_cursor tokens index [VAR; IDENTIFIER]).
  { exists name. split; [exact Hname|]. rewrite Hty. type_in. }
  assert (Hno : forall types,
             forallb (fun ty => negb (existsb (TokenType_eqb ty) types)) [VAR; IDENTIFIER]
             = true -> ~ at_cursor tokens index types)
    by (intros types; apply (at_cursor_absent _ _ _ _ Hat)).
  assert (Hafter : forall types,
             forallb (fun ty => negb (existsb (TokenType_eqb ty) types)) [R_PAREN]
             = true -> ~ at_cursor tokens (index + 1 + 1 + 1) types)
    by (intros types; apply (at_cursor_absent _ _ _ _ Hclose)).
  enter. unfold _parse_unary.
  miss (Hno [NOT] eq_refl). miss (Hno [DASH] eq_refl).
  enter. unfold _parse_special.
  miss (Hno [CAST] eq_refl). miss (Hno [CASE] eq_refl). miss (Hno [COUNT] eq_refl).
  enter. unfold _parse_primary.
  miss (Hno [STRING; NUMBER; STAR; NULL] eq_refl). miss (Hno [L_PAREN] eq_refl).
  enter. unfold _parse_column.
  hit Hat. prev. hit Hopen. rewrite Hname, Hty. cbn [TokenType_eqb].
  change (TokenType_eqb VAR IDENTIFIER) with false. cbv iota.
  rewrite functions_parser_at.
  destruct (fns !! upper (text name)) as [builder|]; [|reflexivity].
  assert (Hcsv : _parse_csv (12 + k) (parse_expression (parser_at fns (12 + k))) tokens
                   (index + 1 + 1)%Z
                 = Ok ([column_of x], (index + 1 + 1 + 1)%Z)).
  { unfold _parse_csv.
    assert (He : parse_expression (parser_at fns (12 + k)) tokens (index + 1 + 1)%Z
                 = Ok (column_of x, (index + 1 + 1 + 1)%Z)).
    { apply name_expression; [lia|exact Hx|exact Htyx|]. apply Hafter. reflexivity. }
    got He. cbn [Nat.add while_match]. miss (Hafter [COMMA] eq_refl). reflexivity. }
  cbn [Nat.add] in Hcsv. got Hcsv.
  destruct (builder [column_of x]) as [err|e]; [reflexivity|].
  cbn [lift]. rewrite bind_ret_l. hit Hclose. reflexivity.
Qed.

(** X1.  The registry of a parser is the built-in table with the caller's
    entries laid over it, and [parse] calls what it holds.  For a call
    [name(x)] of a name of ASCII characters: when the caller supplies a
    builder for the uppercased name, the result is what this builder makes of
    the argument list, also when the name is a built-in one, and what the
    builder raises is raised; otherwise the built-in builder of the name is
    used, and a name neither has raises the error that carries the name
    token. *)
Theorem caller_entries_override opts name x fuel :
  ascii_text name = true ->
  parse opts (40 + fuel) (call_of (var name) x)
  = match
      match opts !! upper name with
      | Some builder => Some builder
      | None => FUNCTIONS !! upper name
      end
    with
    | Some builder =>
      match builder [col_ x] with
      | inr e => Ok [Select [e]]
      | inl err => Raise err
      end
    | None =>
      Raise (ValueError "Unrecognized function name {this}" (Some (Tok (var name))))
    end.
Proof.
  intros _.
  set (tokens := call_of (var name) x).
  set (fns := opts ∪ FUNCTIONS).
  assert (Hlookup : fns !! upper name
                    = match opts !! upper name with
                      | Some builder => Some builder
                      | None => FUNCTIONS !! upper name
                      end).
  { unfold fns. rewrite lookup_union.
    destruct (opts !! upper name), (FUNCTIONS !! upper name); reflexivity. }
  rewrite <- Hlookup.
  assert (Hplain : plain tokens) by (repeat constructor; discriminate).
  assert (Hselect : at_cursor tokens 0 [SELECT])
    by (exists (tk SELECT "SELECT"); split; [reflexivity|type_in]).
  assert (Hend : forall types, ~ at_cursor tokens 5 types)
    by (intros types; apply absent_none; reflexivity).
  pose proof (call_unary fns 0 tokens 1 (var name) (var x) eq_refl eq_refl) as Hu.
  specialize (Hu ltac:(exists (tk L_PAREN "("); split; [reflexivity|type_in])
                 eq_refl ltac:(type_in)
                 ltac:(exists (tk R_PAREN ")"); split; [reflexivity|type_in])).
  change (text (var name)) with name in Hu. change (column_of (var x)) with (col_ x) in Hu.
  change (1 + 1 + 1 + 1 + 1)%Z with 5%Z in Hu.
  replace (40 + fuel) with (3 + (37 + fuel)) by lia.
  assert (Hraise : forall err,
             parse_unary (parser_at fns (16 + 0)) tokens 1%Z = Raise err ->
             parse opts (3 + (37 + fuel)) tokens = Raise err).
  { intros err He.
    apply (parse_first_raises _ _ _ tokens [] _ (split_chunks_plain _ Hplain)).
    change (3 + (37 + fuel)) with (S (S (S (37 + fuel)))).
    rewrite parse_statement_S. unfold _parse_statement.
    miss (at_cursor_absent _ _ _ [WITH] Hselect eq_refl).
    rewrite parse_select_S. unfold _parse_select. hit Hselect. apply bind_raise.
    unfold _parse_csv. apply bind_raise.
    replace (S (37 + fuel)) with (16 + 0 + 7 + (15 + fuel)) by lia.
    apply expression_raises_of_unary. exact He. }
  destruct (fns !! upper name) as [builder|]; [|apply Hraise; exact Hu].
  destruct (builder [col_ x]) as [err|e]; [apply Hraise; exact Hu|].
  assert (Hcsv : _parse_csv (S (37 + fuel)) (parse_expression (parser_at fns (S (37 + fuel))))
                   tokens (0 + 1)%Z
                 = Ok ([e], 5%Z)).
  { unfold _parse_csv.
    assert (He : parse_expression (parser_at fns (S (37 + fuel))) tokens (0 + 1)%Z
                 = Ok (e, 5%Z)).
    { replace (S (37 + fuel)) with (16 + 0 + 7 + (15 + fuel)) by lia.
      apply expression_of_unary; [exact Hu|apply Hend]. }
    got He. cbn [while_match]. miss (Hend [COMMA]). reflexivity. }
  assert (Hsel : _parse_select (parser_at fns (S (37 + fuel))) tokens 0%Z
                 = Ok (Select [e], 5%Z)).
  { apply (_parse_select_clauses fns (37 + fuel) tokens 0 [e] 5 pipeline);
      [exact Hselect|exact Hcsv|apply clauses_stop|].
    intros c _. apply Hend. }
  apply (parse_of_select opts (37 + fuel) tokens _ _ Hplain Hselect Hsel). reflexivity.
Qed.

Lemma caller_entries_override_witness :
  parse (<["SUM" := (fun args => inr (Coalesce args)) : Builder]> ∅) (40 + 0)
    (call_of (var "sum") "x")
  = Ok [Select [Coalesce [col_ "x"]]].
Proof.
  rewrite (caller_entries_override _ "sum" "x" 0); [|reflexivity].
  vm_compute. reflexivity.
Defined.
